(** * AI-PE-Analyst: response sanitizer, deal normalizer, step runner

    A shallow embedding of the response-repair and normalization layer of
    [services/geminiService.ts] and of the pipeline orchestration and
    hydration code of [App.tsx], with the properties the specification
    states about them.

    Conventions of the embedding.
    - A JavaScript string is a list of 8-bit code units ([list ascii]); the
      text handled here is model output and JSON, and a [\u] escape that
      denotes a code unit above 255 is not representable (the JSON reader
      of the model rejects it).
    - A JavaScript number read from JSON is kept as the exact decimal
      [m * 10^e]; IEEE rounding is not modelled, and a number is falsy when
      its mantissa is zero.
    - Exceptions are explicit: fallible code returns [Result]. *)

From Stdlib Require Import Ascii String DecimalString.
From Stdlib Require Import ZArith Bool Arith Lia List.
Import ListNotations.

Set Warnings "-register-all".

Set Implicit Arguments.

(* ===================================================================== *)
(** * JavaScript strings, values and the built-ins the program calls     *)
(* ===================================================================== *)

Module Js.

Definition jsstring := list ascii.

Definition DQUOTE : ascii := "034"%char.
Definition BACKSLASH : ascii := "\"%char.
Definition NEWLINE : ascii := "010"%char.

(** A Rocq literal as a JavaScript string. *)
Definition str (s : string) : jsstring := list_ascii_of_string s.

(** A JSON text, written with an apostrophe in place of each double
    quote. *)
Definition json (s : string) : jsstring :=
  map (fun c => if (c =? "'")%char then DQUOTE else c) (list_ascii_of_string s).

Fixpoint jsstring_eqb (a b : jsstring) : bool :=
  match a, b with
  | [], [] => true
  | x :: a', y :: b' => (x =? y)%char && jsstring_eqb a' b'
  | _, _ => false
  end.

(** ** Exceptions *)

(** Every value this program throws is an instance of [Error]: the two
    the engine raises, and [new Error(message)]. *)
Inductive exn : Type :=
| SyntaxError                       (* thrown by JSON.parse *)
| TypeError                         (* property read on null or undefined *)
| Error (message : jsstring).       (* new Error(message) *)

(** [error.message].  The wording of the engine's own two errors is the
    engine's; a representative text stands for it, and nothing below reads
    it. *)
Definition message (e : exn) : jsstring :=
  match e with
  | SyntaxError => str "Unexpected token in JSON"
  | TypeError => str "Cannot read properties of undefined"
  | Error m => m
  end.

Inductive Result (A : Type) : Type :=
| Ok (a : A)
| Throw (e : exn).

Arguments Ok {A} a.
Arguments Throw {A} e.

(** ** Values *)

Inductive value : Type :=
| VUndefined
| VNull
| VBool (b : bool)
| VNum (m e : Z)                    (* the number m * 10^e *)
| VStr (s : jsstring)
| VDate (iso : jsstring)            (* new Date(iso) *)
| VArr (items : list value)
| VObj (props : list (jsstring * value)).

Definition VInt (n : Z) : value := VNum n 0.

(** [x || y], [!x]. *)
Definition truthy (v : value) : bool :=
  match v with
  | VUndefined | VNull => false
  | VBool b => b
  | VNum m _ => negb (m =? 0)%Z
  | VStr s => match s with [] => false | _ => true end
  | VDate _ | VArr _ | VObj _ => true
  end.

Definition or_else (a b : value) : value := if truthy a then a else b.

(** Own properties, in creation order.  Writing an existing key replaces
    its value in place; a new key goes last. *)
Fixpoint lookup (k : jsstring) (props : list (jsstring * value)) : option value :=
  match props with
  | [] => None
  | (k', v) :: rest => if jsstring_eqb k k' then Some v else lookup k rest
  end.

Fixpoint obj_set (props : list (jsstring * value)) (k : jsstring) (v : value)
  : list (jsstring * value) :=
  match props with
  | [] => [(k, v)]
  | (k', v') :: rest =>
      if jsstring_eqb k k' then (k', v) :: rest else (k', v') :: obj_set rest k v
  end.

Definition nullish (v : value) : bool :=
  match v with VUndefined | VNull => true | _ => false end.

(** [o.k] for a value [o] that is not null or undefined.  The names the
    program reads are never an index, [length] or a prototype member, so a
    read on a primitive, an array or a Date gives [undefined]. *)
Definition prop (o : value) (k : jsstring) : value :=
  match o with
  | VObj props => match lookup k props with Some v => v | None => VUndefined end
  | _ => VUndefined
  end.

(** [o.k], raising on null and undefined as the language does. *)
Definition get (o : value) (k : jsstring) : Result value :=
  if nullish o then Throw TypeError else Ok (prop o k).

(** [o.k = v] on an object. *)
Definition set_prop (o : value) (k : jsstring) (v : value) : value :=
  match o with
  | VObj props => VObj (obj_set props k v)
  | _ => o
  end.

(** A natural number in decimal, as [String(i)] prints it. *)
Definition decimal (i : nat) : jsstring :=
  str (NilEmpty.string_of_uint (Nat.to_uint i)).

Definition index_key (i : nat) : jsstring := decimal i.

Fixpoint indexed {A : Type} (f : A -> value) (i : nat) (l : list A)
  : list (jsstring * value) :=
  match l with
  | [] => []
  | x :: rest => (index_key i, f x) :: indexed f (S i) rest
  end.

(** The own enumerable properties an object spread [...v] copies. *)
Definition own_enumerable (v : value) : list (jsstring * value) :=
  match v with
  | VObj props => props
  | VArr items => indexed (fun x => x) 0 items
  | VStr s => indexed (fun c => VStr [c]) 0 s
  | _ => []
  end.

(** [{...a, ...b}] *)
Definition spread (base : list (jsstring * value)) (v : value)
  : list (jsstring * value) :=
  fold_left (fun acc kv => obj_set acc (fst kv) (snd kv)) (own_enumerable v) base.

(** ** String built-ins *)

(** White space and line terminators of [String.prototype.trim]. *)
Definition is_space (c : ascii) : bool :=
  let n := nat_of_ascii c in
  ((9 <=? n) && (n <=? 13)) || (n =? 32) || (n =? 160).

Fixpoint trimStart (s : jsstring) : jsstring :=
  match s with
  | [] => []
  | c :: rest => if is_space c then trimStart rest else s
  end.

Definition trimEnd (s : jsstring) : jsstring := rev (trimStart (rev s)).

Definition trim (s : jsstring) : jsstring := trimEnd (trimStart s).

Fixpoint startsWith (pat s : jsstring) : bool :=
  match pat, s with
  | [], _ => true
  | p :: pat', c :: s' => (p =? c)%char && startsWith pat' s'
  | _ :: _, [] => false
  end.

Definition endsWith (s : jsstring) (c : ascii) : bool :=
  match rev s with
  | x :: _ => (x =? c)%char
  | [] => false
  end.

(** [s.includes(pat)] *)
Fixpoint includes (s pat : jsstring) : bool :=
  startsWith pat s ||
  match s with
  | [] => false
  | _ :: rest => includes rest pat
  end.

(** [parts.join(sep)] *)
Fixpoint join (sep : jsstring) (l : list jsstring) : jsstring :=
  match l with
  | [] => []
  | [x] => x
  | x :: rest => x ++ sep ++ join sep rest
  end.

(** [s.indexOf(c)]: the first position of [c], or -1. *)
Fixpoint indexOf_from (c : ascii) (s : jsstring) (i : Z) : Z :=
  match s with
  | [] => (-1)%Z
  | x :: rest => if (x =? c)%char then i else indexOf_from c rest (i + 1)%Z
  end.

Definition indexOf (s : jsstring) (c : ascii) : Z := indexOf_from c s 0%Z.

(** [s.substring(start)] for [0 <= start]. *)
Definition substring (s : jsstring) (start : Z) : jsstring :=
  skipn (Z.to_nat start) s.

(** [s.slice(0, -1)] *)
Definition slice_0_m1 (s : jsstring) : jsstring := removelast s.

(** [s.replace(/pat/g, '')] for a literal, non-empty [pat]: the matches are
    found left to right and do not overlap.  [skip] counts the characters
    of the current match still to be dropped. *)
Fixpoint remove_matches (pat : jsstring) (skip : nat) (s : jsstring) : jsstring :=
  match s with
  | [] => []
  | c :: rest =>
      match skip with
      | S k => remove_matches pat k rest
      | O =>
          if startsWith pat s
          then remove_matches pat (length pat - 1) rest
          else c :: remove_matches pat 0 rest
      end
  end.

Definition replaceAll (s pat : jsstring) : jsstring := remove_matches pat 0 s.

(* ------------------------------------------------------------------- *)
(** ** JSON.parse *)

Definition is_json_ws (c : ascii) : bool :=
  let n := nat_of_ascii c in
  (n =? 9) || (n =? 10) || (n =? 13) || (n =? 32).

Fixpoint skip_ws (s : jsstring) : jsstring :=
  match s with
  | [] => []
  | c :: rest => if is_json_ws c then skip_ws rest else s
  end.

Definition is_digit (c : ascii) : bool :=
  let n := nat_of_ascii c in (48 <=? n) && (n <=? 57).

Definition digit_val (c : ascii) : Z := Z.of_nat (nat_of_ascii c - 48).

Fixpoint take_digits (s : jsstring) : jsstring * jsstring :=
  match s with
  | [] => ([], [])
  | c :: rest =>
      if is_digit c
      then let (ds, r) := take_digits rest in (c :: ds, r)
      else ([], s)
  end.

Definition digits_val (ds : jsstring) : Z :=
  fold_left (fun acc c => (acc * 10 + digit_val c)%Z) ds 0%Z.

Definition hex_val (c : ascii) : option nat :=
  let n := nat_of_ascii c in
  if (48 <=? n) && (n <=? 57) then Some (n - 48)
  else if (65 <=? n) && (n <=? 70) then Some (n - 55)
  else if (97 <=? n) && (n <=? 102) then Some (n - 87)
  else None.

(** The integer part of a JSON number: [0] or a digit run with no
    leading zero. *)
Definition parse_int_part (s : jsstring) : option (Z * jsstring) :=
  match take_digits s with
  | ([], _) => None
  | (d :: ds, r) =>
      if (d =? "0")%char
      then match ds with [] => Some (0%Z, r) | _ => None end
      else Some (digits_val (d :: ds), r)
  end.

(** The optional fraction: mantissa and exponent after reading it. *)
Definition parse_frac (m : Z) (s : jsstring) : option (Z * Z * jsstring) :=
  match s with
  | c :: rest =>
      if (c =? ".")%char then
        match take_digits rest with
        | ([], _) => None
        | (ds, r) =>
            let k := Z.of_nat (length ds) in
            Some ((m * 10 ^ k + digits_val ds)%Z, (- k)%Z, r)
        end
      else Some (m, 0%Z, s)
  | [] => Some (m, 0%Z, s)
  end.

Definition parse_exp (s : jsstring) : option (Z * jsstring) :=
  match s with
  | c :: rest =>
      if (c =? "e")%char || (c =? "E")%char then
        let (sign, rest') :=
          match rest with
          | x :: r =>
              if (x =? "-")%char then ((-1)%Z, r)
              else if (x =? "+")%char then (1%Z, r)
              else (1%Z, rest)
          | [] => (1%Z, rest)
          end in
        match take_digits rest' with
        | ([], _) => None
        | (ds, r) => Some ((sign * digits_val ds)%Z, r)
        end
      else Some (0%Z, s)
  | [] => Some (0%Z, s)
  end.

Definition parse_number (s : jsstring) : option (value * jsstring) :=
  let (sign, s1) :=
    match s with
    | c :: rest => if (c =? "-")%char then ((-1)%Z, rest) else (1%Z, s)
    | [] => (1%Z, s)
    end in
  match parse_int_part s1 with
  | None => None
  | Some (i, s2) =>
      match parse_frac i s2 with
      | None => None
      | Some (m, e1, s3) =>
          match parse_exp s3 with
          | None => None
          | Some (e2, s4) => Some (VNum (sign * m) (e1 + e2), s4)
          end
      end
  end.

(** The characters of a JSON string after its opening quote, up to and
    including the closing quote. *)
Fixpoint parse_string_body (s : jsstring) : option (jsstring * jsstring) :=
  match s with
  | [] => None
  | c :: rest =>
      if (c =? DQUOTE)%char then Some ([], rest)
      else if (c =? BACKSLASH)%char then
        match rest with
        | [] => None
        | x :: rest' =>
            let simple (d : ascii) :=
              match parse_string_body rest' with
              | Some (body, r) => Some (d :: body, r)
              | None => None
              end in
            if (x =? DQUOTE)%char then simple DQUOTE
            else if (x =? BACKSLASH)%char then simple BACKSLASH
            else if (x =? "/")%char then simple "/"%char
            else if (x =? "b")%char then simple "008"%char
            else if (x =? "f")%char then simple "012"%char
            else if (x =? "n")%char then simple "010"%char
            else if (x =? "r")%char then simple "013"%char
            else if (x =? "t")%char then simple "009"%char
            else if (x =? "u")%char then
              match rest' with
              | h1 :: h2 :: h3 :: h4 :: rest'' =>
                  match hex_val h1, hex_val h2, hex_val h3, hex_val h4 with
                  | Some a, Some b, Some c', Some d =>
                      let n := ((a * 16 + b) * 16 + c') * 16 + d in
                      if n <? 256 then
                        match parse_string_body rest'' with
                        | Some (body, r) => Some (ascii_of_nat n :: body, r)
                        | None => None
                        end
                      else None
                  | _, _, _, _ => None
                  end
              | _ => None
              end
            else None
        end
      else if nat_of_ascii c <? 32 then None
      else
        match parse_string_body rest with
        | Some (body, r) => Some (c :: body, r)
        | None => None
        end
  end.

Definition expect_word (w : jsstring) (v : value) (s : jsstring)
  : option (value * jsstring) :=
  if startsWith w s then Some (v, skipn (length w) s) else None.

(** A value that is not a container: a string, a literal name or a
    number, from its first character [c]. *)
Definition parse_scalar (c : ascii) (rest : jsstring) : option (value * jsstring) :=
  if (c =? DQUOTE)%char then
    match parse_string_body rest with
    | Some (body, r) => Some (VStr body, r)
    | None => None
    end
  else if (c =? "t")%char then expect_word (str "true") (VBool true) (c :: rest)
  else if (c =? "f")%char then expect_word (str "false") (VBool false) (c :: rest)
  else if (c =? "n")%char then expect_word (str "null") VNull (c :: rest)
  else parse_number (c :: rest).

(** A recursive-descent reader.  Every call that goes one level down or
    one member to the right spends one unit of [fuel]; a text of [n]
    characters needs less than [2 * n] (see [JSON_parse_any_fuel]). *)
Fixpoint parse_value (fuel : nat) (s : jsstring) {struct fuel}
  : option (value * jsstring) :=
  match fuel with
  | O => None
  | S fuel' =>
      match skip_ws s with
      | [] => None
      | c :: rest =>
          if (c =? "{")%char then
            match skip_ws rest with
            | x :: rest' =>
                if (x =? "}")%char then Some (VObj [], rest')
                else parse_members fuel' rest []
            | [] => None
            end
          else if (c =? "[")%char then
            match skip_ws rest with
            | x :: rest' =>
                if (x =? "]")%char then Some (VArr [], rest')
                else parse_elements fuel' rest []
            | [] => None
            end
          else parse_scalar c rest
      end
  end

with parse_elements (fuel : nat) (s : jsstring) (acc : list value) {struct fuel}
  : option (value * jsstring) :=
  match fuel with
  | O => None
  | S fuel' =>
      match parse_value fuel' s with
      | None => None
      | Some (v, r) =>
          match skip_ws r with
          | c :: rest =>
              if (c =? ",")%char then parse_elements fuel' rest (acc ++ [v])
              else if (c =? "]")%char then Some (VArr (acc ++ [v]), rest)
              else None
          | [] => None
          end
      end
  end

with parse_members (fuel : nat) (s : jsstring) (acc : list (jsstring * value))
  {struct fuel} : option (value * jsstring) :=
  match fuel with
  | O => None
  | S fuel' =>
      match skip_ws s with
      | q :: rest =>
          if (q =? DQUOTE)%char then
            match parse_string_body rest with
            | None => None
            | Some (key, r) =>
                match skip_ws r with
                | colon :: r' =>
                    if (colon =? ":")%char then
                      match parse_value fuel' r' with
                      | None => None
                      | Some (v, r'') =>
                          match skip_ws r'' with
                          | c :: rest' =>
                              if (c =? ",")%char
                              then parse_members fuel' rest' (obj_set acc key v)
                              else if (c =? "}")%char
                              then Some (VObj (obj_set acc key v), rest')
                              else None
                          | [] => None
                          end
                      end
                    else None
                | [] => None
                end
            end
          else None
      | [] => None
      end
  end.

(** [JSON.parse(text)]: one value, then nothing but white space.  [None]
    stands for the SyntaxError. *)
Definition JSON_parse (text : jsstring) : option value :=
  match parse_value (2 * length text + 2) text with
  | Some (v, r) => match skip_ws r with [] => Some v | _ => None end
  | None => None
  end.

End Js.

Import Js.

(* ===================================================================== *)
(** * Effects: state that survives a throw                                *)
(* ===================================================================== *)

(** An asynchronous function of the program is a state transformer that
    ends with a value or with a thrown error.  The state reached when the
    error is thrown is kept: nothing is rolled back. *)
Module Eff.

Section Monad.

Variable St : Type.

Definition M (A : Type) : Type := St -> Result A * St.

Definition ret {A : Type} (a : A) : M A := fun s => (Ok a, s).

Definition bind {A B : Type} (m : M A) (k : A -> M B) : M B :=
  fun s =>
    match m s with
    | (Ok a, s') => k a s'
    | (Throw e, s') => (Throw e, s')
    end.

Definition throw {A : Type} (e : exn) : M A := fun s => (Throw e, s).

(** [try { body } catch (e) { handler(e) }] *)
Definition try_catch {A : Type} (body : M A) (handler : exn -> M A) : M A :=
  fun s =>
    match body s with
    | (Ok a, s') => (Ok a, s')
    | (Throw e, s') => handler e s'
    end.

(** [try { body } finally { fin }] for a [fin] that does not throw. *)
Definition try_finally {A : Type} (body : M A) (fin : St -> St) : M A :=
  fun s => let (r, s') := body s in (r, fin s').

Definition modify (f : St -> St) : M unit := fun s => (Ok tt, f s).

Definition lift {A : Type} (r : Result A) : M A := fun s => (r, s).

End Monad.

Arguments ret {St A} a.
Arguments bind {St A B} m k.
Arguments throw {St A} e.
Arguments try_catch {St A} body handler.
Arguments try_finally {St A} body fin.
Arguments modify {St} f.
Arguments lift {St A} r.

Declare Scope eff_scope.
Delimit Scope eff_scope with eff.

Notation "x <- m ;; k" := (bind m (fun x => k))
  (at level 61, m at next level, right associativity) : eff_scope.
Notation "m ;; k" := (bind m (fun _ => k))
  (at level 61, right associativity) : eff_scope.

End Eff.

Import Eff.
Local Open Scope eff_scope.

(* ===================================================================== *)
(** * services/geminiService.ts                                          *)
(* ===================================================================== *)

Module GeminiService.

(** ** repairJSON *)

(** The test of both loops: the character at [i] is a double quote, and
    [i === 0] or the character at [i - 1] is not a backslash. *)
Definition quoteAt (repaired : jsstring) (i : nat) : bool :=
  match nth_error repaired i with
  | Some c =>
      (c =? DQUOTE)%char &&
      ((i =? 0) ||
       match nth_error repaired (i - 1) with
       | Some p => negb (p =? BACKSLASH)%char
       | None => true
       end)
  | None => false
  end.

(** The first loop: [quoteCount] after [for (i = 0; i < repaired.length; i++)]. *)
Definition quoteCount (repaired : jsstring) : nat :=
  fold_left (fun count i => if quoteAt repaired i then S count else count)
            (seq 0 (length repaired)) 0.

(** The state of the second loop: [insideString] and [stack].  The stack
    is the JavaScript array, bottom first: [push] adds at the end and
    [stack[stack.length - 1]] is the last element. *)
Definition scanState : Type := bool * list ascii.

Definition stack_top (stack : list ascii) : option ascii :=
  match rev stack with
  | c :: _ => Some c
  | [] => None
  end.

Definition scanStep (repaired : jsstring) (st : scanState) (i : nat) : scanState :=
  let (insideString, stack) := st in
  match nth_error repaired i with
  | None => st
  | Some char =>
      if quoteAt repaired i then (negb insideString, stack)
      else if negb insideString then
        if (char =? "{")%char then (insideString, stack ++ ["}"%char])
        else if (char =? "[")%char then (insideString, stack ++ ["]"%char])
        else if (char =? "}")%char || (char =? "]")%char then
          match stack_top stack with
          | Some top =>
              if (top =? char)%char then (insideString, removelast stack)
              else st
          | None => st
          end
        else st
      else st
  end.

Definition scan (repaired : jsstring) : scanState :=
  fold_left (scanStep repaired) (seq 0 (length repaired)) (false, []).

(** [while (stack.length > 0) repaired += stack.pop()]: one turn of the
    loop for each element of the stack. *)
Fixpoint appendMissingClosers (turns : nat) (stack : list ascii) (repaired : jsstring)
  : jsstring :=
  match turns with
  | O => repaired
  | S turns' =>
      match stack_top stack with
      | Some closer => appendMissingClosers turns' (removelast stack) (repaired ++ [closer])
      | None => repaired
      end
  end.

Definition repairJSON (jsonString : jsstring) : jsstring :=
  let repaired := trim jsonString in
  (* 1. dangling comma *)
  let repaired :=
    if endsWith repaired ","%char then slice_0_m1 repaired else repaired in
  (* 2. unclosed string *)
  let repaired :=
    if Nat.eqb (quoteCount repaired mod 2) 0 then repaired
    else repaired ++ [DQUOTE] in
  (* 3. balance with a stack *)
  let stack := snd (scan repaired) in
  appendMissingClosers (length stack) stack repaired.

(** ** cleanAndParseJSON *)

Definition FENCE_JSON : jsstring := str "```json".
Definition FENCE : jsstring := str "```".

Section Sanitizer.

(** The JSON reader called at the two [JSON.parse] sites. *)
Variable parse : jsstring -> option value.

Definition cleanAndParseJSON_using (text : jsstring) : Result value :=
  match text with
  | [] => Ok (VObj [])                          (* if (!text) return {} *)
  | _ =>
      let cleanText := trim (replaceAll (replaceAll text FENCE_JSON) FENCE) in
      let firstCurly := indexOf cleanText "{"%char in
      let firstSquare := indexOf cleanText "["%char in
      let start :=
        if negb (firstCurly =? -1)%Z &&
           ((firstSquare =? -1)%Z || (firstCurly <? firstSquare)%Z)
        then firstCurly
        else if negb (firstSquare =? -1)%Z then firstSquare
        else (-1)%Z in
      let cleanText :=
        if negb (start =? -1)%Z then substring cleanText start else cleanText in
      match parse cleanText with
      | Some v => Ok v
      | None =>
          match parse (repairJSON cleanText) with
          | Some v => Ok v
          | None =>
              Throw (Error (str "JSON Parse Failed: " ++ message SyntaxError))
          end
      end
  end.

End Sanitizer.

Definition cleanAndParseJSON : jsstring -> Result value :=
  cleanAndParseJSON_using JSON_parse.

(** ** sanitizeDealData *)

Definition emptySection (title : string) : value :=
  VObj [(str "title", VStr (str title)); (str "rows", VArr [])].

Definition defaultMemo : list (jsstring * value) :=
  [ (str "executiveSummary", VStr (str "Pending generation..."));
    (str "investmentRecommendation", VStr (str "HOLD"));
    (str "recommendationRationale", VStr (str "Insufficient data for recommendation."));
    (str "dealMerits", VArr []);
    (str "investmentThesis", VArr []);
    (str "keyRisks", VArr []);
    (str "riskMitigation", VStr (str "N/A"));
    (str "marketOverview", VStr (str "N/A"));
    (str "competitiveLandscape", VStr (str "N/A"));
    (str "customerAnalysis", VStr (str "N/A"));
    (str "operationalUpside", VStr (str "N/A")) ].

Definition defaultFinancialModels : value :=
  VObj [ (str "years", VArr [VStr (str "LTM")]);
         (str "incomeStatement", emptySection "Income Statement");
         (str "balanceSheet", emptySection "Balance Sheet");
         (str "cashFlow", emptySection "Cash Flow") ].

Definition defaultLboModel : value :=
  VObj [ (str "entryMultiple", VInt 0);
         (str "exitMultiple", VInt 0);
         (str "irr", VInt 0);
         (str "moic", VInt 0);
         (str "debttoEquity", VInt 0) ].

Definition defaultLboDetailed : value :=
  VObj [ (str "assumptions", VArr []);
         (str "sources", VArr []);
         (str "uses", VArr []);
         (str "debtSchedule", emptySection "Debt Schedule");
         (str "projectedReturns", emptySection "Returns") ].

Notation "a '.[' k ']'" := (prop a (str k)) (at level 1, format "a .[ k ]").
Notation "a '|||' b" := (or_else a b) (at level 50, left associativity).

Definition sanitizeDealData (data : value) (companyName : jsstring) : Result value :=
  if nullish data then Throw TypeError       (* data.companyName on null *)
  else Ok (VObj
    [ (str "companyName",
         data.["companyName"] ||| VStr companyName ||| VStr (str "Target Company"));
      (str "sector", data.["sector"] ||| VStr (str "Unknown Sector"));
      (str "location", data.["location"] ||| VStr (str "N/A"));
      (str "ebitda", data.["ebitda"] ||| VInt 0);
      (str "revenue", data.["revenue"] ||| VInt 0);
      (str "askingMultiple", data.["askingMultiple"] ||| VInt 0);
      (str "impliedValue", data.["impliedValue"] ||| VInt 0);
      (str "financialModels", data.["financialModels"] ||| defaultFinancialModels);
      (str "lboModel", data.["lboModel"] ||| defaultLboModel);
      (str "lboDetailed", data.["lboDetailed"] ||| defaultLboDetailed);
      (str "memo", VObj (spread defaultMemo (data.["memo"] ||| VObj [])));
      (str "sensitivityAnalysis", data.["sensitivityAnalysis"] ||| VArr []);
      (str "comparables", data.["comparables"] ||| VArr []);
      (str "candidatesAnalyzed", data.["candidatesAnalyzed"] ||| VArr []);
      (str "groundingUrls", data.["groundingUrls"] ||| VArr []);
      (str "deliverables", data.["deliverables"] ||| VArr []) ]).


(** ** The model API *)

Record ImageConfig : Type := {
  aspectRatio : jsstring;
  imageSize : option jsstring
}.

(** One [ai.models.generateContent] request. *)
Record Request : Type := {
  model : jsstring;
  contents : jsstring;
  imageConfig : option ImageConfig
}.

Record Part : Type := {
  inlineData : option jsstring        (* part.inlineData.data, when present *)
}.

(** The two things read from a response: [response.text], and
    [response.candidates?.[0]?.content?.parts || []]. *)
Record Response : Type := {
  text : option jsstring;
  parts : list Part
}.

Record PortfolioCompany : Type := {
  pc_name : jsstring;
  pc_sector : jsstring;
  pc_ebitda : jsstring                (* the number as the template prints it *)
}.

Section Api.

(** The hosted model: fallible, and opaque.  The state of this section's
    functions is the list of requests sent so far. *)
Variable generateContent : Request -> Result Response.

Definition call (req : Request) : M (list Request) Response :=
  fun sent => (generateContent req, sent ++ [req]).

(** [getClient()], that is [new GoogleGenAI({ apiKey: process.env.API_KEY })]:
    the constructor throws when it cannot build a client, as it does
    without an API key. *)
Variable getClient : Result unit.

(** [for (const part of parts) if (part.inlineData) return `data:...`] *)
Fixpoint firstInlineImage (ps : list Part) : option jsstring :=
  match ps with
  | [] => None
  | p :: rest =>
      match inlineData p with
      | Some data => Some (str "data:image/png;base64," ++ data)
      | None => firstInlineImage rest
      end
  end.

Definition PRIMARY_IMAGE_MODEL : jsstring := str "gemini-3-pro-image-preview".
Definition FALLBACK_IMAGE_MODEL : jsstring := str "gemini-2.5-flash-image".

Definition quotaClass (msg : jsstring) : bool :=
  includes msg (str "403") || includes msg (str "PERMISSION_DENIED")
  || includes msg (str "Quota").

(** The request [generateWithModel(model, useAdvancedConfig)] sends:
    [imageSize] is set only with the advanced configuration. *)
Definition imageRequest (partsText aspect : jsstring) (model : jsstring)
           (useAdvancedConfig : bool) : Request :=
  {| model := model;
     contents := partsText;
     imageConfig := Some {| aspectRatio := aspect;
                            imageSize := if useAdvancedConfig
                                         then Some (str "1K") else None |} |}.

Definition logoPrompt (prompt : jsstring) : jsstring :=
  str "A professional, modern, corporate logo for: " ++ prompt ++
  str ". Minimalist, high fidelity, 4k, white on dark background. Brand palette: Black and Gold.".

(** [const ai = getClient()] is the first statement, before the [try]. *)
Definition generateConceptImage (prompt : jsstring) : M (list Request) (option jsstring) :=
  lift getClient ;;
  let generateWithModel (model : jsstring) (useAdvancedConfig : bool) :=
    call (imageRequest (logoPrompt prompt) (str "1:1") model useAdvancedConfig) in
  try_catch
    (response <- generateWithModel PRIMARY_IMAGE_MODEL true ;;
     ret (firstInlineImage (parts response)))
    (fun error =>
       if quotaClass (message error) then
         try_catch
           (fallbackResponse <- generateWithModel FALLBACK_IMAGE_MODEL false ;;
            ret (firstInlineImage (parts fallbackResponse)))
           (fun fallbackError => ret None)
       else ret None).

(** The slide prompt: the role and style lines are fixed text, shortened
    here. *)
Definition slidePrompt (companyName slideTitle visualDirective : jsstring) : jsstring :=
  str "ROLE: Expert Presentation Designer for DiDi AI. Subject: " ++ companyName
  ++ str " - " ++ slideTitle ++ str " Visual Instructions: " ++ visualDirective
  ++ str " STYLE: Brand: DiDi AI (Black, Gold, White).".

(** Here too [const ai = getClient()] comes first, before the [try]. *)
Definition generateSlideDesign (slideTitle visualDirective companyName : jsstring)
  : M (list Request) (option jsstring) :=
  lift getClient ;;
  let generateWithModel (model : jsstring) (useAdvancedConfig : bool) :=
    call (imageRequest (slidePrompt companyName slideTitle visualDirective)
                       (str "16:9") model useAdvancedConfig) in
  try_catch
    (response <- generateWithModel PRIMARY_IMAGE_MODEL true ;;
     ret (firstInlineImage (parts response)))
    (fun e =>
       if quotaClass (message e) then
         try_catch
           (fallbackResponse <- generateWithModel FALLBACK_IMAGE_MODEL false ;;
            ret (firstInlineImage (parts fallbackResponse)))
           (fun fallbackError => ret None)
       else ret None).

Definition contextPrompt (portfolioContext : list PortfolioCompany) : jsstring :=
  match portfolioContext with
  | [] => []
  | _ =>
      let similarPortcos :=
        map (fun p => pc_name p ++ str " (" ++ pc_sector p ++ str ", "
                      ++ pc_ebitda p ++ str "M EBITDA)")
            (firstn 3 portfolioContext) in
      [NEWLINE] ++ str "CONTEXT - PORTFOLIO BENCHMARKS: "
      ++ join (str ", ") similarPortcos ++ str "."
  end.

(** The modelling instructions that close the structuring prompt; fixed
    text, shortened here. *)
Definition MODELING_INSTRUCTIONS : jsstring :=
  str "INTELLIGENT MODELING INSTRUCTIONS: 1. FILL THE GAPS 2. DO NOT RETURN ZEROS 3. 3-Statement Model 4. LBO Model 5. Investment Memo".

Definition generateDealStructure (companyName rawData : jsstring)
           (candidates : list jsstring) (portfolioContext : list PortfolioCompany)
  : M (list Request) value :=
  try_catch
    (lift getClient ;;                      (* const ai = getClient() *)
     response <-
       call {| model := str "gemini-3-pro-preview";
               contents :=
                 json "Create a detailed DiDi AI deal package for '" ++ companyName
                 ++ json "' based on: " ++ rawData ++ [NEWLINE]
                 ++ contextPrompt portfolioContext ++ [NEWLINE]
                 ++ MODELING_INSTRUCTIONS;
               imageConfig := None |} ;;
     rawJSON <- lift (cleanAndParseJSON
                        match text response with   (* response.text || braces *)
                        | Some (c :: t) => c :: t
                        | _ => str "{}"
                        end) ;;
     data <- lift (sanitizeDealData rawJSON companyName) ;;
     let data := set_prop data (str "candidatesAnalyzed") (VArr (map VStr candidates)) in
     ret data)
    (fun error =>
       throw (Error (str "Structure Generation Failed: " ++ message error))).

End Api.

End GeminiService.

Import GeminiService.

(* ===================================================================== *)
(** * App.tsx: state, step runner, orchestration                         *)
(* ===================================================================== *)

Module App.

Inductive AgentRole : Type :=
| MD | VP | ASSOCIATE | SCOUT | COMPS | DILIGENCE | DESIGN.

Inductive AgentStatus : Type :=
| IDLE | THINKING | WORKING | COMPLETED | ERROR.

Definition role_eqb (a b : AgentRole) : bool :=
  match a, b with
  | MD, MD | VP, VP | ASSOCIATE, ASSOCIATE | SCOUT, SCOUT
  | COMPS, COMPS | DILIGENCE, DILIGENCE | DESIGN, DESIGN => true
  | _, _ => false
  end.

Record Agent : Type := {
  agent_id : jsstring;
  role : AgentRole;
  name : jsstring;
  status : AgentStatus;
  currentTask : option jsstring;
  description : jsstring
}.

(** [Partial<Agent>] as the program builds it: a status, a task, or both. *)
Record AgentUpdate : Type := {
  upd_status : option AgentStatus;
  upd_currentTask : option jsstring
}.

(** [{ ...a, ...updates }] *)
Definition applyUpdate (a : Agent) (u : AgentUpdate) : Agent :=
  {| agent_id := agent_id a;
     role := role a;
     name := name a;
     status := match upd_status u with Some st => st | None => status a end;
     currentTask := match upd_currentTask u with
                    | Some t => Some t
                    | None => currentTask a
                    end;
     description := description a |}.

Definition mkAgent (id : string) (r : AgentRole) (n d : string) : Agent :=
  {| agent_id := str id; role := r; name := str n; status := IDLE;
     currentTask := None; description := str d |}.

Definition INITIAL_AGENTS : list Agent :=
  [ mkAgent "1" MD "Athena (MD)" "Strategy & Risk";
    mkAgent "2" VP "Marcus (VP)" "Orchestration";
    mkAgent "3" ASSOCIATE "Ken (Associate)" "Modeling";
    mkAgent "4" SCOUT "Scout-Alpha" "Data Mining";
    mkAgent "5" DILIGENCE "Sarah (Diligence)" "Doc Analysis";
    mkAgent "6" COMPS "Comps-Beta" "Market Multiples";
    mkAgent "7" DESIGN "Sienna (Design)" "Visual Assets" ].

Record AppError : Type := {
  err_message : jsstring;
  err_stack : option jsstring;
  err_context : jsstring
}.

(** A latency is either the elapsed time the runner measured or a number
    written in the source; the wall clock is outside the model, and so are
    the [id] and [timestamp] of log entries and messages. *)
Inductive Latency : Type :=
| Measured
| Fixed (ms : Z).

Record LogEntry : Type := {
  log_traceId : jsstring;
  log_agentName : jsstring;
  log_role : AgentRole;
  log_message : jsstring;
  log_status : AgentStatus;
  log_latency : option Latency;
  log_errorDetails : option AppError
}.

Inductive MessageRole : Type := RoleUser | RoleModel | RoleSystem.

Record FileAttachment : Type := {
  file_name : jsstring;
  file_type : jsstring;
  file_data : jsstring
}.

Record Message : Type := {
  msg_dealId : option jsstring;
  msg_role : MessageRole;
  msg_content : jsstring;
  msg_sender : option jsstring;
  msg_attachments : list jsstring;           (* image urls *)
  msg_inputAttachments : list FileAttachment;
  msg_suggestedActions : list jsstring
}.

Inductive DealStage : Type :=
| Sourcing | Screening | Diligence | ICReview | Closed | Passed.

Record DealRoom : Type := {
  deal_id : jsstring;
  deal_title : value;
  deal_stage : DealStage;
  deal_tags : list jsstring;
  deal_priority : jsstring;
  deal_data : value
}.

(** The services of geminiService.ts, as the orchestration names them. *)
Inductive Service : Type :=
| SvcStrategy | SvcScout | SvcSelect | SvcDeepDive | SvcStructure
| SvcLocation | SvcImage | SvcOpinion | SvcAnalyze.

(** The React state of [App], with the services started so far. *)
Record AppState : Type := {
  agents : list Agent;
  logs : list LogEntry;
  messages : list Message;
  deals : list DealRoom;
  activeDealId : option jsstring;
  isProcessing : bool;
  activeEdge : option jsstring;
  started : list Service
}.

Definition setAgents (f : list Agent -> list Agent) (s : AppState) : AppState :=
  {| agents := f (agents s); logs := logs s; messages := messages s;
     deals := deals s; activeDealId := activeDealId s;
     isProcessing := isProcessing s; activeEdge := activeEdge s;
     started := started s |}.

Definition setLogs (f : list LogEntry -> list LogEntry) (s : AppState) : AppState :=
  {| agents := agents s; logs := f (logs s); messages := messages s;
     deals := deals s; activeDealId := activeDealId s;
     isProcessing := isProcessing s; activeEdge := activeEdge s;
     started := started s |}.

Definition setMessages (f : list Message -> list Message) (s : AppState) : AppState :=
  {| agents := agents s; logs := logs s; messages := f (messages s);
     deals := deals s; activeDealId := activeDealId s;
     isProcessing := isProcessing s; activeEdge := activeEdge s;
     started := started s |}.

Definition setDeals (f : list DealRoom -> list DealRoom) (s : AppState) : AppState :=
  {| agents := agents s; logs := logs s; messages := messages s;
     deals := f (deals s); activeDealId := activeDealId s;
     isProcessing := isProcessing s; activeEdge := activeEdge s;
     started := started s |}.

Definition setActiveDealId (v : option jsstring) (s : AppState) : AppState :=
  {| agents := agents s; logs := logs s; messages := messages s;
     deals := deals s; activeDealId := v;
     isProcessing := isProcessing s; activeEdge := activeEdge s;
     started := started s |}.

Definition setIsProcessing (v : bool) (s : AppState) : AppState :=
  {| agents := agents s; logs := logs s; messages := messages s;
     deals := deals s; activeDealId := activeDealId s;
     isProcessing := v; activeEdge := activeEdge s;
     started := started s |}.

Definition setActiveEdge (v : option jsstring) (s : AppState) : AppState :=
  {| agents := agents s; logs := logs s; messages := messages s;
     deals := deals s; activeDealId := activeDealId s;
     isProcessing := isProcessing s; activeEdge := v;
     started := started s |}.

Definition noteStarted (svc : Service) (s : AppState) : AppState :=
  {| agents := agents s; logs := logs s; messages := messages s;
     deals := deals s; activeDealId := activeDealId s;
     isProcessing := isProcessing s; activeEdge := activeEdge s;
     started := started s ++ [svc] |}.

Definition updateAgent (r : AgentRole) (updates : AgentUpdate) : M AppState unit :=
  modify (setAgents (map (fun a => if role_eqb (role a) r
                                   then applyUpdate a updates else a))).

Definition updateAllAgents (updates : AgentUpdate) : M AppState unit :=
  modify (setAgents (map (fun a => applyUpdate a updates))).

Definition agentNameOf (r : AgentRole) : jsstring :=
  match find (fun a => role_eqb (role a) r) INITIAL_AGENTS with
  | Some a => name a
  | None => str "Unknown"
  end.

Section Run.

(** [error.stack], as the engine filled it in. *)
Variable stack_of : exn -> option jsstring.

Definition completedEntry (agentRole : AgentRole) (description traceId : jsstring)
  : LogEntry :=
  {| log_traceId := traceId;
     log_agentName := agentNameOf agentRole;
     log_role := agentRole;
     log_message := description ++ str " - Completed";
     log_status := COMPLETED;
     log_latency := Some Measured;
     log_errorDetails := None |}.

Definition errorEntry (agentRole : AgentRole) (description traceId : jsstring)
           (error : exn) : LogEntry :=
  {| log_traceId := traceId;
     log_agentName := agentNameOf agentRole;
     log_role := agentRole;
     log_message := str "FAILED: " ++ description;
     log_status := ERROR;
     log_latency := Some Measured;
     log_errorDetails :=
       Some {| err_message := message error;
               err_stack := stack_of error;
               err_context := description |} |}.

(** The part of [runStep] before [await fn()]. *)
Definition runStep_begin (agentRole : AgentRole) (description : jsstring)
  : M AppState unit :=
  updateAgent agentRole
    {| upd_status := Some WORKING; upd_currentTask := Some description |}.

(** The [try]/[catch] of [runStep] around [await fn()]. *)
Definition runStep_await {T : Type} (agentRole : AgentRole) (description : jsstring)
           (fn : M AppState T) (traceId : jsstring) : M AppState T :=
  try_catch
    (result <- fn ;;
     modify (setLogs (fun prev => prev ++ [completedEntry agentRole description traceId])) ;;
     updateAgent agentRole
       {| upd_status := Some IDLE; upd_currentTask := Some (str "Standby") |} ;;
     ret result)
    (fun error =>
       modify (setLogs (fun prev =>
                 prev ++ [errorEntry agentRole description traceId error])) ;;
       updateAgent agentRole
         {| upd_status := Some ERROR;
            upd_currentTask := Some (str "Error encountered") |} ;;
       throw error).

Definition runStep {T : Type} (agentRole : AgentRole) (description : jsstring)
           (fn : M AppState T) (traceId : jsstring) : M AppState T :=
  runStep_begin agentRole description ;;
  runStep_await agentRole description fn traceId.

End Run.

(** ** handleUserMessage *)

Record DeepDive : Type := {
  dd_text : jsstring;
  dd_sources : list jsstring          (* deepDiveData.sources || [] *)
}.

(** What the handler closes over: the values of the render that created
    it.  A setter called during the run does not change them. *)
Record Render : Type := {
  r_activeDealId : option jsstring;
  r_portfolio : list PortfolioCompany;
  r_mandate : jsstring                (* getFormattedMandate() *)
}.

Definition is_set (id : option jsstring) : bool :=
  match id with
  | Some (_ :: _) => true
  | _ => false
  end.

Section Orchestration.

Variable stack_of : exn -> option jsstring.

(** String conversion of a value inside a concatenation or a template,
    and [JSON.stringify]. *)
Variable js_String : value -> jsstring.
Variable JSON_stringify : value -> jsstring.

(** The services, each the outcome of its promise. *)
Variable getMDStrategy : jsstring -> jsstring -> Result jsstring.
Variable scoutPotentialTargets : jsstring -> Result (list jsstring).
Variable selectBestTarget : list jsstring -> jsstring -> Result jsstring.
Variable performDeepDive : jsstring -> Result DeepDive.
Variable generateDealStructure :
  value -> jsstring -> list jsstring -> list PortfolioCompany -> Result value.
Variable verifyLocation : value -> Result (list jsstring).
Variable generateConceptImage : jsstring -> Result (option jsstring).
Variable getMDFinalOpinion : value -> jsstring -> jsstring -> Result jsstring.
Variable analyzeDocument : list FileAttachment -> jsstring -> Result value.

(** [Date.now().toString()] when a deal room is created, and the trace id
    drawn for the run. *)
Variable Date_now : jsstring.
Variable traceId : jsstring.

Variable rendered : Render.

Definition invoke {A : Type} (svc : Service) (outcome : Result A) : M AppState A :=
  fun s => (outcome, noteStarted svc s).

Definition addMessage (r : MessageRole) (content : jsstring) (sender : option jsstring)
           (attachments : list jsstring) (inputAttachments : list FileAttachment)
           (suggestedActions : list jsstring) : M AppState unit :=
  modify (setMessages (fun prev => prev ++
    [ {| msg_dealId := r_activeDealId rendered;
         msg_role := r;
         msg_content := content;
         msg_sender := sender;
         msg_attachments := attachments;
         msg_inputAttachments := inputAttachments;
         msg_suggestedActions := suggestedActions |} ])).

Definition updateActiveDeal (updates : value) (titleOverride : value)
  : M AppState unit :=
  match r_activeDealId rendered with
  | Some (c :: id) =>
      modify (setDeals (map (fun d =>
        if jsstring_eqb (deal_id d) (c :: id) then
          {| deal_id := deal_id d;
             deal_title := or_else titleOverride (deal_title d);
             deal_stage := deal_stage d;
             deal_tags := deal_tags d;
             deal_priority := deal_priority d;
             deal_data := VObj (spread (own_enumerable (deal_data d)) updates) |}
        else d)))
  | _ => ret tt                               (* if (!activeDealId) return *)
  end.

Definition placeholderData (title : jsstring) : value :=
  VObj [ (str "companyName", VStr title);
         (str "sector", VStr (str "TBD"));
         (str "ebitda", VInt 0);
         (str "revenue", VInt 0);
         (str "askingMultiple", VInt 0);
         (str "impliedValue", VInt 0);
         (str "lboModel", defaultLboModel);
         (str "memo", VObj
            [ (str "executiveSummary", VStr (str "Pending..."));
              (str "investmentRecommendation", VStr (str "HOLD"));
              (str "recommendationRationale", VStr (str "Data needed."));
              (str "dealMerits", VArr []);
              (str "investmentThesis", VArr []);
              (str "keyRisks", VArr []);
              (str "riskMitigation", VStr (str "N/A"));
              (str "marketOverview", VStr (str "N/A"));
              (str "competitiveLandscape", VStr (str "N/A"));
              (str "customerAnalysis", VStr (str "N/A"));
              (str "operationalUpside", VStr (str "N/A")) ]) ].

Definition newDealRoom (title : jsstring) : DealRoom :=
  {| deal_id := Date_now;
     deal_title := VStr title;
     deal_stage := Sourcing;
     deal_tags := [];
     deal_priority := str "Medium";
     deal_data := placeholderData title |}.

Definition createNewDealRoom (title : jsstring) : M AppState jsstring :=
  modify (setDeals (fun prev => prev ++ [newDealRoom title])) ;;
  ret Date_now.

Definition SYSTEM : option jsstring := Some (str "SYSTEM").
Definition ATHENA : option jsstring := Some (str "Athena (MD)").

Definition statusOnly (st : AgentStatus) : AgentUpdate :=
  {| upd_status := Some st; upd_currentTask := None |}.

Definition statusAndTask (st : AgentStatus) (task : jsstring) : AgentUpdate :=
  {| upd_status := Some st; upd_currentTask := Some task |}.

Definition plainEntry (agentName : string) (r : AgentRole) (msg : jsstring)
           (latency : option Latency) : LogEntry :=
  {| log_traceId := traceId; log_agentName := str agentName; log_role := r;
     log_message := msg; log_status := COMPLETED; log_latency := latency;
     log_errorDetails := None |}.

Definition documentAnalysisFlow (text : jsstring) (attachments : list FileAttachment)
  : M AppState unit :=
  dealContextId <-
    (if is_set (r_activeDealId rendered) then ret (r_activeDealId rendered)
     else
       addMessage RoleSystem
         (str "Starting new Diligence Room for document analysis...") SYSTEM [] [] [] ;;
       newId <- createNewDealRoom (str "New Deal (Pending Analysis)") ;;
       modify (setActiveDealId (Some newId)) ;;
       ret (Some newId)) ;;
  modify (setActiveEdge (Some (str "MD-DILIGENCE"))) ;;
  addMessage RoleSystem
    (str "Documents detected. Activating Diligence Agent for analysis...") SYSTEM [] [] [] ;;
  analysisResult <-
    runStep stack_of DILIGENCE (str "Analyzing & Extracting Data from Documents")
      (invoke SvcAnalyze (analyzeDocument attachments text)) traceId ;;
  modify (setActiveEdge (Some (str "DILIGENCE-ASSOCIATE"))) ;;
  structuredData <-
    runStep stack_of ASSOCIATE (str "Building Financial Model from Extracted Data")
      (companyName <- lift (get analysisResult (str "companyName")) ;;
       invoke SvcStructure
         (generateDealStructure (or_else companyName (VStr (str "Target")))
            (JSON_stringify analysisResult) [] (r_portfolio rendered))) traceId ;;
  updateActiveDeal (VObj (own_enumerable structuredData))
    (prop analysisResult (str "companyName")) ;;
  modify (setDeals (map (fun d =>
    if match dealContextId with
       | Some id => jsstring_eqb (deal_id d) id
       | None => false
       end
    then {| deal_id := deal_id d; deal_title := deal_title d;
            deal_stage := Diligence; deal_tags := deal_tags d;
            deal_priority := deal_priority d; deal_data := deal_data d |}
    else d))) ;;
  modify (setActiveEdge (Some (str "ASSOCIATE-MD"))) ;;
  updateAgent MD (statusAndTask THINKING (str "Reviewing Diligence Findings...")) ;;
  finalOpinion <-
    runStep stack_of MD (str "Formulating Investment Opinion")
      (invoke SvcOpinion
         (getMDFinalOpinion structuredData (r_mandate rendered)
            (match text with [] => str "Analyze this deal" | _ => text end))) traceId ;;
  addMessage RoleModel finalOpinion ATHENA [] []
    [str "Create Pitch Deck"; str "Generate One Pager"; str "Export LBO Model"].

Definition sourcingFlow (text : jsstring) : M AppState unit :=
  (if is_set (r_activeDealId rendered) then ret tt
   else
     newDealId <- createNewDealRoom (str "Sourcing Scan") ;;
     modify (setActiveDealId (Some newDealId))) ;;
  mdStrategy <-
    runStep stack_of MD (str "Analyzing Mandate & Strategy")
      (invoke SvcStrategy (getMDStrategy text (r_mandate rendered))) traceId ;;
  addMessage RoleModel mdStrategy ATHENA [] [] [] ;;
  updateAgent MD (statusOnly IDLE) ;;
  updateAgent VP (statusAndTask WORKING (str "Dispatching Scout Swarm...")) ;;
  modify (setActiveEdge (Some (str "MD-VP"))) ;;
  potentialTargets <-
    runStep stack_of SCOUT (str "Market Scan & Sourcing (Live Web)")
      (invoke SvcScout (scoutPotentialTargets mdStrategy)) traceId ;;
  modify (setActiveEdge (Some (str "VP-SCOUT"))) ;;
  (match potentialTargets with
   | [] => throw (Error (str "Scout returned 0 targets. Try refining your search criteria."))
   | _ => ret tt
   end) ;;
  let targetsListStr := join (str ", ") potentialTargets in
  modify (setLogs (fun prev => prev ++
    [plainEntry "Scout-Alpha" SCOUT (str "Identified candidates: " ++ targetsListStr) None])) ;;
  updateAgent VP (statusAndTask THINKING
    (str "Selecting best fit from: " ++ decimal (length potentialTargets)
     ++ str " candidates...")) ;;
  bestTarget <-
    runStep stack_of VP (str "Target Filtering & Selection")
      (invoke SvcSelect (selectBestTarget potentialTargets text)) traceId ;;
  modify (setActiveEdge (Some (str "VP-SCOUT"))) ;;
  (* the deep dive is started, the Comps agent is updated, then it is awaited *)
  let deepDiveTask :=
    str "Triangulated Deep Dive: " ++ bestTarget ++ str " (Financials/News/Benchmarks)" in
  runStep_begin SCOUT deepDiveTask ;;
  updateAgent COMPS (statusAndTask WORKING (str "Spreading Multiples...")) ;;
  deepDiveData <-
    runStep_await stack_of SCOUT deepDiveTask
      (invoke SvcDeepDive (performDeepDive bestTarget)) traceId ;;
  modify (setLogs (fun prev => prev ++
    [plainEntry "Comps-Beta" COMPS (str "Comparable Set Analysis (Simulated)")
                (Some (Fixed 150))])) ;;
  updateAgent COMPS (statusOnly IDLE) ;;
  modify (setActiveEdge (Some (str "VP-ASSOCIATE"))) ;;
  structuredData <-
    runStep stack_of ASSOCIATE
      (str "Constructing LBO & Financial Models (Gap Filling Active)")
      (invoke SvcStructure
         (generateDealStructure (VStr bestTarget) (dd_text deepDiveData)
            potentialTargets (r_portfolio rendered))) traceId ;;
  locationMaps <-
    (if truthy (prop structuredData (str "companyName")) then
       runStep stack_of SCOUT (str "HQ Location Verification")
         (invoke SvcLocation (verifyLocation (prop structuredData (str "companyName"))))
         traceId
     else ret []) ;;
  let structuredData :=
    set_prop structuredData (str "groundingUrls")
      (VArr (map VStr (dd_sources deepDiveData ++ locationMaps))) in
  let structuredData :=
    match locationMaps with
    | [] => structuredData
    | _ => set_prop structuredData (str "location")
             (VStr (str "HQ Verified via Google Maps"))
    end in
  updateActiveDeal structuredData (prop structuredData (str "companyName")) ;;
  imageAttachment <-
    (if truthy (prop structuredData (str "companyName")) then
       runStep stack_of VP (str "Generating Asset (Logo)")
         (invoke SvcImage
            (generateConceptImage
               (js_String (prop structuredData (str "companyName")) ++ str " "
                ++ js_String (prop structuredData (str "sector")) ++ str " logo")))
         traceId
     else ret None) ;;
  modify (setActiveEdge (Some (str "ASSOCIATE-MD"))) ;;
  updateAgent MD (statusAndTask THINKING (str "Final Investment Committee Review...")) ;;
  finalOpinion <-
    runStep stack_of MD (str "Formulating Investment Opinion")
      (invoke SvcOpinion (getMDFinalOpinion structuredData (r_mandate rendered) text))
      traceId ;;
  addMessage RoleModel finalOpinion ATHENA
    (match imageAttachment with Some (c :: url) => [c :: url] | _ => [] end) []
    [ str "Create Teaser for " ++ js_String (prop structuredData (str "companyName"));
      str "Run sensitivity analysis";
      str "Export CSV Model" ].

Definition pipelineFailed (error : exn) : jsstring :=
  str "Pipeline Execution Failed: " ++ message error ++ str ". "
  ++ [NEWLINE; NEWLINE] ++ str "Check the System Log for details.".

Definition handleUserMessage (text : jsstring) (attachments : list FileAttachment)
  : M AppState unit :=
  addMessage RoleUser text None [] attachments [] ;;
  modify (setIsProcessing true) ;;
  try_finally
    (try_catch
       (match attachments with
        | _ :: _ => documentAnalysisFlow text attachments
        | [] => sourcingFlow text
        end)
       (fun error =>
          addMessage RoleSystem (pipelineFailed error) SYSTEM [] [] [] ;;
          updateAllAgents (statusOnly ERROR)))
    (fun s => setActiveEdge None (setIsProcessing false s)).

End Orchestration.

End App.

(** ** Hydration of the deal collection *)

Module Hydration.

(** [localStorage.getItem]: [None] is the [null] of a missing key. *)
Definition Storage : Type := jsstring -> option jsstring.

(** One position of the date pattern: a digit, or a given character. *)
Inductive patChar : Type :=
| Digit
| Char (c : ascii).

Fixpoint matchesPrefix (p : list patChar) (s : jsstring) : bool :=
  match p, s with
  | [], _ => true
  | Digit :: p', c :: s' => is_digit c && matchesPrefix p' s'
  | Char x :: p', c :: s' => (x =? c)%char && matchesPrefix p' s'
  | _ :: _, [] => false
  end.

(** The regular expression of [dateReviver]: four digits, a dash, two
    digits, a dash, two digits, a T, and three colon-separated pairs of
    digits, anchored at the start. *)
Definition DATE_PATTERN : list patChar :=
  [ Digit; Digit; Digit; Digit; Char "-"; Digit; Digit; Char "-"; Digit; Digit;
    Char "T"; Digit; Digit; Char ":"; Digit; Digit; Char ":"; Digit; Digit ].

Definition dateReviver (v : value) : value :=
  match v with
  | VStr s => if matchesPrefix DATE_PATTERN s then VDate s else v
  | _ => v
  end.

(** [JSON.parse(text, reviver)] calls the reviver on every value, the
    members of a container before the container.  [dateReviver] never
    answers [undefined], so no member is removed. *)
Fixpoint revive (reviver : value -> value) (v : value) : value :=
  reviver
    match v with
    | VArr items => VArr (map (revive reviver) items)
    | VObj props => VObj (map (fun kv => (fst kv, revive reviver (snd kv))) props)
    | _ => v
    end.

Definition JSON_parse_reviving (text : jsstring) : Result value :=
  match JSON_parse text with
  | Some v => Ok (revive dateReviver v)
  | None => Throw SyntaxError
  end.

Section Startup.

Variable localStorage : Storage.

(** [new Date()] at start-up, as the ISO text that stands for it. *)
Variable now : jsstring.

Definition migratedDeal (parsed : value) : value :=
  VObj [ (str "id", VStr (str "legacy-migration"));
         (str "title", prop parsed (str "companyName"));
         (str "stage", VStr (str "Diligence"));
         (str "data", parsed);
         (str "createdAt", VDate now);
         (str "lastUpdated", VDate now);
         (str "tags", VArr [VStr (str "Migrated")]);
         (str "priority", VStr (str "Medium")) ].

(** The initializer of the [deals] state. *)
Definition dealsInitializer : value :=
  let body : Result value :=
    match localStorage (str "didi_deals") with
    | Some (c :: savedDeals) => JSON_parse_reviving (c :: savedDeals)
    | _ =>
        match localStorage (str "didi_dealData") with
        | Some (c :: oldDealData) =>
            match JSON_parse_reviving (c :: oldDealData) with
            | Ok parsed =>
                if truthy parsed && truthy (prop parsed (str "companyName"))
                then Ok (VArr [migratedDeal parsed])
                else Ok (VArr [])
            | Throw e => Throw e
            end
        | _ => Ok (VArr [])
        end
    end in
  match body with
  | Ok v => v
  | Throw _ => VArr []                        (* catch (e) { return [] } *)
  end.

End Startup.

End Hydration.

(* ===================================================================== *)
(** * The repair routine as the specification words it                   *)
(* ===================================================================== *)

Module RepairSpec.

(** (a) Drop one trailing comma. *)
Definition dropTrailingComma (s : jsstring) : jsstring :=
  match rev s with
  | c :: before => if (c =? ",")%char then rev before else s
  | [] => s
  end.

(** Which positions hold a double quote that counts.  Two readings of
    the word unescaped follow. *)
Definition quoteMarks : Type := jsstring -> list bool.

(** A quote counts unless the character just before it is a backslash. *)
Fixpoint notAfterBackslash (prev : option ascii) (s : jsstring) : list bool :=
  match s with
  | [] => []
  | c :: rest =>
      ((c =? DQUOTE)%char &&
       match prev with
       | Some p => negb (p =? BACKSLASH)%char
       | None => true
       end) :: notAfterBackslash (Some c) rest
  end.

(** A quote counts unless it is the second character of an escape pair:
    a backslash that is itself escaped escapes nothing.  [pending] says
    that the previous character is a backslash that opens a pair. *)
Fixpoint notEscaped (pending : bool) (s : jsstring) : list bool :=
  match s with
  | [] => []
  | c :: rest =>
      ((c =? DQUOTE)%char && negb pending)
        :: notEscaped (if pending then false else (c =? BACKSLASH)%char) rest
  end.

Definition countMarks (marks : list bool) : nat :=
  length (filter (fun b => b) marks).

(** (b) Append one quote when the count is odd. *)
Definition closeDanglingString (marks : quoteMarks) (s : jsstring) : jsstring :=
  if Nat.odd (countMarks (marks s)) then s ++ [DQUOTE] else s.

(** (c) The stack of expected closers, top first.  A counted quote toggles
    the string state; inside a string nothing is structural; a closer
    pops only when it is the one expected. *)
Fixpoint expectedClosers (inside : bool) (stack : list ascii)
         (cs : list (ascii * bool)) : list ascii :=
  match cs with
  | [] => stack
  | (c, quote) :: rest =>
      if quote then expectedClosers (negb inside) stack rest
      else if inside then expectedClosers inside stack rest
      else if (c =? "{")%char then expectedClosers inside ("}"%char :: stack) rest
      else if (c =? "[")%char then expectedClosers inside ("]"%char :: stack) rest
      else
        match stack with
        | top :: below =>
            if ((c =? "}")%char || (c =? "]")%char) && (top =? c)%char
            then expectedClosers inside below rest
            else expectedClosers inside stack rest
        | [] => expectedClosers inside stack rest
        end
  end.

(** The character before position [length pre] of [pre ++ suf]. *)
Definition lastChar (pre : jsstring) : option ascii :=
  match rev pre with
  | c :: _ => Some c
  | [] => None
  end.

(** (a) to (d) in order; (d) appends the closers, last opened first. *)
Definition repairBySteps (marks : quoteMarks) (text : jsstring) : jsstring :=
  let a := dropTrailingComma (trim text) in
  let b := closeDanglingString marks a in
  b ++ expectedClosers false [] (combine b (marks b)).

End RepairSpec.

(* ===================================================================== *)
(** * Scenarios of the specification                                     *)
(* ===================================================================== *)

Module Scenario.

(** The structuring response cut off inside the [lboModel] object. *)
Definition truncatedResponse : jsstring :=
  json "{'companyName':'Acme','ebitda':12,'lboModel':{'irr':25,".

(** [sanitizeDealData(cleanAndParseJSON(text), fallbackName)] *)
Definition extractThenNormalize (text fallbackName : jsstring) : Result value :=
  match cleanAndParseJSON text with
  | Ok parsed => sanitizeDealData parsed fallbackName
  | Throw e => Throw e
  end.

(** The answer wrapped in prose and a code fence. *)
Definition fencedArray : jsstring :=
  str "Sure, here are the results:" ++ [NEWLINE] ++ str "```json" ++ [NEWLINE]
  ++ json "['Acme','Globex']" ++ [NEWLINE] ++ str "```".

End Scenario.


(** ** A document embedded in prose and fences *)

Module Embedded.

Definition isBracket (c : ascii) : bool := (c =? "{")%char || (c =? "[")%char.

Definition isCloser (c : ascii) : bool := (c =? "}")%char || (c =? "]")%char.

(** The two [replace] calls of cleanAndParseJSON. *)
Definition stripFences (s : jsstring) : jsstring :=
  replaceAll (replaceAll s FENCE_JSON) FENCE.

(** The prose before the payload holds no brace and no bracket. *)
Definition bracketFree (s : jsstring) : bool :=
  forallb (fun c => negb (isBracket c)) s.

(** The document is an object or an array, from its opening character to
    its closing one. *)
Definition beginsWithBracket (doc : jsstring) : bool :=
  match doc with
  | c :: _ => isBracket c
  | [] => false
  end.

Definition endsWithCloser (doc : jsstring) : bool :=
  match rev doc with
  | c :: _ => isCloser c
  | [] => false
  end.

End Embedded.

Import Embedded.

(** ** The documented shape of a Deal Record *)

Module DealShape.

Definition has (o : value) (k : string) : bool :=
  match o with
  | VObj props => match lookup (str k) props with Some _ => true | None => false end
  | _ => false
  end.


Definition isObject (v : value) : bool :=
  match v with VObj _ => true | _ => false end.

Definition TOP_LEVEL_FIELDS : list string :=
  [ "companyName"; "sector"; "location"; "ebitda"; "revenue"; "askingMultiple";
    "impliedValue"; "financialModels"; "lboModel"; "lboDetailed"; "memo";
    "sensitivityAnalysis"; "comparables"; "candidatesAnalyzed"; "groundingUrls";
    "deliverables" ]%string.

Definition MEMO_FIELDS : list string :=
  [ "executiveSummary"; "investmentRecommendation"; "recommendationRationale";
    "dealMerits"; "investmentThesis"; "keyRisks"; "riskMitigation";
    "marketOverview"; "competitiveLandscape"; "customerAnalysis";
    "operationalUpside" ]%string.














(** The name of the record: the input's when truthy, else the fallback
    name when that is not empty, else a fixed name. *)
Definition recordName (data : value) (companyName : jsstring) : value :=
  if truthy (prop data (str "companyName")) then prop data (str "companyName")
  else match companyName with
       | [] => VStr (str "Target Company")
       | _ :: _ => VStr companyName
       end.

(** The record with every field at its default, written out. *)
Definition DEFAULT_RECORD (name : value) : value :=
  VObj
    [ (str "companyName", name);
      (str "sector", VStr (str "Unknown Sector"));
      (str "location", VStr (str "N/A"));
      (str "ebitda", VNum 0 0);
      (str "revenue", VNum 0 0);
      (str "askingMultiple", VNum 0 0);
      (str "impliedValue", VNum 0 0);
      (str "financialModels",
         VObj [ (str "years", VArr [VStr (str "LTM")]);
                (str "incomeStatement",
                   VObj [(str "title", VStr (str "Income Statement")); (str "rows", VArr [])]);
                (str "balanceSheet",
                   VObj [(str "title", VStr (str "Balance Sheet")); (str "rows", VArr [])]);
                (str "cashFlow",
                   VObj [(str "title", VStr (str "Cash Flow")); (str "rows", VArr [])]) ]);
      (str "lboModel",
         VObj [ (str "entryMultiple", VNum 0 0);
                (str "exitMultiple", VNum 0 0);
                (str "irr", VNum 0 0);
                (str "moic", VNum 0 0);
                (str "debttoEquity", VNum 0 0) ]);
      (str "lboDetailed",
         VObj [ (str "assumptions", VArr []);
                (str "sources", VArr []);
                (str "uses", VArr []);
                (str "debtSchedule",
                   VObj [(str "title", VStr (str "Debt Schedule")); (str "rows", VArr [])]);
                (str "projectedReturns",
                   VObj [(str "title", VStr (str "Returns")); (str "rows", VArr [])]) ]);
      (str "memo",
         VObj [ (str "executiveSummary", VStr (str "Pending generation..."));
                (str "investmentRecommendation", VStr (str "HOLD"));
                (str "recommendationRationale",
                   VStr (str "Insufficient data for recommendation."));
                (str "dealMerits", VArr []);
                (str "investmentThesis", VArr []);
                (str "keyRisks", VArr []);
                (str "riskMitigation", VStr (str "N/A"));
                (str "marketOverview", VStr (str "N/A"));
                (str "competitiveLandscape", VStr (str "N/A"));
                (str "customerAnalysis", VStr (str "N/A"));
                (str "operationalUpside", VStr (str "N/A")) ]);
      (str "sensitivityAnalysis", VArr []);
      (str "comparables", VArr []);
      (str "candidatesAnalyzed", VArr []);
      (str "groundingUrls", VArr []);
      (str "deliverables", VArr []) ].

End DealShape.

Import DealShape.

(** ** A sourcing run in which the scout finds nothing *)

Import App.

Module NoCandidates.

Definition noTargets : exn :=
  Error (str "Scout returned 0 targets. Try refining your search criteria.").

Definition userMessage (rendered : Render) (text : jsstring) : Message :=
  {| msg_dealId := r_activeDealId rendered; msg_role := RoleUser;
     msg_content := text; msg_sender := None; msg_attachments := [];
     msg_inputAttachments := []; msg_suggestedActions := [] |}.

Definition strategyMessage (rendered : Render) (strategy : jsstring) : Message :=
  {| msg_dealId := r_activeDealId rendered; msg_role := RoleModel;
     msg_content := strategy; msg_sender := Some (str "Athena (MD)");
     msg_attachments := []; msg_inputAttachments := [];
     msg_suggestedActions := [] |}.

Definition failureMessage (rendered : Render) : Message :=
  {| msg_dealId := r_activeDealId rendered; msg_role := RoleSystem;
     msg_content :=
       str "Pipeline Execution Failed: Scout returned 0 targets. Try refining your search criteria.. "
       ++ [NEWLINE; NEWLINE] ++ str "Check the System Log for details.";
     msg_sender := Some (str "SYSTEM"); msg_attachments := [];
     msg_inputAttachments := []; msg_suggestedActions := [] |}.

(** A concrete run: the strategy is produced, the scout finds nothing,
    and every later service would fail if it were reached. *)
Definition unreachable {A : Type} : Result A := Throw (Error (str "not reached")).

Definition startState : AppState :=
  {| agents := INITIAL_AGENTS; logs := []; messages := []; deals := [];
     activeDealId := None; isProcessing := false; activeEdge := None;
     started := [] |}.

Definition startRender : Render :=
  {| r_activeDealId := None; r_portfolio := []; r_mandate := str "Fund: DiDi Capital" |}.

Definition emptyScoutRun : Result unit * AppState :=
  handleUserMessage
    (fun _ => None) (fun _ => []) (fun _ => [])
    (fun _ _ => Ok (str "Search B2B software"))
    (fun _ => Ok [])
    (fun _ _ => unreachable) (fun _ => unreachable) (fun _ _ _ _ => unreachable)
    (fun _ => unreachable) (fun _ => unreachable) (fun _ _ _ => unreachable)
    (fun _ _ => unreachable)
    (str "1700000000000") (str "ABC1234") startRender
    (str "Find a software target") [] startState.

End NoCandidates.

Import NoCandidates.

(** ** Stores for the hydration of the deal collection *)

Module LegacyStore.

Import Hydration.

(** A store that holds one key. *)
Definition storeWith (key : string) (text : jsstring) : Storage :=
  fun k => if jsstring_eqb k (str key) then Some text else None.

(** [getItem] gave null or the empty string: the test [if (saved)] fails. *)
Definition absent (item : option jsstring) : bool :=
  match item with
  | Some (_ :: _) => false
  | _ => true
  end.

Definition startupTime : jsstring := str "2026-01-15T09:30:00.000Z".

(** A legacy deal, as the single-deal version of the app stored it. *)
Definition legacyDealText : jsstring :=
  json "{'companyName':'Acme','sector':'Software','ebitda':12}".

(** A deal object whose company name is the empty string. *)
Definition namelessDealText : jsstring :=
  json "{'companyName':'','sector':'Software','ebitda':12}".

(** The collection the migration of [legacyDealText] builds, as the
    multi-deal version would have stored it. *)
Definition migratedCollectionText : jsstring :=
  json "[{'id':'legacy-migration','title':'Acme','stage':'Diligence','data':{'companyName':'Acme','sector':'Software','ebitda':12},'createdAt':'2026-01-15T09:30:00.000Z','lastUpdated':'2026-01-15T09:30:00.000Z','tags':['Migrated'],'priority':'Medium'}]".

End LegacyStore.

Import Hydration LegacyStore.

(* ===================================================================== *)
(** * services/geminiService.ts: the other agents                        *)
(* ===================================================================== *)

(** The agents that answer with text.  Each sends one [generateContent]
    request and reads the text or the grounding chunks of the response.
    The fixed instruction text of a prompt is shortened to its opening
    words; the interpolated arguments are kept.  The state of the
    functions is the list of requests sent so far; the client is taken to
    be constructed without failure. *)

Module Agents.

Import App.

Inductive Tool : Type := GoogleSearch | GoogleMaps.

(** An [inlineData] part of a request: the MIME type of the file and the
    base64 text, which is [undefined] when the data URI has no comma. *)
Record InlinePart : Type := {
  part_mimeType : jsstring;
  part_data : value
}.

(** One [generateContent] request of an agent. *)
Record AgentRequest : Type := {
  a_model : jsstring;
  a_prompt : jsstring;
  a_files : list InlinePart;
  a_tools : list Tool;
  a_thinkingBudget : option Z;
  a_jsonResponse : bool               (* responseMimeType: application/json *)
}.

(** A grounding chunk: [chunk.web?.uri] and [chunk.maps?.uri]. *)
Record Chunk : Type := {
  web_uri : option jsstring;
  maps_uri : option jsstring
}.

(** What the agents read of a response: [response.text], and
    [response.candidates?.[0]?.groundingMetadata?.groundingChunks]. *)
Record AgentResponse : Type := {
  r_text : option jsstring;
  r_groundingChunks : option (list Chunk)
}.

Inductive DeliverableType : Type := Teaser | PitchDeck | CIM | OnePager.

Definition deliverableName (t : DeliverableType) : jsstring :=
  match t with
  | Teaser => str "Teaser"
  | PitchDeck => str "Pitch Deck"
  | CIM => str "CIM"
  | OnePager => str "One Pager"
  end.

(** [s.split(sep)] *)
Fixpoint split (sep : ascii) (s : jsstring) : list jsstring :=
  match s with
  | [] => [[]]
  | c :: rest =>
      if (c =? sep)%char then [] :: split sep rest
      else
        match split sep rest with
        | piece :: pieces => (c :: piece) :: pieces
        | [] => [[c]]
        end
  end.

(** [file.data.split(',')[1]] *)
Definition base64Data (data : jsstring) : value :=
  match nth_error (split ","%char data) 1 with
  | Some piece => VStr piece
  | None => VUndefined
  end.

(** [files.forEach(file => parts.push({ inlineData: ... }))] *)
Definition fileParts (files : list FileAttachment) : list InlinePart :=
  map (fun file => {| part_mimeType := file_type file;
                      part_data := base64Data (file_data file) |}) files.

(** The characters after an opening bracket up to the first closing one,
    that bracket included. *)
Fixpoint upToCloser (s : jsstring) : option jsstring :=
  match s with
  | [] => None
  | c :: rest =>
      if (c =? "]")%char then Some [c]
      else match upToCloser rest with
           | Some m => Some (c :: m)
           | None => None
           end
  end.

(** [text.match(/\[.*?\]/s)]: the leftmost start at which a match exists,
    and from it the shortest match. *)
Fixpoint matchBracketed (s : jsstring) : option jsstring :=
  match s with
  | [] => None
  | c :: rest =>
      if (c =? "[")%char then
        match upToCloser rest with
        | Some m => Some (c :: m)
        | None => matchBracketed rest
        end
      else matchBracketed rest
  end.

(** [x || fallback] on an optional text. *)
Definition textOr (t : option jsstring) (fallback : jsstring) : jsstring :=
  match t with
  | Some (c :: rest) => c :: rest
  | _ => fallback
  end.

(** [chunks?.map(c => c.uri).filter(uri => !!uri) || []] *)
Definition truthyUris (uri : Chunk -> option jsstring) (chunks : option (list Chunk))
  : list jsstring :=
  match chunks with
  | Some cs =>
      flat_map (fun c => match uri c with
                         | Some (x :: u) => [x :: u]
                         | _ => []
                         end) cs
  | None => []
  end.

Section Agents.

Variable generateContent : AgentRequest -> Result AgentResponse.

(** String conversion of a value inside a template. *)
Variable js_String : value -> jsstring.

(** [Math.random().toString(36).substring(7)] for the element at an
    index of the portfolio array. *)
Variable randomId : nat -> jsstring.

Definition ask (req : AgentRequest) : M (list AgentRequest) AgentResponse :=
  fun sent => (generateContent req, sent ++ [req]).

(** [catch (e) { throw new Error(`${pfx}${e.message}`) }] *)
Definition rethrow {A : Type} (pfx : string) (error : exn) : M (list AgentRequest) A :=
  throw (Error (str pfx ++ message error)).

Definition plainRequest (model prompt : jsstring) : AgentRequest :=
  {| a_model := model; a_prompt := prompt; a_files := []; a_tools := [];
     a_thinkingBudget := None; a_jsonResponse := false |}.

Definition strategyRequest (userPrompt mandate : jsstring) : AgentRequest :=
  {| a_model := str "gemini-3-pro-preview";
     a_prompt := json "User Prompt: '" ++ userPrompt
                 ++ json "' FIRM HISTORICAL MANDATE: '" ++ mandate
                 ++ json "' Your Role: Managing Director at DiDi AI.";
     a_files := []; a_tools := [];
     a_thinkingBudget := Some 1024%Z; a_jsonResponse := false |}.

Definition getMDStrategy (userPrompt mandate : jsstring) : M (list AgentRequest) jsstring :=
  try_catch
    (response <- ask (strategyRequest userPrompt mandate) ;;
     match r_text response with
     | Some (c :: t) => ret (c :: t)
     | _ => throw (Error (str "Empty response from MD Agent"))
     end)
    (rethrow "MD Strategy Generation Failed: ").

Definition scoutRequest (strategyDirective : jsstring) : AgentRequest :=
  {| a_model := str "gemini-2.5-flash";
     a_prompt := str "You are the Scout Agent for DiDi AI. MD Directive: "
                 ++ strategyDirective
                 ++ str ". Task: Search the LIVE WEB for 5 real, existing private or public companies that fit this criteria.";
     a_files := []; a_tools := [GoogleSearch];
     a_thinkingBudget := None; a_jsonResponse := false |}.

Definition scoutPotentialTargets (strategyDirective : jsstring)
  : M (list AgentRequest) (list value) :=
  try_catch
    (response <- ask (scoutRequest strategyDirective) ;;
     let text := textOr (r_text response) (str "[]") in
     let text := match matchBracketed text with
                 | Some jsonMatch => jsonMatch
                 | None => text
                 end in
     parsed <- lift (cleanAndParseJSON text) ;;
     match parsed with
     | VArr items => ret items
     | _ => throw (Error (str "Parsed output is not an array"))
     end)
    (rethrow "Scouting Failed: ").

Definition selectRequest (targets : list jsstring) (mandate : jsstring) : AgentRequest :=
  plainRequest (str "gemini-2.5-flash")
    (str "Candidates: " ++ join (str ", ") targets
     ++ str ". User Context/Mandate: " ++ mandate
     ++ str ". Task: Pick the SINGLE best candidate that fits the user's current request. Return ONLY the company name.").

Definition selectBestTarget (targets : list jsstring) (mandate : jsstring)
  : M (list AgentRequest) jsstring :=
  try_catch
    (match targets with
     | [] => throw (Error (str "No targets provided for selection"))
     | _ => ret tt
     end ;;
     response <- ask (selectRequest targets mandate) ;;
     match option_map trim (r_text response) with     (* response.text?.trim() *)
     | Some (c :: t) => ret (c :: t)
     | _ => throw (Error (str "Empty selection response"))
     end)
    (rethrow "Target Selection Failed: ").

Definition deepDiveRequest (companyName : jsstring) : AgentRequest :=
  {| a_model := str "gemini-3-pro-preview";
     a_prompt := json "Perform a deep-dive investigation on: '" ++ companyName
                 ++ json "'. SEARCH STRATEGY (Triangulation)";
     a_files := []; a_tools := [GoogleSearch];
     a_thinkingBudget := None; a_jsonResponse := false |}.

Definition performDeepDive (companyName : jsstring) : M (list AgentRequest) DeepDive :=
  try_catch
    (response <- ask (deepDiveRequest companyName) ;;
     let sources := truthyUris web_uri (r_groundingChunks response) in
     ret {| dd_text := textOr (r_text response) (str "No specific data found.");
            dd_sources := sources |})
    (rethrow "Deep Dive Failed: ").

Definition analyzeRequest (files : list FileAttachment) (prompt : jsstring)
  : AgentRequest :=
  {| a_model := str "gemini-2.5-flash";
     a_prompt := json "Act as a Private Equity Diligence Agent for DiDi AI. Analyze the provided document(s). User Context: '"
                 ++ prompt ++ json "'";
     a_files := fileParts files; a_tools := [];
     a_thinkingBudget := None; a_jsonResponse := true |}.

Definition analyzeDocument (files : list FileAttachment) (prompt : jsstring)
  : M (list AgentRequest) value :=
  try_catch
    (response <- ask (analyzeRequest files prompt) ;;
     parsed <- lift (cleanAndParseJSON (textOr (r_text response) (str "{}"))) ;;
     companyName <- lift (get parsed (str "companyName")) ;;
     if truthy companyName then ret parsed
     else throw (Error (str "Failed to extract company name from document")))
    (rethrow "Document Analysis Failed: ").

(** [{ ...company, id: company.id || randomId }] for the elements of the
    parsed array, left to right. *)
Fixpoint withIds (i : nat) (companies : list value) : Result (list value) :=
  match companies with
  | [] => Ok []
  | company :: rest =>
      match get company (str "id") with
      | Throw e => Throw e
      | Ok id =>
          match withIds (S i) rest with
          | Throw e => Throw e
          | Ok rest' =>
              Ok (VObj (obj_set (spread [] company) (str "id")
                                (or_else id (VStr (randomId i)))) :: rest')
          end
      end
  end.

Definition ingestRequest (files : list FileAttachment) : AgentRequest :=
  {| a_model := str "gemini-2.5-flash";
     a_prompt := str "Act as a Private Equity Operations Agent for DiDi AI. Parse this portfolio data.";
     a_files := fileParts files; a_tools := [];
     a_thinkingBudget := None; a_jsonResponse := true |}.

Definition ingestPortfolioDocuments (files : list FileAttachment)
  : M (list AgentRequest) (list value) :=
  try_catch
    (response <- ask (ingestRequest files) ;;
     parsed <- lift (cleanAndParseJSON (textOr (r_text response) (str "[]"))) ;;
     match parsed with
     | VArr companies => lift (withIds 0 companies)
     | _ => throw (Error (str "Failed to parse portfolio array."))
     end)
    (rethrow "Portfolio Ingestion Failed: ").

Definition locationRequest (locationQuery : jsstring) : AgentRequest :=
  {| a_model := str "gemini-2.5-flash";
     a_prompt := str "Where is the headquarters of " ++ locationQuery
                 ++ str "? provide exact address if possible.";
     a_files := []; a_tools := [GoogleMaps];
     a_thinkingBudget := None; a_jsonResponse := false |}.

Definition verifyLocation (locationQuery : jsstring) : M (list AgentRequest) (list jsstring) :=
  try_catch
    (response <- ask (locationRequest locationQuery) ;;
     ret (truthyUris maps_uri (r_groundingChunks response)))
    (rethrow "Location Verification Failed: ").

(** The opinion prompt reads [dealData.companyName], [dealData.ebitda] and
    [dealData.lboModel?.irr]. *)
Definition opinionRequest (dealData : value) (mandate originalPrompt : jsstring)
  : AgentRequest :=
  let lboModel := prop dealData (str "lboModel") in
  let irr := if nullish lboModel then VUndefined else prop lboModel (str "irr") in
  {| a_model := str "gemini-3-pro-preview";
     a_prompt := json "Original Request: '" ++ originalPrompt
                 ++ json "' Firm Mandate: '" ++ mandate
                 ++ json "' Target Selected: '"
                 ++ js_String (prop dealData (str "companyName"))
                 ++ json "' Financials: EBITDA $"
                 ++ js_String (prop dealData (str "ebitda"))
                 ++ str "M, IRR " ++ js_String irr ++ str "%.";
     a_files := []; a_tools := [];
     a_thinkingBudget := Some 1024%Z; a_jsonResponse := false |}.

Definition getMDFinalOpinion (dealData : value) (mandate originalPrompt : jsstring)
  : M (list AgentRequest) jsstring :=
  try_catch
    (lift (get dealData (str "companyName")) ;;
     response <- ask (opinionRequest dealData mandate originalPrompt) ;;
     match r_text response with
     | Some (c :: t) => ret (c :: t)
     | _ => throw (Error (str "No opinion generated"))
     end)
    (rethrow "Opinion Generation Failed: ").

Definition pageLimit (type : DeliverableType) : nat :=
  match type with
  | Teaser | OnePager => 3
  | _ => 10
  end.

Definition deliverableRequest (dealData : value) (type : DeliverableType)
  : AgentRequest :=
  {| a_model := str "gemini-2.5-flash";
     a_prompt := json "Act as a DiDi AI Investment Banking Associate. Create a slide outline for a '"
                 ++ deliverableName type ++ json "' document for '"
                 ++ js_String (prop dealData (str "companyName")) ++ json "'. Max "
                 ++ decimal (pageLimit type) ++ str " slides.";
     a_files := []; a_tools := [];
     a_thinkingBudget := None; a_jsonResponse := true |}.

Definition generateDeliverableContent (dealData : value) (type : DeliverableType)
  : M (list AgentRequest) value :=
  try_catch
    (lift (get dealData (str "companyName")) ;;
     response <- ask (deliverableRequest dealData type) ;;
     lift (cleanAndParseJSON (textOr (r_text response) (str "[]"))))
    (rethrow "Deliverable Content Failed: ").

End Agents.

(** The property names of an object, in creation order. *)
Definition keysOf (props : list (jsstring * value)) : list jsstring := map fst props.

(** The answer carries no text: [response.text] is undefined or empty. *)
Definition noText (response : AgentResponse) : bool :=
  match r_text response with
  | Some (_ :: _) => false
  | _ => true
  end.

(** A rejection, if any, is [new Error(pfx + m)] for some message [m]. *)
Definition rejectsWith {A : Type} (pfx : string) (r : Result A) : Prop :=
  match r with
  | Ok _ => True
  | Throw e => exists m, e = Error (str pfx ++ m)
  end.

(** The requests sent by one call: none, or one. *)
Definition atMostOneRequest (before after : list AgentRequest) : Prop :=
  after = before \/ exists req, after = before ++ [req].

End Agents.


(* ===================================================================== *)
(** * The stages of repairJSON                                           *)
(* ===================================================================== *)

Module Repaired.

(** The text after step 1 of repairJSON: trimmed, and without its
    trailing comma. *)
Definition commaDropped (jsonString : jsstring) : jsstring :=
  let repaired := trim jsonString in
  if endsWith repaired ","%char then slice_0_m1 repaired else repaired.

(** The text after step 2: with the quote that closes a dangling string. *)
Definition quoteClosed (jsonString : jsstring) : jsstring :=
  let repaired := commaDropped jsonString in
  if Nat.eqb (quoteCount repaired mod 2) 0 then repaired
  else repaired ++ [DQUOTE].

(** [insideString] after a run of characters, from the flags that say
    which of them are quotes that count. *)
Fixpoint insideAfter (inside : bool) (marks : list bool) : bool :=
  match marks with
  | [] => inside
  | quote :: rest => insideAfter (if quote then negb inside else inside) rest
  end.

End Repaired.

(* ===================================================================== *)
(** * App.tsx: what a run of a handler keeps                             *)
(* ===================================================================== *)

Module Runs.

Import App.

(** Everything a handler of [App] closes over besides the render: the
    services, the conversions, the clock and the trace id of the run. *)
Record Environment : Type := {
  env_stack_of : exn -> option jsstring;
  env_js_String : value -> jsstring;
  env_JSON_stringify : value -> jsstring;
  env_getMDStrategy : jsstring -> jsstring -> Result jsstring;
  env_scoutPotentialTargets : jsstring -> Result (list jsstring);
  env_selectBestTarget : list jsstring -> jsstring -> Result jsstring;
  env_performDeepDive : jsstring -> Result DeepDive;
  env_generateDealStructure :
    value -> jsstring -> list jsstring -> list PortfolioCompany -> Result value;
  env_verifyLocation : value -> Result (list jsstring);
  env_generateConceptImage : jsstring -> Result (option jsstring);
  env_getMDFinalOpinion : value -> jsstring -> jsstring -> Result jsstring;
  env_analyzeDocument : list FileAttachment -> jsstring -> Result value;
  env_Date_now : jsstring;
  env_traceId : jsstring
}.

Definition sourcing (env : Environment) (rendered : Render) (text : jsstring)
  : M AppState unit :=
  sourcingFlow (env_stack_of env) (env_js_String env) (env_getMDStrategy env)
    (env_scoutPotentialTargets env) (env_selectBestTarget env)
    (env_performDeepDive env) (env_generateDealStructure env)
    (env_verifyLocation env) (env_generateConceptImage env)
    (env_getMDFinalOpinion env) (env_Date_now env) (env_traceId env) rendered text.

Definition documents (env : Environment) (rendered : Render) (text : jsstring)
           (attachments : list FileAttachment) : M AppState unit :=
  documentAnalysisFlow (env_stack_of env) (env_JSON_stringify env)
    (env_generateDealStructure env) (env_getMDFinalOpinion env)
    (env_analyzeDocument env) (env_Date_now env) (env_traceId env) rendered
    text attachments.

Definition handle (env : Environment) (rendered : Render) (text : jsstring)
           (attachments : list FileAttachment) : M AppState unit :=
  handleUserMessage (env_stack_of env) (env_js_String env) (env_JSON_stringify env)
    (env_getMDStrategy env) (env_scoutPotentialTargets env)
    (env_selectBestTarget env) (env_performDeepDive env)
    (env_generateDealStructure env) (env_verifyLocation env)
    (env_generateConceptImage env) (env_getMDFinalOpinion env)
    (env_analyzeDocument env) (env_Date_now env) (env_traceId env) rendered
    text attachments.

(** ** Relations between the state before and after *)

(** Every step of [m], whether it ends in a value or in an exception,
    leaves the state related by [R] to the state it started from. *)
Definition keeps {A : Type} (R : AppState -> AppState -> Prop) (m : M AppState A)
  : Prop :=
  forall s, R s (snd (m s)).

(** A list of the state has only grown, by elements that satisfy [P]. *)
Definition appended {B : Type} (proj : AppState -> list B) (P : B -> Prop)
           (s s' : AppState) : Prop :=
  exists new, proj s' = proj s ++ new /\ Forall P new.

(** What identifies an agent: everything but its status and its task. *)
Definition identity (a : Agent) : jsstring * AgentRole * jsstring * jsstring :=
  (agent_id a, role a, name a, description a).

Definition sameCast (s s' : AppState) : Prop :=
  map identity (agents s') = map identity (agents s).

(** A deal room without its stage. *)
Definition unstaged (d : DealRoom)
  : jsstring * value * list jsstring * jsstring * value :=
  (deal_id d, deal_title d, deal_tags d, deal_priority d, deal_data d).

(** The rooms are the rooms before, up to their stage, followed by rooms
    the run created, each with its placeholder data. *)
Definition roomsKept (Date_now : jsstring) (s s' : AppState) : Prop :=
  exists new,
    map unstaged (deals s') = map unstaged (deals s) ++ map unstaged new
    /\ Forall (fun d => exists title, unstaged d = unstaged (newDealRoom Date_now title))
              new.

(** No room is added or removed, and every room but the one with the
    given id is as it was. *)
Definition othersUntouched (active : jsstring) (s s' : AppState) : Prop :=
  Forall2 (fun d d' => deal_id d' = deal_id d
                       /\ (jsstring_eqb (deal_id d) active = false -> d' = d))
          (deals s) (deals s').

(** ** The services a run starts *)

Definition SOURCING_CHAIN : list Service :=
  [SvcStrategy; SvcScout; SvcSelect; SvcDeepDive; SvcStructure;
   SvcLocation; SvcImage; SvcOpinion].

(** The sourcing chain when the structured record has no company name. *)
Definition UNNAMED_CHAIN : list Service :=
  [SvcStrategy; SvcScout; SvcSelect; SvcDeepDive; SvcStructure; SvcOpinion].

Definition DOCUMENT_CHAIN : list Service := [SvcAnalyze; SvcStructure; SvcOpinion].

(** A run of [m] that ends in a value has started the services of one of
    the chains, in order; one that ends in an exception has started the
    first [k] of them. *)
Definition startsOneOf {A : Type} (chains : list (list Service)) (m : M AppState A)
  : Prop :=
  forall s,
  exists chain k,
    In chain chains
    /\ match m s with
       | (Ok _, s') => started s' = started s ++ chain
       | (Throw _, s') => started s' = started s ++ firstn k chain
       end.

Definition service_eqb (a b : Service) : bool :=
  match a, b with
  | SvcStrategy, SvcStrategy | SvcScout, SvcScout | SvcSelect, SvcSelect
  | SvcDeepDive, SvcDeepDive | SvcStructure, SvcStructure
  | SvcLocation, SvcLocation | SvcImage, SvcImage | SvcOpinion, SvcOpinion
  | SvcAnalyze, SvcAnalyze => true
  | _, _ => false
  end.

(** What is left of a chain after the services of [done]. *)
Fixpoint stripPrefix (done chain : list Service) : option (list Service) :=
  match done, chain with
  | [], _ => Some chain
  | d :: done', c :: chain' =>
      if service_eqb d c then stripPrefix done' chain' else None
  | _ :: _, [] => None
  end.

Definition after (done : list Service) (chains : list (list Service))
  : list (list Service) :=
  flat_map (fun chain => match stripPrefix done chain with
                         | Some rest => [rest]
                         | None => []
                         end) chains.

(** [m] starts no service. *)
Definition quiet {A : Type} (m : M AppState A) : Prop :=
  forall s, started (snd (m s)) = started s.

(** ** The log of a run *)

Definition stepCompleted (traceId : jsstring) (e : LogEntry) : Prop :=
  log_traceId e = traceId /\ log_status e = COMPLETED /\ log_errorDetails e = None.

Definition stepFailed (traceId : jsstring) (error : exn) (e : LogEntry) : Prop :=
  log_traceId e = traceId /\ log_status e = ERROR
  /\ exists details,
       log_errorDetails e = Some details /\ err_message details = message error.

(** The entries of a run that has not failed: completed steps only. *)
Definition loggedCompleted (traceId : jsstring) (s s' : AppState) : Prop :=
  exists new, logs s' = logs s ++ new /\ Forall (stepCompleted traceId) new.

(** The entries of a run that failed with [error]: completed steps, and
    then the entry of the failed step when the failure came from a step. *)
Definition loggedFailure (traceId : jsstring) (error : exn) (s s' : AppState) : Prop :=
  exists new last,
    logs s' = logs s ++ new ++ last
    /\ Forall (stepCompleted traceId) new
    /\ (last = [] \/ exists e, last = [e] /\ stepFailed traceId error e).

(** [m] writes nothing to the log. *)
Definition silent {A : Type} (m : M AppState A) : Prop :=
  forall s, logs (snd (m s)) = logs s.

Definition logsSteps {A : Type} (traceId : jsstring) (m : M AppState A) : Prop :=
  forall s,
    match m s with
    | (Ok _, s') => loggedCompleted traceId s s'
    | (Throw error, s') => loggedFailure traceId error s s'
    end.

(** ** The conversation *)

(** A run of [m] that ends in a value leaves a state that satisfies [Q]. *)
Definition resolvesInto {A : Type} (Q : AppState -> Prop) (m : M AppState A) : Prop :=
  forall s a s', m s = (Ok a, s') -> Q s'.

Definition lastMessage (s : AppState) : option Message :=
  match rev (messages s) with
  | m :: _ => Some m
  | [] => None
  end.

Definition isOpinion (m : Message) : bool :=
  match msg_role m, msg_sender m with
  | RoleModel, Some sender => jsstring_eqb sender (str "Athena (MD)")
  | _, _ => false
  end.

(** The prompt of the closing opinion: the text of the user, and for a run
    over documents [text || "Analyze this deal"]. *)
Definition opinionPrompt (text : jsstring) (attachments : list FileAttachment)
  : jsstring :=
  match attachments, text with
  | _ :: _, [] => str "Analyze this deal"
  | _, _ => text
  end.

(** The conversation ends with the text that the opinion service returned
    for [prompt], the mandate of the render and some deal record, posted
    as the managing director. *)
Definition endsWithOpinionOn (env : Environment) (rendered : Render) (prompt : jsstring)
           (s : AppState) : Prop :=
  exists m dealData,
    lastMessage s = Some m
    /\ isOpinion m = true
    /\ env_getMDFinalOpinion env dealData (r_mandate rendered) prompt
       = Ok (msg_content m).

Definition isFailureNotice (m : Message) : bool :=
  match msg_role m, msg_sender m with
  | RoleSystem, Some sender =>
      jsstring_eqb sender (str "SYSTEM")
      && startsWith (str "Pipeline Execution Failed: ") (msg_content m)
  | _, _ => false
  end.

(** [messages.filter(m => ...)]: the messages shown for the current
    context.  A message reaches [None] as its tag when [addMessage] wrote
    null. *)
Definition activeMessages (activeDealId : option jsstring) (messages : list Message)
  : list Message :=
  filter (fun m =>
            match activeDealId with
            | Some (c :: id) =>
                match msg_dealId m with
                | Some tag => jsstring_eqb tag (c :: id)
                | None => true
                end
            | _ =>
                match msg_dealId m with
                | Some _ => false
                | None => true
                end
            end) messages.

End Runs.

(* ===================================================================== *)
(** * App.tsx: handlePortfolioIngest                                     *)
(* ===================================================================== *)

Module PortfolioIngest.

Import App.

(** The state of [App] with the portfolio, the list [setPortfolio]
    updates, beside it. *)
Definition IngestState : Type := (AppState * list value)%type.

(** A step that works on the [AppState] part. *)
Definition onApp {A : Type} (m : M AppState A) : M IngestState A :=
  fun st => let (r, s') := m (fst st) in (r, (s', snd st)).

Definition setPortfolio (f : list value -> list value) (st : IngestState)
  : IngestState :=
  (fst st, f (snd st)).

Section Ingest.

Variable stack_of : exn -> option jsstring.

(** The outcome of the promise of [ingestPortfolioDocuments(files)]. *)
Variable ingestPortfolioDocuments : list FileAttachment -> Result (list value).

Variable traceId : jsstring.
Variable rendered : Render.

Definition ingesting (files : list FileAttachment) : jsstring :=
  str "Ingesting " ++ decimal (length files) ++ str " portfolio documents...".

Definition onboarded (newCompanies : list value) : jsstring :=
  str "Successfully onboarded " ++ decimal (length newCompanies)
  ++ str " companies to Portfolio Command.".

Definition ingestionFailed : jsstring := str "Portfolio ingestion failed. See logs.".

Definition handlePortfolioIngest (files : list FileAttachment) : M IngestState unit :=
  onApp (modify (setIsProcessing true)) ;;
  onApp (addMessage rendered RoleSystem (ingesting files) SYSTEM [] [] []) ;;
  try_finally
    (try_catch
       (onApp (modify (setActiveEdge (Some (str "VP-DILIGENCE")))) ;;
        newCompanies <-
          onApp (runStep stack_of DILIGENCE
                   (str "Parsing Portfolio Data & Normalizing Metrics")
                   (lift (ingestPortfolioDocuments files)) traceId) ;;
        modify (setPortfolio (fun prev => prev ++ newCompanies)) ;;
        onApp (addMessage rendered RoleSystem (onboarded newCompanies) SYSTEM [] []
                 [str "View Portfolio Dashboard"; str "Benchmark Active Deals"]))
       (fun e => onApp (addMessage rendered RoleSystem ingestionFailed SYSTEM [] [] [])))
    (fun st => (setActiveEdge None (setIsProcessing false (fst st)), snd st)).

End Ingest.

End PortfolioIngest.

(* ===================================================================== *)
(** * Runs in which every service answers                                *)
(* ===================================================================== *)

Module FullRun.

Import App Runs.

Definition structured : value :=
  VObj [ (str "companyName", VStr (str "Acme"));
         (str "sector", VStr (str "Software"));
         (str "ebitda", VInt 12) ].

(** Every service resolves. *)
Definition answering : Environment :=
  {| env_stack_of := fun _ => None;
     env_js_String := fun v => match v with VStr s => s | _ => [] end;
     env_JSON_stringify := fun _ => str "{}";
     env_getMDStrategy := fun _ _ => Ok (str "Search B2B software");
     env_scoutPotentialTargets := fun _ => Ok [str "Acme"; str "Globex"];
     env_selectBestTarget := fun _ _ => Ok (str "Acme");
     env_performDeepDive :=
       fun _ => Ok {| dd_text := str "Acme profile";
                      dd_sources := [str "https://acme.example"] |};
     env_generateDealStructure := fun _ _ _ _ => Ok structured;
     env_verifyLocation := fun _ => Ok [str "https://maps.example/acme"];
     env_generateConceptImage := fun _ => Ok (Some (str "data:image/png;base64,AAAA"));
     env_getMDFinalOpinion := fun _ _ _ => Ok (str "Proceed to diligence.");
     env_analyzeDocument := fun _ _ => Ok structured;
     env_Date_now := str "1700000000000";
     env_traceId := str "ABC1234" |}.

Definition room (id title : string) : DealRoom :=
  {| deal_id := str id; deal_title := VStr (str title); deal_stage := Screening;
     deal_tags := []; deal_priority := str "High";
     deal_data := VObj [(str "companyName", VStr (str title))] |}.

(** Two rooms, the second one open. *)
Definition twoRooms : AppState :=
  {| agents := INITIAL_AGENTS; logs := []; messages := [];
     deals := [room "41" "Initech"; room "42" "Hooli"];
     activeDealId := Some (str "42"); isProcessing := false; activeEdge := None;
     started := [] |}.

Definition inRoom42 : Render :=
  {| r_activeDealId := Some (str "42"); r_portfolio := [];
     r_mandate := str "Fund: DiDi Capital" |}.

End FullRun.

(* ===================================================================== *)
(** * Values after hydration                                             *)
(* ===================================================================== *)

Module Revived.

Import Hydration.

(** No string inside the value begins like an ISO date and time. *)
Fixpoint noDateText (v : value) : bool :=
  match v with
  | VStr s => negb (matchesPrefix DATE_PATTERN s)
  | VArr items => forallb noDateText items
  | VObj props => forallb (fun kv => noDateText (snd kv)) props
  | _ => true
  end.

(** The skeleton of a value: the kind of each node, the keys of objects
    and the number of elements of arrays, with strings and dates taken as
    one kind of leaf. *)
Fixpoint sameSkeleton (v w : value) : bool :=
  match v, w with
  | VUndefined, VUndefined | VNull, VNull => true
  | VBool a, VBool b => Bool.eqb a b
  | VNum m e, VNum m' e' => (m =? m')%Z && (e =? e')%Z
  | (VStr s | VDate s), (VStr s' | VDate s') => jsstring_eqb s s'
  | VArr items, VArr items' =>
      (fix all (l l' : list value) : bool :=
         match l, l' with
         | [], [] => true
         | x :: r, x' :: r' => sameSkeleton x x' && all r r'
         | _, _ => false
         end) items items'
  | VObj props, VObj props' =>
      (fix all (l l' : list (jsstring * value)) : bool :=
         match l, l' with
         | [], [] => true
         | (k, x) :: r, (k', x') :: r' =>
             jsstring_eqb k k' && sameSkeleton x x' && all r r'
         | _, _ => false
         end) props props'
  | _, _ => false
  end.

Section ValueInduction.

(** Induction on a value with its elements and members. *)
Variable P : value -> Prop.
Hypothesis P_undefined : P VUndefined.
Hypothesis P_null : P VNull.
Hypothesis P_bool : forall b, P (VBool b).
Hypothesis P_num : forall m e, P (VNum m e).
Hypothesis P_str : forall s, P (VStr s).
Hypothesis P_date : forall s, P (VDate s).
Hypothesis P_arr : forall items, Forall P items -> P (VArr items).
Hypothesis P_obj : forall props, Forall (fun kv => P (snd kv)) props -> P (VObj props).

Fixpoint value_nested_ind (v : value) : P v :=
  match v with
  | VUndefined => P_undefined
  | VNull => P_null
  | VBool b => P_bool b
  | VNum m e => P_num m e
  | VStr s => P_str s
  | VDate s => P_date s
  | VArr items =>
      P_arr ((fix all (l : list value) : Forall P l :=
                match l with
                | [] => Forall_nil P
                | x :: r => Forall_cons x (value_nested_ind x) (all r)
                end) items)
  | VObj props =>
      P_obj ((fix all (l : list (jsstring * value))
                : Forall (fun kv => P (snd kv)) l :=
                match l with
                | [] => Forall_nil _
                | kv :: r => Forall_cons kv (value_nested_ind (snd kv)) (all r)
                end) props)
  end.

End ValueInduction.

End Revived.

(* ===================================================================== *)
(** * Properties                                                         *)
(* ===================================================================== *)

Import Scenario.

(** ** The JSON reader does not depend on its fuel *)

Section ReaderFuel.

Lemma skip_ws_length (s : jsstring) : length (skip_ws s) <= length s.
Proof.
  induction s as [| c s IH]; simpl; [ lia | ].
  destruct (is_json_ws c); simpl; lia.
Qed.

Lemma take_digits_length (s ds r : jsstring) :
  take_digits s = (ds, r) -> length ds + length r = length s.
Proof.
  revert ds r. induction s as [| c s IH]; simpl; intros ds r H.
  - injection H as <- <-. reflexivity.
  - destruct (is_digit c).
    + destruct (take_digits s) as [ds0 r0]. injection H as <- <-.
      specialize (IH ds0 r0 eq_refl). simpl. lia.
    + injection H as <- <-. simpl. lia.
Qed.

Lemma parse_string_body_shorter (n : nat) :
  forall s body r,
    length s <= n -> parse_string_body s = Some (body, r) -> length r < length s.
Proof.
  induction n as [| n IH]; intros s body r Hn H.
  { destruct s; [ discriminate | simpl in Hn; lia ]. }
  destruct s as [| c rest]; [ discriminate | ].
  simpl in Hn. cbn [parse_string_body] in H.
  assert (Hsub : forall t d,
             length t <= n ->
             match parse_string_body t with
             | Some (body0, r0) => Some (d :: body0, r0)
             | None => None
             end = Some (body, r) -> length r < length t).
  { intros t d Ht Hd.
    destruct (parse_string_body t) as [[b0 r0] |] eqn:E; [ | discriminate ].
    injection Hd as <- <-. eapply IH; eauto. }
  destruct (c =? DQUOTE)%char.
  { injection H as <- <-. simpl. lia. }
  destruct (c =? BACKSLASH)%char.
  - destruct rest as [| x rest']; [ discriminate | ]. simpl in Hn.
    cbv zeta in H.
    repeat match type of H with
           | (if ?b then match parse_string_body _ with _ => _ end else _) = _ =>
               destruct b;
               [ apply Hsub in H; simpl in *; lia | ]
           end.
    destruct (x =? "u")%char; [ | discriminate ].
    destruct rest' as [| h1 [| h2 [| h3 [| h4 rest'']]]]; try discriminate.
    destruct (hex_val h1), (hex_val h2), (hex_val h3), (hex_val h4);
      try discriminate.
    match type of H with
    | (if ?b then _ else _) = _ => destruct b; [ | discriminate ]
    end.
    apply Hsub in H; simpl in *; lia.
  - destruct (nat_of_ascii c <? 32); [ discriminate | ].
    apply Hsub in H; simpl in *; lia.
Qed.

Lemma parse_string_body_length (s body r : jsstring) :
  parse_string_body s = Some (body, r) -> length r < length s.
Proof. apply (@parse_string_body_shorter (length s)). lia. Qed.

Lemma parse_int_part_length (s : jsstring) (i : Z) (r : jsstring) :
  parse_int_part s = Some (i, r) -> length r < length s.
Proof.
  unfold parse_int_part.
  destruct (take_digits s) as [[| d ds] r0] eqn:E; [ discriminate | ].
  apply take_digits_length in E. simpl in E.
  destruct (d =? "0")%char.
  - destruct ds; [ | discriminate ]. intros H. injection H as _ <-. lia.
  - intros H. injection H as _ <-. lia.
Qed.

Lemma parse_frac_length (m : Z) (s : jsstring) (m' e : Z) (r : jsstring) :
  parse_frac m s = Some (m', e, r) -> length r <= length s.
Proof.
  unfold parse_frac. destruct s as [| c rest].
  - intros H. injection H as _ _ <-. lia.
  - destruct (c =? ".")%char.
    + destruct (take_digits rest) as [[| d ds] r0] eqn:E; [ discriminate | ].
      apply take_digits_length in E. intros H. injection H as _ _ <-.
      simpl in *. lia.
    + intros H. injection H as _ _ <-. lia.
Qed.

Lemma parse_exp_length (s : jsstring) (e : Z) (r : jsstring) :
  parse_exp s = Some (e, r) -> length r <= length s.
Proof.
  unfold parse_exp. destruct s as [| c rest].
  - intros H. injection H as _ <-. lia.
  - destruct ((c =? "e")%char || (c =? "E")%char).
    + set (signed := match rest with
                     | x :: r0 =>
                         if (x =? "-")%char then ((-1)%Z, r0)
                         else if (x =? "+")%char then (1%Z, r0)
                         else (1%Z, rest)
                     | [] => (1%Z, rest)
                     end).
      assert (Hs : length (snd signed) <= length rest).
      { subst signed. destruct rest as [| x r0]; simpl; [ lia | ].
        destruct (x =? "-")%char; simpl; [ lia | ].
        destruct (x =? "+")%char; simpl; lia. }
      destruct signed as [sign rest']. cbn [snd] in Hs.
      destruct (take_digits rest') as [[| d ds] r0] eqn:E; [ discriminate | ].
      apply take_digits_length in E. intros H. injection H as _ <-.
      simpl in *. lia.
    + intros H. injection H as _ <-. lia.
Qed.

Lemma parse_number_length (s : jsstring) (v : value) (r : jsstring) :
  parse_number s = Some (v, r) -> length r < length s.
Proof.
  unfold parse_number.
  set (signed := match s with
                 | c :: rest => if (c =? "-")%char then ((-1)%Z, rest) else (1%Z, s)
                 | [] => (1%Z, s)
                 end).
  assert (Hs1 : length (snd signed) <= length s).
  { subst signed. destruct s as [| c rest]; simpl; [ lia | ].
    destruct (c =? "-")%char; simpl; lia. }
  destruct signed as [sign s1]. cbn [snd] in Hs1.
  destruct (parse_int_part s1) as [[i s2] |] eqn:E1; [ | discriminate ].
  destruct (parse_frac i s2) as [[[m e1] s3] |] eqn:E2; [ | discriminate ].
  destruct (parse_exp s3) as [[e2 s4] |] eqn:E3; [ | discriminate ].
  intros H. injection H as _ <-.
  apply parse_int_part_length in E1. apply parse_frac_length in E2.
  apply parse_exp_length in E3. lia.
Qed.

Lemma expect_word_length (w : jsstring) (v0 : value) (s : jsstring)
      (v : value) (r : jsstring) :
  w <> [] -> expect_word w v0 s = Some (v, r) -> length r < length s.
Proof.
  unfold expect_word. intros Hw.
  destruct (startsWith w s) eqn:E; [ | discriminate ].
  intros H. injection H as _ <-.
  assert (length w <= length s).
  { clear Hw. revert s E. induction w as [| x w IH]; intros s E; simpl; [ lia | ].
    destruct s as [| c s]; [ discriminate | ]. simpl in *.
    apply andb_true_iff in E as [_ E]. apply IH in E. lia. }
  rewrite length_skipn. destruct w; [ contradiction | ]. simpl in *. lia.
Qed.

Lemma parse_scalar_length (c : ascii) (rest : jsstring) (v : value) (r : jsstring) :
  parse_scalar c rest = Some (v, r) -> length r <= length rest.
Proof.
  unfold parse_scalar.
  destruct (c =? DQUOTE)%char.
  { destruct (parse_string_body rest) as [[body r0] |] eqn:E; [ | discriminate ].
    intros H. injection H as _ <-. apply parse_string_body_length in E. lia. }
  repeat match goal with
         | |- (if ?b then _ else _) = _ -> _ =>
             destruct b;
             [ intros H; apply expect_word_length in H;
               [ simpl in H; lia | discriminate ] | ]
         end.
  intros H. apply parse_number_length in H. simpl in H. lia.
Qed.

(** A successful read consumes at least one character, and succeeds
    with the same result under any fuel of at least twice the number of
    characters consumed. *)
Lemma parse_fuel_enough (fuel : nat) :
  (forall s v r,
      parse_value fuel s = Some (v, r) ->
      length r < length s
      /\ forall fuel', 2 * (length s - length r) - 1 <= fuel' ->
                       parse_value fuel' s = Some (v, r))
  /\ (forall s acc v r,
        parse_elements fuel s acc = Some (v, r) ->
        length r < length s
        /\ forall fuel', 2 * (length s - length r) <= fuel' ->
                         parse_elements fuel' s acc = Some (v, r))
  /\ (forall s acc v r,
        parse_members fuel s acc = Some (v, r) ->
        length r < length s
        /\ forall fuel', 2 * (length s - length r) <= fuel' ->
                         parse_members fuel' s acc = Some (v, r)).
Proof.
  induction fuel as [| fuel (IHv & IHe & IHm)].
  { repeat split; discriminate. }
  split; [ | split ].
  - (* a value *)
    intros s v r H. cbn [parse_value] in H.
    pose proof (skip_ws_length s) as Hs.
    destruct (skip_ws s) as [| c rest] eqn:Es; [ discriminate | ].
    cbn [length] in Hs.
    destruct (c =? "{")%char eqn:Ec1.
    { pose proof (skip_ws_length rest) as Hr.
      destruct (skip_ws rest) as [| x rest'] eqn:Er; [ discriminate | ].
      cbn [length] in Hr.
      destruct (x =? "}")%char eqn:Ex.
      - injection H as <- <-. split; [ lia | ].
        intros [| fuel'] Hf; [ lia | ].
        cbn [parse_value]. rewrite Es, Ec1, Er, Ex. reflexivity.
      - apply IHm in H as [Hl Hf0]. split; [ lia | ].
        intros [| fuel'] Hf; [ lia | ].
        cbn [parse_value]. rewrite Es, Ec1, Er, Ex. apply Hf0. lia. }
    destruct (c =? "[")%char eqn:Ec2.
    { pose proof (skip_ws_length rest) as Hr.
      destruct (skip_ws rest) as [| x rest'] eqn:Er; [ discriminate | ].
      cbn [length] in Hr.
      destruct (x =? "]")%char eqn:Ex.
      - injection H as <- <-. split; [ lia | ].
        intros [| fuel'] Hf; [ lia | ].
        cbn [parse_value]. rewrite Es, Ec1, Ec2, Er, Ex. reflexivity.
      - apply IHe in H as [Hl Hf0]. split; [ lia | ].
        intros [| fuel'] Hf; [ lia | ].
        cbn [parse_value]. rewrite Es, Ec1, Ec2, Er, Ex. apply Hf0. lia. }
    pose proof (@parse_scalar_length c rest v r H) as Hl. split; [ lia | ].
    intros [| fuel'] Hf; [ lia | ].
    cbn [parse_value]. rewrite Es, Ec1, Ec2. exact H.
  - (* the elements of an array *)
    intros s acc v r H. cbn [parse_elements] in H.
    destruct (parse_value fuel s) as [[v1 r1] |] eqn:Ev; [ | discriminate ].
    apply IHv in Ev as [Hl1 Hf1].
    pose proof (skip_ws_length r1) as Hr.
    destruct (skip_ws r1) as [| c rest] eqn:Er; [ discriminate | ].
    cbn [length] in Hr.
    destruct (c =? ",")%char eqn:Ec1.
    { apply IHe in H as [Hl Hf0]. split; [ lia | ].
      intros [| fuel'] Hf; [ lia | ].
      cbn [parse_elements]. rewrite Hf1 by lia. rewrite Er, Ec1.
      apply Hf0. lia. }
    destruct (c =? "]")%char eqn:Ec2; [ | discriminate ].
    injection H as <- <-. split; [ lia | ].
    intros [| fuel'] Hf; [ lia | ].
    cbn [parse_elements]. rewrite Hf1 by lia. rewrite Er, Ec1, Ec2. reflexivity.
  - (* the members of an object *)
    intros s acc v r H. cbn [parse_members] in H.
    pose proof (skip_ws_length s) as Hs.
    destruct (skip_ws s) as [| q rest] eqn:Es; [ discriminate | ].
    cbn [length] in Hs.
    destruct (q =? DQUOTE)%char eqn:Eq; [ | discriminate ].
    destruct (parse_string_body rest) as [[key r0] |] eqn:Ek; [ | discriminate ].
    pose proof (@parse_string_body_length rest key r0 Ek) as Hk.
    pose proof (skip_ws_length r0) as Hr0.
    destruct (skip_ws r0) as [| colon r'] eqn:Er0; [ discriminate | ].
    cbn [length] in Hr0.
    destruct (colon =? ":")%char eqn:Ecolon; [ | discriminate ].
    destruct (parse_value fuel r') as [[v1 r1] |] eqn:Ev; [ | discriminate ].
    apply IHv in Ev as [Hl1 Hf1].
    pose proof (skip_ws_length r1) as Hr.
    destruct (skip_ws r1) as [| c rest'] eqn:Er; [ discriminate | ].
    cbn [length] in Hr.
    destruct (c =? ",")%char eqn:Ec1.
    { apply IHm in H as [Hl Hf0]. split; [ lia | ].
      intros [| fuel'] Hf; [ lia | ].
      cbn [parse_members]. rewrite Es, Eq, Ek, Er0, Ecolon.
      rewrite Hf1 by lia. rewrite Er, Ec1. apply Hf0. lia. }
    destruct (c =? "}")%char eqn:Ec2; [ | discriminate ].
    injection H as <- <-. split; [ lia | ].
    intros [| fuel'] Hf; [ lia | ].
    cbn [parse_members]. rewrite Es, Eq, Ek, Er0, Ecolon.
    rewrite Hf1 by lia. rewrite Er, Ec1, Ec2. reflexivity.
Qed.

(** Whatever the fuel, a read that succeeds and leaves only white space
    is the result of [JSON_parse]; [JSON_parse] fails only where every
    fuel does. *)
Theorem JSON_parse_any_fuel (fuel : nat) (s : jsstring) (v : value) (r : jsstring) :
  parse_value fuel s = Some (v, r) ->
  skip_ws r = [] ->
  JSON_parse s = Some v.
Proof.
  intros H Hr. unfold JSON_parse.
  destruct (parse_fuel_enough fuel) as (Hv & _ & _).
  destruct (Hv s v r H) as [Hl Hf].
  rewrite (Hf (2 * length s + 2)) by lia. rewrite Hr. reflexivity.
Qed.

End ReaderFuel.

(** ** Response sanitizer: concrete runs *)

Example repair_truncatedResponse :
  repairJSON truncatedResponse
  = json "{'companyName':'Acme','ebitda':12,'lboModel':{'irr':25}}".
Proof. vm_compute. reflexivity. Qed.

Example truncatedResponse_fails_direct_parse :
  JSON_parse truncatedResponse = None.
Proof. vm_compute. reflexivity. Qed.

(** C9. For the empty text (the only falsy string) cleanAndParseJSON
    answers the empty object at once: whatever the JSON reader would do,
    it is not consulted, and nothing is thrown.  Without the guard the
    empty text would fail both the direct parse and the parse after
    repair. *)
Theorem C9_empty_text_gives_empty_object :
  (forall parse : jsstring -> option value,
      cleanAndParseJSON_using parse [] = Ok (VObj []))
  /\ cleanAndParseJSON [] = Ok (VObj [])
  /\ JSON_parse [] = None
  /\ JSON_parse (repairJSON []) = None.
Proof.
  split; [ intros parse; reflexivity | ].
  split; [ reflexivity | ].
  split; vm_compute; reflexivity.
Qed.

(** C1, as stated, fails: after extraction and normalization of the
    truncated response the [lboModel] fields other than [irr] are not 0. *)
Lemma C1_remaining_lbo_fields_are_not_zero :
  ~ (exists d lbo,
        extractThenNormalize truncatedResponse (str "Acme") = Ok d
        /\ prop d (str "companyName") = VStr (str "Acme")
        /\ prop d (str "ebitda") = VInt 12
        /\ prop d (str "lboModel") = lbo
        /\ prop lbo (str "irr") = VInt 25
        /\ prop lbo (str "entryMultiple") = VInt 0
        /\ prop lbo (str "exitMultiple") = VInt 0
        /\ prop lbo (str "moic") = VInt 0
        /\ prop lbo (str "debttoEquity") = VInt 0).
Proof.
  intros (d & lbo & Hrun & _ & _ & Hlbo & _ & Hentry & _).
  vm_compute in Hrun. injection Hrun as <-.
  subst lbo. vm_compute in Hentry. discriminate Hentry.
Qed.

(** C1, amended. The truncated response is repaired and normalized to a
    record with companyName Acme, ebitda 12 and lboModel.irr 25; the
    lboModel object of the response is kept as it was read, so it holds
    irr alone and its other four fields are absent (undefined). *)
Theorem C1_truncated_response_normalized :
  exists d,
    extractThenNormalize truncatedResponse (str "Acme") = Ok d
    /\ prop d (str "companyName") = VStr (str "Acme")
    /\ prop d (str "ebitda") = VInt 12
    /\ prop d (str "lboModel") = VObj [(str "irr", VInt 25)]
    /\ prop (prop d (str "lboModel")) (str "irr") = VInt 25
    /\ prop (prop d (str "lboModel")) (str "entryMultiple") = VUndefined
    /\ prop (prop d (str "lboModel")) (str "exitMultiple") = VUndefined
    /\ prop (prop d (str "lboModel")) (str "moic") = VUndefined
    /\ prop (prop d (str "lboModel")) (str "debttoEquity") = VUndefined.
Proof.
  eexists. split; [ vm_compute; reflexivity | ].
  repeat split; vm_compute; reflexivity.
Qed.

(** ** The repair routine against its description *)

Section RepairRefinement.

Import RepairSpec.

Lemma lastChar_snoc (pre : jsstring) (c : ascii) : lastChar (pre ++ [c]) = Some c.
Proof. unfold lastChar. rewrite rev_app_distr. reflexivity. Qed.

Lemma nth_error_middle (pre suf : jsstring) (c : ascii) :
  nth_error (pre ++ c :: suf) (length pre) = Some c.
Proof.
  rewrite nth_error_app2 by lia. rewrite Nat.sub_diag. reflexivity.
Qed.

Lemma quoteAt_middle (pre suf : jsstring) (c : ascii) :
  quoteAt (pre ++ c :: suf) (length pre)
  = ((c =? DQUOTE)%char &&
     match lastChar pre with
     | Some p => negb (p =? BACKSLASH)%char
     | None => true
     end).
Proof.
  unfold quoteAt. rewrite nth_error_middle. f_equal.
  destruct pre as [| x pre'] using rev_ind.
  - reflexivity.
  - rewrite lastChar_snoc. rewrite length_app. simpl.
    replace (length pre' + 1 - 1) with (length pre') by lia.
    replace (length pre' + 1 =? 0) with false
      by (symmetry; apply Nat.eqb_neq; lia).
    rewrite <- app_assoc. simpl. rewrite nth_error_middle. reflexivity.
Qed.

Lemma snoc_app (pre suf : jsstring) (c : ascii) :
  pre ++ c :: suf = (pre ++ [c]) ++ suf.
Proof. rewrite <- app_assoc. reflexivity. Qed.

Lemma quoteCount_stream (suf pre : jsstring) (n : nat) :
  fold_left (fun count i => if quoteAt (pre ++ suf) i then S count else count)
            (seq (length pre) (length suf)) n
  = n + countMarks (notAfterBackslash (lastChar pre) suf).
Proof.
  revert pre n. induction suf as [| c suf IH]; intros pre n.
  - simpl. unfold countMarks. simpl. lia.
  - cbn [length seq fold_left]. rewrite quoteAt_middle.
    rewrite snoc_app.
    replace (S (length pre)) with (length (pre ++ [c]))
      by (rewrite length_app; simpl; lia).
    rewrite IH. rewrite lastChar_snoc.
    cbn [notAfterBackslash]. unfold countMarks. cbn [filter].
    destruct ((c =? DQUOTE)%char &&
              match lastChar pre with
              | Some p => negb (p =? BACKSLASH)%char
              | None => true
              end); simpl; lia.
Qed.

Lemma quoteCount_marks (s : jsstring) :
  quoteCount s = countMarks (notAfterBackslash None s).
Proof.
  unfold quoteCount. apply (quoteCount_stream s [] 0).
Qed.

Lemma stack_top_rev (stack : list ascii) :
  stack_top stack = hd_error (rev stack).
Proof. unfold stack_top. destruct (rev stack); reflexivity. Qed.

Lemma rev_removelast (stack : list ascii) :
  rev (removelast stack) = tl (rev stack).
Proof.
  destruct stack as [| x stack'] using rev_ind.
  - reflexivity.
  - rewrite removelast_last, rev_app_distr. reflexivity.
Qed.

Lemma scanStep_middle (pre suf : jsstring) (c : ascii) (inside : bool)
      (stack : list ascii) :
  let quote := ((c =? DQUOTE)%char &&
                match lastChar pre with
                | Some p => negb (p =? BACKSLASH)%char
                | None => true
                end) in
  forall rest,
    expectedClosers inside (rev stack) ((c, quote) :: rest)
    = expectedClosers
        (fst (scanStep (pre ++ c :: suf) (inside, stack) (length pre)))
        (rev (snd (scanStep (pre ++ c :: suf) (inside, stack) (length pre))))
        rest.
Proof.
  intros quote rest. unfold scanStep.
  rewrite nth_error_middle, quoteAt_middle. fold quote.
  cbn [expectedClosers].
  destruct quote; [ reflexivity | ].
  destruct inside; [ reflexivity | ]. cbn [negb].
  destruct (c =? "{")%char.
  { cbn [fst snd]. rewrite rev_app_distr. reflexivity. }
  destruct (c =? "[")%char.
  { cbn [fst snd]. rewrite rev_app_distr. reflexivity. }
  rewrite stack_top_rev.
  destruct ((c =? "}")%char || (c =? "]")%char).
  - destruct (rev stack) as [| top below] eqn:Hrev; cbn [hd_error andb].
    + cbn [fst snd]. rewrite Hrev. reflexivity.
    + destruct (top =? c)%char; cbn [fst snd].
      * rewrite rev_removelast, Hrev. reflexivity.
      * rewrite Hrev. reflexivity.
  - cbn [fst snd]. destruct (rev stack); reflexivity.
Qed.

Lemma scan_stream (suf pre : jsstring) (inside : bool) (stack : list ascii) :
  rev (snd (fold_left (scanStep (pre ++ suf)) (seq (length pre) (length suf))
                      (inside, stack)))
  = expectedClosers inside (rev stack)
      (combine suf (notAfterBackslash (lastChar pre) suf)).
Proof.
  revert pre inside stack. induction suf as [| c suf IH]; intros pre inside stack.
  - reflexivity.
  - cbn [length seq fold_left notAfterBackslash combine].
    rewrite (scanStep_middle pre suf c inside stack).
    destruct (scanStep (pre ++ c :: suf) (inside, stack) (length pre))
      as [inside' stack'] eqn:Hstep.
    cbn [fst snd].
    rewrite snoc_app.
    replace (S (length pre)) with (length (pre ++ [c]))
      by (rewrite length_app; simpl; lia).
    rewrite IH, lastChar_snoc. reflexivity.
Qed.

Lemma scan_closers (s : jsstring) :
  rev (snd (scan s)) = expectedClosers false [] (combine s (notAfterBackslash None s)).
Proof. unfold scan. apply (scan_stream s [] false []). Qed.

Lemma appendMissingClosers_rev (stack : list ascii) (repaired : jsstring) :
  appendMissingClosers (length stack) stack repaired = repaired ++ rev stack.
Proof.
  revert repaired. induction stack as [| c stack IH] using rev_ind; intros repaired.
  - simpl. rewrite app_nil_r. reflexivity.
  - rewrite length_app, Nat.add_comm. cbn [length Nat.add appendMissingClosers].
    rewrite stack_top_rev, rev_app_distr. cbn [rev app hd_error].
    rewrite removelast_last, IH, <- app_assoc. reflexivity.
Qed.

Lemma dropTrailingComma_slice (s : jsstring) :
  (if endsWith s ","%char then slice_0_m1 s else s) = dropTrailingComma s.
Proof.
  unfold endsWith, dropTrailingComma, slice_0_m1.
  destruct (rev s) as [| c before] eqn:Hrev; [ reflexivity | ].
  destruct (c =? ",")%char; [ | reflexivity ].
  rewrite <- (rev_involutive s), Hrev. simpl.
  apply removelast_last.
Qed.

Lemma odd_mod2 (n : nat) : Nat.odd n = negb (n mod 2 =? 0).
Proof.
  rewrite <- Nat.bit0_mod, Nat.bit0_odd. destruct (Nat.odd n); reflexivity.
Qed.

Lemma closeDanglingString_count (s : jsstring) :
  (if quoteCount s mod 2 =? 0 then s else s ++ [DQUOTE])
  = closeDanglingString (notAfterBackslash None) s.
Proof.
  unfold closeDanglingString. rewrite <- quoteCount_marks, odd_mod2.
  destruct (quoteCount s mod 2 =? 0); reflexivity.
Qed.

End RepairRefinement.

(** A truncated object whose first string ends with an escaped
    backslash does not parse as it stands. *)
Example escapedBackslash_fails_direct_parse :
  JSON_parse (json "{'a':'x\\','b':1") = None.
Proof. vm_compute. reflexivity. Qed.

(** On every text the repair routine performs, in order: (a) trim, then
    drop one trailing comma; (b) count the double quotes that are not
    immediately preceded by a backslash and append one quote iff the count
    is odd; (c) scan left to right, a quote of that kind toggling the
    string state, and outside strings push the matching closer for an
    opening brace or bracket and pop only on the expected closer, leaving
    other closers alone; (d) append the closers left on the stack, last
    opened first. *)
Lemma repairJSON_steps_with_one_character_lookbehind :
  forall text : jsstring,
    repairJSON text
    = RepairSpec.repairBySteps (RepairSpec.notAfterBackslash None) text.
Proof.
  intros text. unfold repairJSON, RepairSpec.repairBySteps.
  rewrite appendMissingClosers_rev.
  rewrite dropTrailingComma_slice.
  rewrite closeDanglingString_count.
  rewrite scan_closers. reflexivity.
Qed.

(** C3. The routine does not count the unescaped quotes, as its own
    comment says it does: it leaves out every quote that follows a
    backslash, also when that backslash is itself escaped.  On a truncated
    object whose first string ends with an escaped backslash, a text that
    fails the direct parse, the steps of the claim count six unescaped
    quotes, append only the closing brace, and the result parses.  The
    routine counts five, appends a quote and then the brace; its result
    does not parse, and cleanAndParseJSON throws on a truncation the
    described steps recover. *)
Theorem C3_quote_after_escaped_backslash :
  JSON_parse (json "{'a':'x\\','b':1") = None
  /\ RepairSpec.repairBySteps (RepairSpec.notEscaped false) (json "{'a':'x\\','b':1")
     = json "{'a':'x\\','b':1}"
  /\ JSON_parse
       (RepairSpec.repairBySteps (RepairSpec.notEscaped false) (json "{'a':'x\\','b':1"))
     = Some (VObj [ (str "a", VStr ["x"%char; "\"%char]); (str "b", VNum 1 0) ])
  /\ quoteCount (json "{'a':'x\\','b':1") = 5
  /\ repairJSON (json "{'a':'x\\','b':1") = json "{'a':'x\\','b':1'}"
  /\ repairJSON (json "{'a':'x\\','b':1")
     <> RepairSpec.repairBySteps (RepairSpec.notEscaped false) (json "{'a':'x\\','b':1")
  /\ JSON_parse (repairJSON (json "{'a':'x\\','b':1")) = None
  /\ cleanAndParseJSON (json "{'a':'x\\','b':1")
     = Throw (Error (str "JSON Parse Failed: Unexpected token in JSON")).
Proof.
  repeat split; try (vm_compute; reflexivity).
  vm_compute. discriminate.
Qed.

(** ** Locating the payload *)

Section PayloadLocation.

(** *** Matching a literal pattern *)

Lemma startsWith_app (p a rest : jsstring) :
  startsWith p a = true -> startsWith p (a ++ rest) = true.
Proof.
  revert a. induction p as [| x p IH]; intros a H; [ reflexivity | ].
  destruct a as [| c a]; [ discriminate | ]. simpl in *.
  apply andb_true_iff in H as [Hx Hp]. rewrite Hx. simpl. auto.
Qed.

Lemma startsWith_prefix (f q s : jsstring) :
  startsWith (f ++ q) s = true -> startsWith f s = true.
Proof.
  revert s. induction f as [| x f IH]; intros s H; [ reflexivity | ].
  destruct s as [| c s]; [ discriminate | ]. simpl in *.
  apply andb_true_iff in H as [Hx Hp]. rewrite Hx. simpl. eauto.
Qed.

Lemma startsWith_length (p s : jsstring) :
  startsWith p s = true -> length p <= length s.
Proof.
  revert s. induction p as [| x p IH]; intros s H; simpl; [ lia | ].
  destruct s as [| c s]; [ discriminate | ]. simpl in *.
  apply andb_true_iff in H as [_ Hp]. apply IH in Hp. lia.
Qed.

(** A match that begins in [a] cannot run into [rest] when the first
    character of [rest] does not occur in the pattern. *)
Definition headNotIn (p rest : jsstring) : Prop :=
  match rest with
  | [] => True
  | r :: _ => ~ In r p
  end.

Lemma startsWith_stops_at (p a rest : jsstring) :
  headNotIn p rest -> startsWith p (a ++ rest) = startsWith p a.
Proof.
  revert a. induction p as [| x p IH]; intros a Hrest; [ reflexivity | ].
  destruct a as [| c a].
  - simpl. destruct rest as [| r rest']; [ reflexivity | ].
    simpl in Hrest.
    destruct (Ascii.eqb_spec x r) as [-> | Hne]; [ | reflexivity ].
    exfalso. apply Hrest. left. reflexivity.
  - simpl. f_equal. apply IH.
    destruct rest as [| r rest']; [ exact I | ].
    simpl in *. intros Hin. apply Hrest. right. exact Hin.
Qed.

(** A match that covers the last character [z] of [body ++ [z]] needs [z]
    in the pattern. *)
Lemma startsWith_within (p body rest : jsstring) (z : ascii) :
  ~ In z p ->
  startsWith p ((body ++ [z]) ++ rest) = true ->
  startsWith p (body ++ [z]) = true.
Proof.
  revert body. induction p as [| x p IH]; intros body Hz H; [ reflexivity | ].
  destruct body as [| c body]; simpl in *.
  - apply andb_true_iff in H as [Hx _].
    apply Ascii.eqb_eq in Hx. subst. exfalso. apply Hz. left. reflexivity.
  - apply andb_true_iff in H as [Hx Hp]. rewrite Hx. simpl.
    apply IH; [ | exact Hp ]. intros Hin. apply Hz. right. exact Hin.
Qed.

Lemma includes_here (s pat : jsstring) :
  startsWith pat s = true -> includes s pat = true.
Proof. intros H. destruct s; simpl in *; rewrite H; reflexivity. Qed.

Lemma includes_tail (c : ascii) (s pat : jsstring) :
  includes (c :: s) pat = false -> includes s pat = false.
Proof.
  simpl. intros H. apply orb_false_iff in H as [_ H]. exact H.
Qed.

Lemma includes_head (s pat : jsstring) :
  includes s pat = false -> startsWith pat s = false.
Proof.
  intros H. destruct (startsWith pat s) eqn:E; [ | reflexivity ].
  apply includes_here in E. congruence.
Qed.

(** *** Removing the matches of a pattern *)

Lemma remove_matches_app (p pre rest : jsstring) (k : nat) :
  headNotIn p rest ->
  k <= length pre ->
  remove_matches p k (pre ++ rest)
  = remove_matches p k pre ++ remove_matches p 0 rest.
Proof.
  intros Hrest. revert k. induction pre as [| c pre IH]; intros k Hk.
  - simpl in Hk. replace k with 0 by lia. reflexivity.
  - simpl app. cbn [remove_matches]. destruct k as [| k].
    + change (c :: pre ++ rest) with ((c :: pre) ++ rest).
      rewrite (startsWith_stops_at p (c :: pre) rest Hrest).
      destruct (startsWith p (c :: pre)) eqn:Hm.
      * apply IH. apply startsWith_length in Hm. simpl in Hm. lia.
      * simpl. f_equal. apply IH. lia.
    + apply IH. simpl in Hk. lia.
Qed.

(** A text that does not hold the fence and ends with a character foreign
    to the pattern goes through unchanged. *)
Lemma remove_matches_keeps (p q body rest : jsstring) (z : ascii) :
  ~ In z (p ++ q) ->
  includes (body ++ [z]) p = false ->
  remove_matches (p ++ q) 0 ((body ++ [z]) ++ rest)
  = (body ++ [z]) ++ remove_matches (p ++ q) 0 rest.
Proof.
  intros Hz. induction body as [| c body IH]; intros Hinc.
  - simpl app. cbn [remove_matches].
    destruct (startsWith (p ++ q) (z :: rest)) eqn:Hm; [ | reflexivity ].
    exfalso.
    apply (startsWith_within (p ++ q) [] rest z Hz) in Hm.
    apply startsWith_prefix in Hm. apply includes_here in Hm.
    exact (eq_true_false_abs _ Hm Hinc).
  - simpl app. cbn [remove_matches].
    destruct (startsWith (p ++ q) (c :: (body ++ [z]) ++ rest)) eqn:Hm.
    + exfalso.
      apply (startsWith_within (p ++ q) (c :: body) rest z Hz) in Hm.
      apply startsWith_prefix in Hm. apply includes_here in Hm.
      exact (eq_true_false_abs _ Hm Hinc).
    + f_equal. apply IH.
      apply (includes_tail c (body ++ [z]) p). exact Hinc.
Qed.

Lemma remove_matches_chars (P : ascii -> Prop) (p s : jsstring) (k : nat) :
  Forall P s -> Forall P (remove_matches p k s).
Proof.
  intros H. revert k. induction H as [| c s Hc Hs IH]; intros k.
  - constructor.
  - cbn [remove_matches]. destruct k; [ | apply IH ].
    destruct (startsWith p (c :: s)); [ apply IH | ].
    constructor; [ exact Hc | apply IH ].
Qed.

(** *** Trimming *)

Lemma trimStart_chars (P : ascii -> Prop) (s : jsstring) :
  Forall P s -> Forall P (trimStart s).
Proof.
  induction 1 as [| c s Hc Hs IH]; simpl; [ constructor | ].
  destruct (is_space c); [ exact IH | constructor; assumption ].
Qed.

Lemma trimStart_app (a s : jsstring) (b : ascii) :
  is_space b = false ->
  trimStart (a ++ b :: s) = trimStart a ++ b :: s.
Proof.
  intros Hb. induction a as [| c a IH]; simpl.
  - rewrite Hb. reflexivity.
  - destruct (is_space c); [ exact IH | reflexivity ].
Qed.

Lemma trimStart_spaces (w s : jsstring) :
  forallb is_space w = true -> trimStart (w ++ s) = trimStart s.
Proof.
  induction w as [| c w IH]; simpl; intros H; [ reflexivity | ].
  apply andb_true_iff in H as [Hc Hw]. rewrite Hc. auto.
Qed.

Lemma forallb_rev (f : ascii -> bool) (l : jsstring) :
  forallb f (rev l) = forallb f l.
Proof.
  induction l as [| c l IH]; simpl; [ reflexivity | ].
  rewrite forallb_app, IH. simpl. rewrite andb_true_r. apply andb_comm.
Qed.

Lemma trimEnd_spaces (a w : jsstring) (z : ascii) :
  is_space z = false ->
  forallb is_space w = true ->
  trimEnd ((a ++ [z]) ++ w) = a ++ [z].
Proof.
  intros Hz Hw. unfold trimEnd.
  rewrite rev_app_distr, trimStart_spaces by (rewrite forallb_rev; exact Hw).
  rewrite rev_app_distr. simpl. rewrite Hz.
  change (z :: rev a) with (rev [z] ++ rev a).
  rewrite <- rev_app_distr. apply rev_involutive.
Qed.

(** *** The first brace or bracket *)

Lemma indexOf_from_skip (c : ascii) (a s : jsstring) (i : Z) :
  Forall (fun x => x <> c) a ->
  indexOf_from c (a ++ s) i = indexOf_from c s (i + Z.of_nat (length a))%Z.
Proof.
  intros H. revert i. induction H as [| x a Hx Ha IH]; intros i.
  - simpl. f_equal. lia.
  - simpl app. cbn [indexOf_from].
    destruct (Ascii.eqb_spec x c) as [E | _]; [ contradiction | ].
    rewrite IH. f_equal. simpl length. lia.
Qed.

Lemma indexOf_from_range (c : ascii) (s : jsstring) (i : Z) :
  indexOf_from c s i = (-1)%Z \/ (i <= indexOf_from c s i)%Z.
Proof.
  revert i. induction s as [| x s IH]; intros i; simpl.
  - left. reflexivity.
  - destruct (x =? c)%char; [ right; lia | ].
    destruct (IH (i + 1)%Z) as [E | E]; [ left; exact E | right; lia ].
Qed.

Lemma skipn_length_app (a s : jsstring) :
  skipn (Z.to_nat (Z.of_nat (length a))) (a ++ s) = s.
Proof.
  rewrite Nat2Z.id. rewrite skipn_app, Nat.sub_diag, skipn_all. reflexivity.
Qed.

End PayloadLocation.


Section EmbeddedDocument.

Variable parse : jsstring -> option value.

Lemma isBracket_cases (c : ascii) :
  isBracket c = true -> c = "{"%char \/ c = "["%char.
Proof.
  unfold isBracket. intros H. apply orb_true_iff in H as [H | H];
    apply Ascii.eqb_eq in H; auto.
Qed.

Lemma isCloser_cases (c : ascii) :
  isCloser c = true -> c = "}"%char \/ c = "]"%char.
Proof.
  unfold isCloser. intros H. apply orb_true_iff in H as [H | H];
    apply Ascii.eqb_eq in H; auto.
Qed.

Lemma bracketFree_Forall (s : jsstring) :
  bracketFree s = true ->
  Forall (fun c => c <> "{"%char /\ c <> "["%char) s.
Proof.
  unfold bracketFree. intros H. rewrite forallb_forall in H.
  apply Forall_forall. intros c Hc. specialize (H c Hc).
  apply negb_true_iff in H. unfold isBracket in H.
  apply orb_false_iff in H as [H1 H2].
  apply Ascii.eqb_neq in H1, H2. auto.
Qed.

Lemma endsWithCloser_split (doc : jsstring) :
  endsWithCloser doc = true ->
  exists body z, doc = body ++ [z] /\ isCloser z = true.
Proof.
  unfold endsWithCloser. intros H.
  destruct (rev doc) as [| z r] eqn:Hrev; [ discriminate | ].
  exists (rev r), z. split; [ | exact H ].
  rewrite <- (rev_involutive doc), Hrev. reflexivity.
Qed.

(** Stripping the fences of [pre ++ doc ++ post] strips [pre] and [post]
    and leaves [doc] alone. *)
Lemma stripFences_around (pre doc post : jsstring) :
  beginsWithBracket doc = true ->
  endsWithCloser doc = true ->
  includes doc FENCE = false ->
  stripFences (pre ++ doc ++ post) = stripFences pre ++ doc ++ stripFences post.
Proof.
  intros Hb He Hinc.
  destruct (@endsWithCloser_split doc He) as (body & z & Hdoc & Hz).
  destruct doc as [| b doc1]; [ discriminate | ]. simpl in Hb.
  assert (Hhead : forall q rest, In q [FENCE_JSON; FENCE] ->
                                 headNotIn q ((b :: doc1) ++ rest)).
  { intros q rest Hq. simpl.
    destruct (@isBracket_cases b Hb) as [-> | ->];
      destruct Hq as [<- | [<- | []]]; simpl; intuition discriminate. }
  assert (Hlast : forall q, In q [FENCE_JSON; FENCE] -> ~ In z q).
  { intros q Hq.
    destruct (@isCloser_cases z Hz) as [-> | ->];
      destruct Hq as [<- | [<- | []]]; simpl; intuition discriminate. }
  assert (Hkeep1 : forall rest,
            remove_matches FENCE_JSON 0 ((b :: doc1) ++ rest)
            = (b :: doc1) ++ remove_matches FENCE_JSON 0 rest).
  { intros rest. rewrite Hdoc in *.
    exact (@remove_matches_keeps FENCE (str "json") body rest z
             (Hlast FENCE_JSON (or_introl eq_refl)) Hinc). }
  assert (Hkeep2 : forall rest,
            remove_matches FENCE 0 ((b :: doc1) ++ rest)
            = (b :: doc1) ++ remove_matches FENCE 0 rest).
  { intros rest. rewrite Hdoc in *.
    pose proof (@remove_matches_keeps FENCE [] body rest z) as Hkeep.
    rewrite app_nil_r in Hkeep.
    exact (Hkeep (Hlast FENCE (or_intror (or_introl eq_refl))) Hinc). }
  unfold stripFences, replaceAll.
  rewrite (@remove_matches_app FENCE_JSON pre ((b :: doc1) ++ post) 0)
    by (try apply Hhead; simpl; auto; lia).
  rewrite Hkeep1.
  rewrite (@remove_matches_app FENCE (remove_matches FENCE_JSON 0 pre)
             ((b :: doc1) ++ remove_matches FENCE_JSON 0 post) 0)
    by (try apply Hhead; simpl; auto; lia).
  rewrite Hkeep2. reflexivity.
Qed.

(** The payload is found behind bracket-free prose. *)
Lemma payload_located (lead doc : jsstring) :
  Forall (fun c => c <> "{"%char /\ c <> "["%char) lead ->
  beginsWithBracket doc = true ->
  let cleanText := lead ++ doc in
  let firstCurly := indexOf cleanText "{"%char in
  let firstSquare := indexOf cleanText "["%char in
  let start :=
    if negb (firstCurly =? -1)%Z &&
       ((firstSquare =? -1)%Z || (firstCurly <? firstSquare)%Z)
    then firstCurly
    else if negb (firstSquare =? -1)%Z then firstSquare
    else (-1)%Z in
  (if negb (start =? -1)%Z then substring cleanText start else cleanText) = doc.
Proof.
  intros Hlead Hb. cbv zeta. unfold indexOf.
  rewrite !indexOf_from_skip
    by (eapply Forall_impl; [ | exact Hlead ]; cbv beta; intuition).
  destruct doc as [| b doc1]; [ discriminate | ]. simpl in Hb.
  assert (Hskip : substring (lead ++ b :: doc1) (Z.of_nat (length lead)) = b :: doc1)
    by (unfold substring; apply skipn_length_app).
  set (n := Z.of_nat (length lead)) in *.
  assert (Hn : (n =? -1)%Z = false) by (apply Z.eqb_neq; subst n; lia).
  cbn [indexOf_from]. rewrite !Z.add_0_l.
  destruct (isBracket_cases b Hb) as [-> | ->]; cbn [Ascii.eqb Bool.eqb andb].
  - (* the payload is an object *)
    rewrite Hn. cbn [negb andb].
    destruct (indexOf_from_range "["%char doc1 (n + 1)%Z) as [E | E].
    + rewrite E, Z.eqb_refl. cbn [orb]. rewrite Hn. exact Hskip.
    + replace (n <? indexOf_from "["%char doc1 (n + 1))%Z with true
        by (symmetry; apply Z.ltb_lt; lia).
      rewrite orb_true_r. rewrite Hn. exact Hskip.
  - (* the payload is an array *)
    rewrite Hn. cbn [negb orb].
    destruct (indexOf_from_range "{"%char doc1 (n + 1)%Z) as [E | E].
    + rewrite E, Z.eqb_refl. cbn [negb andb]. rewrite Hn. exact Hskip.
    + replace (indexOf_from "{"%char doc1 (n + 1) <? n)%Z with false
        by (symmetry; apply Z.ltb_ge; lia).
      rewrite andb_false_r. rewrite Hn. exact Hskip.
Qed.

Lemma embedded_document_parsed (pre doc post : jsstring) (v : value) :
  bracketFree pre = true ->
  beginsWithBracket doc = true ->
  endsWithCloser doc = true ->
  includes doc FENCE = false ->
  forallb is_space (stripFences post) = true ->
  parse doc = Some v ->
  cleanAndParseJSON_using parse (pre ++ doc ++ post) = Ok v.
Proof.
  intros Hpre Hb He Hinc Hpost Hparse.
  unfold cleanAndParseJSON_using.
  destruct (pre ++ doc ++ post) as [| c0 t0] eqn:Htext.
  { destruct doc; [ discriminate | ].
    apply app_eq_nil in Htext as [_ Htext]. discriminate. }
  rewrite <- Htext. clear c0 t0 Htext.
  fold (stripFences (pre ++ doc ++ post)).
  rewrite (@stripFences_around pre doc post Hb He Hinc).
  destruct (@endsWithCloser_split doc He) as (body & z & Hdoc & Hz).
  assert (Hzs : is_space z = false)
    by (destruct (@isCloser_cases z Hz) as [-> | ->]; reflexivity).
  assert (Hlead : Forall (fun c => c <> "{"%char /\ c <> "["%char)
                         (trimStart (stripFences pre))).
  { apply trimStart_chars. unfold stripFences, replaceAll.
    do 2 apply remove_matches_chars. apply bracketFree_Forall. exact Hpre. }
  assert (Htrim : trim (stripFences pre ++ doc ++ stripFences post)
                  = trimStart (stripFences pre) ++ doc).
  { unfold trim. destruct doc as [| b doc1]; [ discriminate | ].
    simpl in Hb.
    assert (Hbs : is_space b = false)
      by (destruct (@isBracket_cases b Hb) as [-> | ->]; reflexivity).
    change ((b :: doc1) ++ stripFences post) with (b :: doc1 ++ stripFences post).
    rewrite (@trimStart_app (stripFences pre) (doc1 ++ stripFences post) b Hbs).
    change (b :: doc1 ++ stripFences post) with ((b :: doc1) ++ stripFences post).
    rewrite Hdoc.
    rewrite (app_assoc (trimStart (stripFences pre)) (body ++ [z]) (stripFences post)).
    rewrite (app_assoc (trimStart (stripFences pre)) body [z]).
    apply trimEnd_spaces; assumption. }
  rewrite Htrim.
  pose proof (@payload_located (trimStart (stripFences pre)) doc Hlead Hb) as Hloc.
  cbv zeta in Hloc. rewrite Hloc. rewrite Hparse. reflexivity.
Qed.

End EmbeddedDocument.

Example fencedArray_split :
  fencedArray
  = (str "Sure, here are the results:" ++ [NEWLINE] ++ str "```json" ++ [NEWLINE])
    ++ json "['Acme','Globex']" ++ ([NEWLINE] ++ str "```").
Proof. reflexivity. Qed.

(** C4, as stated, fails: a valid document behind prose that holds a
    bracket is not extracted; the call throws. *)
Lemma C4_prose_with_bracket_throws :
  JSON_parse (json "{'a':1}") = Some (VObj [(str "a", VInt 1)])
  /\ cleanAndParseJSON (str "Results [final]: " ++ json "{'a':1}")
     = Throw (Error (str "JSON Parse Failed: " ++ message SyntaxError))
  /\ cleanAndParseJSON (str "Results [final]: " ++ json "{'a':1}")
     <> Ok (VObj [(str "a", VInt 1)]).
Proof.
  split; [ vm_compute; reflexivity | ].
  split; [ vm_compute; reflexivity | ].
  vm_compute. discriminate.
Qed.

(** C4, amended. Let a valid JSON document be an object or an array that
    runs from its opening brace or bracket to its closing one and holds
    no triple backtick.  Embedded after prose that holds no brace and no
    bracket, and before text that is white space once the code fences
    are removed, it is extracted: cleanAndParseJSON returns the value the
    direct parse of the document gives, and does not throw. *)
Theorem C4_embedded_document_extracted :
  forall (pre doc post : jsstring) (v : value),
    bracketFree pre = true ->
    beginsWithBracket doc = true ->
    endsWithCloser doc = true ->
    includes doc FENCE = false ->
    forallb is_space (stripFences post) = true ->
    JSON_parse doc = Some v ->
    cleanAndParseJSON (pre ++ doc ++ post) = Ok v.
Proof.
  intros pre doc post v. apply embedded_document_parsed.
Qed.

(** The scenario of the specification: the array in a fenced answer. *)
Lemma C4_fenced_array_extracted :
  cleanAndParseJSON fencedArray = Ok (VArr [VStr (str "Acme"); VStr (str "Globex")]).
Proof.
  rewrite fencedArray_split.
  apply C4_embedded_document_extracted; vm_compute; reflexivity.
Defined.

(** ** Deal record normalizer *)

Section Normalizer.

Lemma jsstring_eqb_refl (s : jsstring) : jsstring_eqb s s = true.
Proof.
  induction s as [| c s IH]; simpl; [ reflexivity | ].
  rewrite Ascii.eqb_refl. exact IH.
Qed.

Lemma lookup_obj_set_same (props : list (jsstring * value)) (k : jsstring) (v : value) :
  lookup k (obj_set props k v) = Some v.
Proof.
  induction props as [| [k' v'] props IH]; simpl.
  - rewrite jsstring_eqb_refl. reflexivity.
  - destruct (jsstring_eqb k k') eqn:E; simpl; rewrite E; [ reflexivity | exact IH ].
Qed.

(** Writing a property never removes another one. *)
Lemma lookup_obj_set_keeps (props : list (jsstring * value)) (k k0 : jsstring)
      (v : value) :
  lookup k0 props <> None -> lookup k0 (obj_set props k v) <> None.
Proof.
  induction props as [| [k' v'] props IH]; simpl; intros H.
  - contradiction.
  - destruct (jsstring_eqb k k') eqn:E; simpl;
      destruct (jsstring_eqb k0 k') eqn:E0; try discriminate; auto.
Qed.

Lemma jsstring_eqb_eq (a b : jsstring) : jsstring_eqb a b = true -> a = b.
Proof.
  revert b. induction a as [| c a IH]; destruct b as [| d b]; simpl;
    try discriminate; [ reflexivity | ].
  intros H. apply andb_true_iff in H as [Hc Hr].
  apply Ascii.eqb_eq in Hc. rewrite Hc, (IH b Hr). reflexivity.
Qed.

Lemma jsstring_eqb_neq (a b : jsstring) : a <> b -> jsstring_eqb a b = false.
Proof.
  intros H. destruct (jsstring_eqb a b) eqn:E; [ | reflexivity ].
  exfalso. exact (H (jsstring_eqb_eq a b E)).
Qed.

(** Writing a property leaves the value of every other name as it was. *)
Lemma lookup_obj_set_other (props : list (jsstring * value)) (k k0 : jsstring)
      (v : value) :
  k0 <> k -> lookup k0 (obj_set props k v) = lookup k0 props.
Proof.
  intros Hk. induction props as [| [k' v'] props IH]; simpl.
  - rewrite (jsstring_eqb_neq Hk). reflexivity.
  - destruct (jsstring_eqb k k') eqn:E; simpl.
    + apply jsstring_eqb_eq in E. subst k'.
      rewrite (jsstring_eqb_neq Hk). reflexivity.
    + destruct (jsstring_eqb k0 k'); [ reflexivity | exact IH ].
Qed.


Lemma lookup_spread_keeps (base : list (jsstring * value)) (v : value) (k0 : jsstring) :
  lookup k0 base <> None -> lookup k0 (spread base v) <> None.
Proof.
  unfold spread. generalize (own_enumerable v) as kvs.
  intros kvs. revert base. induction kvs as [| [k w] kvs IH]; intros base H.
  - exact H.
  - simpl. apply IH. apply lookup_obj_set_keeps. exact H.
Qed.

Lemma memo_complete (v : value) :
  forallb (has (VObj (spread defaultMemo v))) MEMO_FIELDS = true.
Proof.
  apply forallb_forall. intros k Hk. unfold has.
  destruct (lookup (str k) (spread defaultMemo v)) eqn:E; [ reflexivity | ].
  exfalso. revert E. apply lookup_spread_keeps.
  simpl in Hk.
  repeat (destruct Hk as [<- | Hk]; [ vm_compute; discriminate | ]).
  contradiction.
Qed.








End Normalizer.



(** ** Structuring and image generation *)

Section Structuring.

Variable generateContent : Request -> Result Response.

Lemma sanitizeDealData_object (data : value) (companyName : jsstring) (d : value) :
  sanitizeDealData data companyName = Ok d -> exists props, d = VObj props.
Proof.
  unfold sanitizeDealData. destruct (nullish data); [ discriminate | ].
  intros H. injection H as <-. eexists. reflexivity.
Qed.

Lemma prop_set_prop_same (props : list (jsstring * value)) (k : jsstring) (v : value) :
  prop (set_prop (VObj props) k v) k = v.
Proof. simpl. rewrite lookup_obj_set_same. reflexivity. Qed.

End Structuring.

(** C10. Whenever generateDealStructure succeeds, whatever the model
    answered, the candidatesAnalyzed field of the record it returns is
    the candidates argument: the assignment after normalization replaces
    any value the parsed JSON supplied. *)
Theorem C10_candidatesAnalyzed_is_the_argument :
  forall (generateContent : Request -> Result Response) (getClient : Result unit)
         (companyName rawData : jsstring) (candidates : list jsstring)
         (portfolioContext : list PortfolioCompany)
         (sent sent' : list Request) (d : value),
    generateDealStructure generateContent getClient companyName rawData candidates
                          portfolioContext sent = (Ok d, sent') ->
    prop d (str "candidatesAnalyzed") = VArr (map VStr candidates).
Proof.
  intros generateContent getClient companyName rawData candidates portfolioContext
         sent sent' d.
  unfold generateDealStructure, try_catch, bind, call, lift, ret, throw.
  destruct getClient as [[] | e]; [ | discriminate ].
  destruct (generateContent _) as [response | e]; [ | discriminate ].
  destruct (cleanAndParseJSON _) as [rawJSON | e]; [ | discriminate ].
  destruct (sanitizeDealData rawJSON companyName) as [data | e] eqn:Hdata;
    [ | discriminate ].
  intros H. injection H as <- _.
  destruct (sanitizeDealData_object _ _ Hdata) as [props ->].
  apply prop_set_prop_same.
Qed.

(** A run of C10: the model supplies its own candidatesAnalyzed, and the
    record carries the argument instead. *)
Lemma C10_model_value_overwritten :
  exists d sent',
    generateDealStructure
      (fun _ => Ok {| text := Some (json "{'companyName':'Acme','candidatesAnalyzed':['Old']}");
                      parts := [] |})
      (Ok tt) (str "Acme") (str "raw") [str "Acme"; str "Globex"] [] []
    = (Ok d, sent')
    /\ prop d (str "candidatesAnalyzed") = VArr [VStr (str "Acme"); VStr (str "Globex")].
Proof.
  eexists. eexists. split; [ vm_compute; reflexivity | ].
  eapply (@C10_candidatesAnalyzed_is_the_argument
            (fun _ => Ok {| text := Some (json "{'companyName':'Acme','candidatesAnalyzed':['Old']}");
                            parts := [] |})
            (Ok tt) (str "Acme") (str "raw") [str "Acme"; str "Globex"] [] []).
  vm_compute. reflexivity.
Defined.

(** With a client, generateConceptImage does not throw.  It sends the
    primary request (with imageSize); when that fails with a message
    holding 403, PERMISSION_DENIED or Quota it sends exactly one more
    request, to the fallback model and without imageSize, and answers with
    the image of that response, or null when it has none or the fallback
    fails too; on any other failure of the primary model it answers null
    with no second request; and when the primary model answers, the result
    is its first inline image, or null when no part holds one. *)
Lemma concept_image_with_client :
  forall (generateContent : Request -> Result Response) (prompt : jsstring)
         (sent : list Request),
    let primary :=
      imageRequest (logoPrompt prompt) (str "1:1") PRIMARY_IMAGE_MODEL true in
    let fallback :=
      imageRequest (logoPrompt prompt) (str "1:1") FALLBACK_IMAGE_MODEL false in
    let run := generateConceptImage generateContent (Ok tt) prompt sent in
    (exists r, fst run = Ok r)
    /\ option_map imageSize (imageConfig fallback) = Some None
    /\ (forall e,
          generateContent primary = Throw e -> quotaClass (message e) = true ->
          snd run = sent ++ [primary; fallback]
          /\ fst run = match generateContent fallback with
                       | Ok fallbackResponse =>
                           Ok (firstInlineImage (parts fallbackResponse))
                       | Throw _ => Ok None
                       end)
    /\ (forall e,
          generateContent primary = Throw e -> quotaClass (message e) = false ->
          run = (Ok None, sent ++ [primary]))
    /\ (forall response,
          generateContent primary = Ok response ->
          run = (Ok (firstInlineImage (parts response)), sent ++ [primary])).
Proof.
  intros generateContent prompt sent primary fallback run.
  subst run. unfold generateConceptImage, try_catch, bind, lift, call, ret.
  fold primary. fold fallback.
  split.
  { destruct (generateContent primary) as [response | e]; cbn [fst].
    - eexists. reflexivity.
    - destruct (quotaClass (message e)); cbn [fst]; [ | eexists; reflexivity ].
      rewrite <- app_assoc. cbn [app].
      destruct (generateContent fallback); eexists; reflexivity. }
  split; [ reflexivity | ].
  split.
  { intros e He Hq. rewrite He, Hq. rewrite <- app_assoc. cbn [app].
    destruct (generateContent fallback); split; reflexivity. }
  split.
  { intros e He Hq. rewrite He, Hq. reflexivity. }
  intros response Hr. rewrite Hr. reflexivity.
Qed.

(** The error a browser build of the SDK raises when no API key is set. *)
Example missing_key_run :
  generateConceptImage
    (fun _ => Ok {| text := None; parts := [ {| inlineData := Some (str "AAAA") |} ] |})
    (Throw (Error (str "An API Key must be set when running in a browser")))
    (str "Acme Software logo") []
  = (Throw (Error (str "An API Key must be set when running in a browser")), []).
Proof. reflexivity. Qed.


(** A run with a client: the primary model is refused with a 403, the
    fallback answers with an image. *)
Example concept_image_fallback_run :
  generateConceptImage
    (fun req => if jsstring_eqb (model req) PRIMARY_IMAGE_MODEL
                then Throw (Error (str "403 Forbidden"))
                else Ok {| text := None; parts := [ {| inlineData := Some (str "AAAA") |} ] |})
    (Ok tt) (str "Acme") []
  = (Ok (Some (str "data:image/png;base64,AAAA")),
     [ imageRequest (logoPrompt (str "Acme")) (str "1:1") PRIMARY_IMAGE_MODEL true;
       imageRequest (logoPrompt (str "Acme")) (str "1:1") FALLBACK_IMAGE_MODEL false ]).
Proof. vm_compute. reflexivity. Qed.

(** ** Pipeline step runner *)

Section StepRunner.

Variable stack_of : exn -> option jsstring.

Lemma role_applyUpdate (a : Agent) (u : AgentUpdate) : role (applyUpdate a u) = role a.
Proof. reflexivity. Qed.


Lemma updateAllAgents_sets_status (st : AgentStatus) (l : list Agent) :
  Forall (fun a => status a = st)
         (map (fun a => applyUpdate a {| upd_status := Some st;
                                         upd_currentTask := None |}) l).
Proof.
  apply Forall_forall. intros a Ha. apply in_map_iff in Ha as (a0 & <- & _).
  reflexivity.
Qed.

End StepRunner.


(** Two runs of the step runner from the start state: a work that
    resolves leaves the scout idle and one completed entry, a work that
    rejects leaves it in error with one error entry and the same error
    thrown again. *)
Example runStep_resolves :
  let run := runStep (fun _ => None) SCOUT (str "Market Scan") (ret (VInt 7))
                     (str "ABC1234") startState in
  fst run = Ok (VInt 7)
  /\ map log_status (logs (snd run)) = [COMPLETED]
  /\ map status (filter (fun a => role_eqb (role a) SCOUT) (agents (snd run))) = [IDLE].
Proof. vm_compute. repeat split; reflexivity. Qed.

Example runStep_rejects :
  let run := runStep (fun _ => None) SCOUT (str "Market Scan")
                     (@throw AppState value (Error (str "Scout Failed: 503")))
                     (str "ABC1234") startState in
  fst run = Throw (Error (str "Scout Failed: 503"))
  /\ map log_status (logs (snd run)) = [ERROR]
  /\ map status (filter (fun a => role_eqb (role a) SCOUT) (agents (snd run))) = [ERROR].
Proof. vm_compute. repeat split; reflexivity. Qed.

(** ** Orchestration: the run with no candidate *)


Ltac state_simpl :=
  cbn [fst snd started noteStarted setAgents setLogs setMessages setDeals
       setActiveDealId setIsProcessing setActiveEdge agents logs messages deals
       activeDealId isProcessing activeEdge].

(** C6, as stated, fails on its clause that no deal record is committed:
    the run that starts with no deal open and whose scout finds nothing
    ends with one room more than it began with, the Sourcing Scan room
    that the handler creates before its first step, holding the
    placeholder record, and the failure does not take it back. *)
Lemma C6_placeholder_room_is_committed :
  deals startState = []
  /\ fst emptyScoutRun = Ok tt
  /\ started (snd emptyScoutRun) = [SvcStrategy; SvcScout]
  /\ deals (snd emptyScoutRun)
     = [ {| deal_id := str "1700000000000";
            deal_title := VStr (str "Sourcing Scan");
            deal_stage := Sourcing;
            deal_tags := [];
            deal_priority := str "Medium";
            deal_data := placeholderData (str "Sourcing Scan") |} ]
  /\ prop (placeholderData (str "Sourcing Scan")) (str "companyName")
     = VStr (str "Sourcing Scan")
  /\ deals (snd emptyScoutRun) <> deals startState.
Proof.
  repeat split; try (vm_compute; reflexivity).
  vm_compute. discriminate.
Qed.

(** C6, amended. In a sourcing run (no attachment) whose strategy step
    succeeds and whose candidate search returns the empty list, the flow
    throws the zero-candidates error when only the strategy and scout
    services have been started, so before generateDealStructure runs.
    The handler catches it: no structuring result is merged into any deal
    (the collection is the initial one, plus the placeholder room the run
    created at its start when no deal was active); every agent is set to
    error; the conversation gains the user message, the strategy message
    and then one system message carrying the error; and the processing
    flag and the active edge are cleared. *)
Theorem C6_no_candidates_aborts_before_structuring :
  forall (stack_of : exn -> option jsstring)
         (js_String JSON_stringify : value -> jsstring)
         (getMDStrategy : jsstring -> jsstring -> Result jsstring)
         (scoutPotentialTargets : jsstring -> Result (list jsstring))
         (selectBestTarget : list jsstring -> jsstring -> Result jsstring)
         (performDeepDive : jsstring -> Result DeepDive)
         (generateDealStructure :
            value -> jsstring -> list jsstring -> list PortfolioCompany -> Result value)
         (verifyLocation : value -> Result (list jsstring))
         (generateConceptImage : jsstring -> Result (option jsstring))
         (getMDFinalOpinion : value -> jsstring -> jsstring -> Result jsstring)
         (analyzeDocument : list FileAttachment -> jsstring -> Result value)
         (Date_now traceId : jsstring) (rendered : Render)
         (text strategy : jsstring) (s : AppState),
    getMDStrategy text (r_mandate rendered) = Ok strategy ->
    scoutPotentialTargets strategy = Ok [] ->
    let flow :=
      sourcingFlow stack_of js_String getMDStrategy scoutPotentialTargets
        selectBestTarget performDeepDive generateDealStructure verifyLocation
        generateConceptImage getMDFinalOpinion Date_now traceId rendered text in
    let handler :=
      handleUserMessage stack_of js_String JSON_stringify getMDStrategy
        scoutPotentialTargets selectBestTarget performDeepDive
        generateDealStructure verifyLocation generateConceptImage
        getMDFinalOpinion analyzeDocument Date_now traceId rendered text [] in
    let s0 :=
      setIsProcessing true
        (setMessages (fun prev => prev ++ [userMessage rendered text]) s) in
    (exists s1,
        flow s0 = (Throw noTargets, s1)
        /\ started s1 = started s ++ [SvcStrategy; SvcScout])
    /\ exists s',
        handler s = (Ok tt, s')
        /\ started s' = started s ++ [SvcStrategy; SvcScout]
        /\ deals s' = deals s ++ (if is_set (r_activeDealId rendered) then []
                                  else [newDealRoom Date_now (str "Sourcing Scan")])
        /\ Forall (fun a => status a = ERROR) (agents s')
        /\ length (agents s') = length (agents s)
        /\ messages s' = messages s ++ [ userMessage rendered text;
                                         strategyMessage rendered strategy;
                                         failureMessage rendered ]
        /\ logs s' = logs s ++
             [ completedEntry MD (str "Analyzing Mandate & Strategy") traceId;
               completedEntry SCOUT (str "Market Scan & Sourcing (Live Web)") traceId ]
        /\ isProcessing s' = false
        /\ activeEdge s' = None.
Proof.
  intros stack_of js_String JSON_stringify getMDStrategy scoutPotentialTargets
         selectBestTarget performDeepDive generateDealStructure verifyLocation
         generateConceptImage getMDFinalOpinion analyzeDocument Date_now traceId
         rendered text strategy s Hstrategy Hscout flow handler s0.
  subst flow handler s0.
  unfold handleUserMessage, sourcingFlow, runStep, runStep_begin, runStep_await,
    createNewDealRoom, addMessage, updateAllAgents, updateAgent, invoke,
    try_finally, try_catch, bind, modify, ret, throw.
  rewrite Hstrategy.
  destruct (is_set (r_activeDealId rendered)); rewrite Hscout.
  - split.
    { eexists. split; [ reflexivity | ]. state_simpl.
      rewrite <- app_assoc. reflexivity. }
    eexists. split; [ reflexivity | ]. state_simpl.
    rewrite <- !app_assoc, app_nil_r.
    repeat split; try reflexivity.
    + apply updateAllAgents_sets_status.
    + rewrite !length_map. reflexivity.
  - split.
    { eexists. split; [ reflexivity | ]. state_simpl.
      rewrite <- app_assoc. reflexivity. }
    eexists. split; [ reflexivity | ]. state_simpl.
    rewrite <- !app_assoc.
    repeat split; try reflexivity.
    + apply updateAllAgents_sets_status.
    + rewrite !length_map. reflexivity.
Qed.

(** The concrete run of C6 from the start state. *)
Lemma C6_empty_scout_run :
  (fun _ _ => Ok (str "Search B2B software")) (str "Find a software target")
                                                (r_mandate startRender)
  = Ok (str "Search B2B software")
  /\ (fun _ : jsstring => @Ok (list jsstring) []) (str "Search B2B software") = Ok []
  /\ exists s',
      emptyScoutRun = (Ok tt, s')
      /\ started s' = [SvcStrategy; SvcScout]
      /\ Forall (fun a => status a = ERROR) (agents s')
      /\ length (deals s') = 1
      /\ length (messages s') = 3.
Proof.
  split; [ reflexivity | ]. split; [ reflexivity | ].
  destruct (@C6_no_candidates_aborts_before_structuring
              (fun _ => None) (fun _ => []) (fun _ => [])
              (fun _ _ => Ok (str "Search B2B software"))
              (fun _ => Ok [])
              (fun _ _ => unreachable) (fun _ => unreachable)
              (fun _ _ _ _ => unreachable)
              (fun _ => unreachable) (fun _ => unreachable)
              (fun _ _ _ => unreachable) (fun _ _ => unreachable)
              (str "1700000000000") (str "ABC1234") startRender
              (str "Find a software target") (str "Search B2B software")
              startState eq_refl eq_refl)
    as (_ & s' & Hrun & Hstarted & Hdeals & Hagents & _ & Hmessages & _).
  exists s'. split; [ exact Hrun | ].
  split; [ exact Hstarted | ].
  split; [ exact Hagents | ].
  split; [ rewrite Hdeals; reflexivity | rewrite Hmessages; reflexivity ].
Defined.

(** ** Hydration of the deal collection *)


(** C8, as stated, fails: the new key is absent and the legacy key holds a
    deal object, yet no collection is built from it, because the company
    name of that object is empty. *)
Lemma C8_nameless_legacy_deal_not_migrated :
  storeWith "didi_dealData" namelessDealText (str "didi_deals") = None
  /\ JSON_parse_reviving namelessDealText
     = Ok (VObj [ (str "companyName", VStr []);
                  (str "sector", VStr (str "Software"));
                  (str "ebitda", VInt 12) ])
  /\ dealsInitializer (storeWith "didi_dealData" namelessDealText) startupTime
     = VArr [].
Proof.
  split; [ reflexivity | ].
  split; vm_compute; reflexivity.
Qed.

Example legacy_deal_migrated :
  dealsInitializer (storeWith "didi_dealData" legacyDealText) startupTime
  = VArr [ VObj [ (str "id", VStr (str "legacy-migration"));
                  (str "title", VStr (str "Acme"));
                  (str "stage", VStr (str "Diligence"));
                  (str "data", VObj [ (str "companyName", VStr (str "Acme"));
                                      (str "sector", VStr (str "Software"));
                                      (str "ebitda", VInt 12) ]);
                  (str "createdAt", VDate startupTime);
                  (str "lastUpdated", VDate startupTime);
                  (str "tags", VArr [VStr (str "Migrated")]);
                  (str "priority", VStr (str "Medium")) ] ].
Proof. vm_compute. reflexivity. Qed.

(** The migrated state is the state a store with the new key gives. *)
Example migration_as_if_new_key :
  dealsInitializer (storeWith "didi_dealData" legacyDealText) startupTime
  = dealsInitializer (storeWith "didi_deals" migratedCollectionText) startupTime.
Proof. vm_compute. reflexivity. Qed.

(** C8, amended. The initializer of the deal collection always returns a
    value.  When the new key is absent and the legacy key holds text that
    deserializes to a truthy value with a truthy companyName, the result
    is the one-element collection that wraps that value.  When the new
    key is present and deserializes, the result is its value.  When both
    keys are absent, when the text read fails to deserialize, or when the
    legacy value is falsy or has no company name, the result is the
    default, the empty collection. *)
Theorem C8_deals_hydration :
  forall (localStorage : Storage) (now : jsstring),
    (forall old parsed,
        absent (localStorage (str "didi_deals")) = true ->
        localStorage (str "didi_dealData") = Some old ->
        absent (Some old) = false ->
        JSON_parse_reviving old = Ok parsed ->
        truthy parsed && truthy (prop parsed (str "companyName")) = true ->
        dealsInitializer localStorage now = VArr [migratedDeal now parsed])
    /\ (forall saved v,
          localStorage (str "didi_deals") = Some saved ->
          absent (Some saved) = false ->
          JSON_parse_reviving saved = Ok v ->
          dealsInitializer localStorage now = v)
    /\ (absent (localStorage (str "didi_deals")) = true ->
        absent (localStorage (str "didi_dealData")) = true ->
        dealsInitializer localStorage now = VArr [])
    /\ (forall saved e,
          localStorage (str "didi_deals") = Some saved ->
          absent (Some saved) = false ->
          JSON_parse_reviving saved = Throw e ->
          dealsInitializer localStorage now = VArr [])
    /\ (forall old e,
          absent (localStorage (str "didi_deals")) = true ->
          localStorage (str "didi_dealData") = Some old ->
          JSON_parse_reviving old = Throw e ->
          dealsInitializer localStorage now = VArr [])
    /\ (forall old parsed,
          absent (localStorage (str "didi_deals")) = true ->
          localStorage (str "didi_dealData") = Some old ->
          JSON_parse_reviving old = Ok parsed ->
          truthy parsed && truthy (prop parsed (str "companyName")) = false ->
          dealsInitializer localStorage now = VArr []).
Proof.
  intros localStorage now. unfold dealsInitializer, absent.
  repeat split.
  - intros old parsed Hnew Hold Hne Hparse Hguard.
    destruct (localStorage (str "didi_deals")) as [[| c saved] |];
      try discriminate Hnew;
      rewrite Hold; destruct old as [| c' old']; try discriminate Hne;
      rewrite Hparse, Hguard; reflexivity.
  - intros saved v Hnew Hne Hparse. rewrite Hnew.
    destruct saved as [| c saved']; [ discriminate Hne | ].
    rewrite Hparse. reflexivity.
  - intros Hnew Hold.
    destruct (localStorage (str "didi_deals")) as [[| c saved] |];
      try discriminate Hnew;
      destruct (localStorage (str "didi_dealData")) as [[| c' old] |];
      try discriminate Hold; reflexivity.
  - intros saved e Hnew Hne Hparse. rewrite Hnew.
    destruct saved as [| c saved']; [ discriminate Hne | ].
    rewrite Hparse. reflexivity.
  - intros old e Hnew Hold Hparse.
    destruct (localStorage (str "didi_deals")) as [[| c saved] |];
      try discriminate Hnew;
      rewrite Hold; destruct old as [| c' old']; try reflexivity;
      rewrite Hparse; reflexivity.
  - intros old parsed Hnew Hold Hparse Hguard.
    destruct (localStorage (str "didi_deals")) as [[| c saved] |];
      try discriminate Hnew;
      rewrite Hold; destruct old as [| c' old']; try reflexivity;
      rewrite Hparse, Hguard; reflexivity.
Qed.

(* ===================================================================== *)
(** * Further properties of the services and of the orchestration        *)
(* ===================================================================== *)

Import Agents Repaired.

(** ** The other agents of geminiService.ts *)

Section AgentFacts.

Variable generateContent : AgentRequest -> Result AgentResponse.
Variable js_String : value -> jsstring.
Variable randomId : nat -> jsstring.

(** *** The bracketed match of the scout *)

Lemma upToCloser_first (body post : jsstring) :
  forallb (fun c => negb (c =? "]")%char) body = true ->
  upToCloser (body ++ "]"%char :: post) = Some (body ++ ["]"%char]).
Proof.
  induction body as [| c body IH]; simpl; intros H; [ reflexivity | ].
  apply andb_true_iff in H as [Hc Hb]. apply negb_true_iff in Hc.
  rewrite Hc, (IH Hb). reflexivity.
Qed.

Lemma matchBracketed_first (pre body post : jsstring) :
  forallb (fun c => negb (c =? "[")%char) pre = true ->
  forallb (fun c => negb (c =? "]")%char) body = true ->
  matchBracketed (pre ++ "["%char :: body ++ "]"%char :: post)
  = Some ("["%char :: body ++ ["]"%char]).
Proof.
  intros Hpre Hbody. induction pre as [| c pre IH]; simpl.
  - rewrite (upToCloser_first body post Hbody). reflexivity.
  - simpl in Hpre. apply andb_true_iff in Hpre as [Hc Hp].
    apply negb_true_iff in Hc. rewrite Hc. exact (IH Hp).
Qed.

(** A match, when there is one, begins with the opening bracket and ends
    with the first closing bracket after it. *)
Lemma upToCloser_shape (s m : jsstring) :
  upToCloser s = Some m ->
  exists body, m = body ++ ["]"%char]
               /\ forallb (fun c => negb (c =? "]")%char) body = true.
Proof.
  revert m. induction s as [| c s IH]; simpl; intros m H; [ discriminate | ].
  destruct (c =? "]")%char eqn:Ec.
  - injection H as <-. exists []. apply Ascii.eqb_eq in Ec. subst. split; reflexivity.
  - destruct (upToCloser s) as [m0 |]; [ | discriminate ].
    injection H as <-. destruct (IH m0 eq_refl) as (body & -> & Hb).
    exists (c :: body). split; [ reflexivity | ]. simpl. rewrite Ec, Hb. reflexivity.
Qed.

Lemma cleanAndParseJSON_document (doc : jsstring) (v : value) :
  beginsWithBracket doc = true ->
  endsWithCloser doc = true ->
  includes doc FENCE = false ->
  JSON_parse doc = Some v ->
  cleanAndParseJSON doc = Ok v.
Proof.
  intros Hb He Hf Hp.
  pose proof (@embedded_document_parsed JSON_parse [] doc [] v
                eq_refl Hb He Hf eq_refl Hp) as H.
  rewrite app_nil_r in H. exact H.
Qed.

End AgentFacts.

(** X1. Whatever prose surrounds it, the scout reads the first bracketed
    group of the answer: when that group is a JSON array text (with no
    bracket inside and no code fence), the targets are its elements, and
    all the text after its closing bracket is ignored. *)
Theorem scout_reads_first_bracketed_array :
  forall (generateContent : AgentRequest -> Result AgentResponse)
         (strategyDirective : jsstring) (sent : list AgentRequest)
         (pre body post : jsstring) (items : list value) (response : AgentResponse),
    generateContent (scoutRequest strategyDirective) = Ok response ->
    r_text response = Some (pre ++ "["%char :: body ++ "]"%char :: post) ->
    forallb (fun c => negb (c =? "[")%char) pre = true ->
    forallb (fun c => negb (c =? "]")%char) body = true ->
    includes ("["%char :: body ++ ["]"%char]) FENCE = false ->
    JSON_parse ("["%char :: body ++ ["]"%char]) = Some (VArr items) ->
    scoutPotentialTargets generateContent strategyDirective sent
    = (Ok items, sent ++ [scoutRequest strategyDirective]).
Proof.
  intros generateContent strategyDirective sent pre body post items response
         Hcall Htext Hpre Hbody Hfence Hparse.
  unfold scoutPotentialTargets, try_catch, bind, ask, lift, ret.
  rewrite Hcall, Htext. cbv zeta.
  assert (Hnonempty : textOr (Some (pre ++ "["%char :: body ++ "]"%char :: post)) (str "[]")
                      = pre ++ "["%char :: body ++ "]"%char :: post).
  { destruct pre; reflexivity. }
  rewrite Hnonempty, (matchBracketed_first pre body post Hpre Hbody).
  rewrite (@cleanAndParseJSON_document ("["%char :: body ++ ["]"%char]) (VArr items));
    try assumption; try reflexivity.
  unfold endsWithCloser.
  change ("["%char :: body ++ ["]"%char]) with (("["%char :: body) ++ ["]"%char]).
  rewrite rev_app_distr. reflexivity.
Qed.

Lemma scout_reads_first_bracketed_array_run :
  exists sent',
    scoutPotentialTargets
      (fun _ => Ok {| r_text := Some (str "Here you go: " ++ json "['Acme','Globex']"
                                       ++ str " (see [1] for sources)");
                      r_groundingChunks := None |})
      (str "B2B software") []
    = (Ok [VStr (str "Acme"); VStr (str "Globex")], sent').
Proof.
  eexists.
  apply (@scout_reads_first_bracketed_array
           (fun _ => Ok {| r_text := Some (str "Here you go: " ++ json "['Acme','Globex']"
                                            ++ str " (see [1] for sources)");
                           r_groundingChunks := None |})
           (str "B2B software") [] (str "Here you go: ") (json "'Acme','Globex'")
           (str " (see [1] for sources)") [VStr (str "Acme"); VStr (str "Globex")]
           {| r_text := Some (str "Here you go: " ++ json "['Acme','Globex']"
                               ++ str " (see [1] for sources)");
              r_groundingChunks := None |});
    vm_compute; reflexivity.
Defined.

(** *** Strings: trimming twice, splitting at a separator *)

Section StringFacts.

Lemma trimStart_fixed (s : jsstring) :
  match s with [] => True | c :: _ => is_space c = false end ->
  trimStart s = s.
Proof.
  destruct s as [| c s]; simpl; intros H; [ reflexivity | ].
  rewrite H. reflexivity.
Qed.

Lemma trimStart_head (s : jsstring) :
  match trimStart s with [] => True | c :: _ => is_space c = false end.
Proof.
  induction s as [| c s IH]; simpl; [ exact I | ].
  destruct (is_space c) eqn:E; [ exact IH | exact E ].
Qed.

Lemma trimEnd_head (s : jsstring) :
  match s with [] => True | c :: _ => is_space c = false end ->
  match trimEnd s with [] => True | c :: _ => is_space c = false end.
Proof.
  destruct s as [| c s]; intros H; [ exact I | ].
  unfold trimEnd. simpl rev.
  rewrite (@trimStart_app (rev s) [] c H), rev_app_distr. simpl. exact H.
Qed.

Lemma trimEnd_idempotent (s : jsstring) : trimEnd (trimEnd s) = trimEnd s.
Proof.
  unfold trimEnd. rewrite rev_involutive.
  rewrite (trimStart_fixed (trimStart (rev s)) (trimStart_head (rev s))).
  reflexivity.
Qed.

Lemma trim_idempotent (s : jsstring) : trim (trim s) = trim s.
Proof.
  unfold trim.
  rewrite (trimStart_fixed (trimEnd (trimStart s))
             (trimEnd_head (trimStart s) (trimStart_head s))).
  apply trimEnd_idempotent.
Qed.

Lemma split_no_separator (sep : ascii) (s : jsstring) :
  forallb (fun c => negb (c =? sep)%char) s = true ->
  split sep s = [s].
Proof.
  induction s as [| c s IH]; simpl; intros H; [ reflexivity | ].
  apply andb_true_iff in H as [Hc Hs]. apply negb_true_iff in Hc.
  rewrite Hc, (IH Hs). reflexivity.
Qed.

Lemma split_at_first (sep : ascii) (a b : jsstring) :
  forallb (fun c => negb (c =? sep)%char) a = true ->
  split sep (a ++ sep :: b) = a :: split sep b.
Proof.
  induction a as [| c a IH]; simpl; intros H.
  - rewrite Ascii.eqb_refl. reflexivity.
  - apply andb_true_iff in H as [Hc Ha]. apply negb_true_iff in Hc.
    rewrite Hc, (IH Ha). reflexivity.
Qed.

Lemma truthyUris_nonempty (uri : Chunk -> option jsstring) (chunks : option (list Chunk)) :
  Forall (fun u => u <> []) (truthyUris uri chunks).
Proof.
  destruct chunks as [cs |]; simpl; [ | constructor ].
  induction cs as [| c cs IH]; simpl; [ constructor | ].
  destruct (uri c) as [[| x u] |]; simpl; try exact IH.
  constructor; [ discriminate | exact IH ].
Qed.

(** The uris kept are those of the chunks, in their order. *)
Lemma truthyUris_filter (uri : Chunk -> option jsstring) (cs : list Chunk) :
  map Some (truthyUris uri (Some cs))
  = filter (fun u => match u with Some (_ :: _) => true | _ => false end) (map uri cs).
Proof.
  simpl. induction cs as [| c cs IH]; simpl; [ reflexivity | ].
  destruct (uri c) as [[| x u] |]; simpl; rewrite IH; reflexivity.
Qed.

End StringFacts.

(** *** What a rejection of an agent looks like *)

Section Rejections.

Variable generateContent : AgentRequest -> Result AgentResponse.

Lemma rethrow_rejectsWith (A : Type) (pfx : string) (body : M (list AgentRequest) A)
      (sent : list AgentRequest) :
  rejectsWith pfx (fst (try_catch body (rethrow pfx) sent)).
Proof.
  unfold try_catch, rethrow, throw.
  destruct (body sent) as [[a | e] sent']; simpl; [ exact I | ].
  exists (message e). reflexivity.
Qed.

End Rejections.

(** X2. When the model answers with no text at all, the agents fall into
    two groups.  The scout, the portfolio ingestion and the deliverable
    outline read the missing text as the empty array and resolve with no
    element, and the deep dive resolves with its placeholder text; the
    strategy, the selection, the final opinion and the document analysis
    reject, each with its own message. *)
Theorem agents_on_empty_answer :
  forall (generateContent : AgentRequest -> Result AgentResponse)
         (js_String : value -> jsstring) (randomId : nat -> jsstring)
         (sent : list AgentRequest),
    (forall req, exists response,
        generateContent req = Ok response /\ noText response = true) ->
    (forall directive,
        fst (scoutPotentialTargets generateContent directive sent) = Ok [])
    /\ (forall files,
           fst (ingestPortfolioDocuments generateContent randomId files sent) = Ok [])
    /\ (forall dealData type,
           nullish dealData = false ->
           fst (generateDeliverableContent generateContent js_String dealData type sent)
           = Ok (VArr []))
    /\ (forall companyName,
           exists sources,
             fst (performDeepDive generateContent companyName sent)
             = Ok {| dd_text := str "No specific data found."; dd_sources := sources |})
    /\ (forall userPrompt mandate,
           fst (getMDStrategy generateContent userPrompt mandate sent)
           = Throw (Error (str "MD Strategy Generation Failed: Empty response from MD Agent")))
    /\ (forall target targets mandate,
           fst (selectBestTarget generateContent (target :: targets) mandate sent)
           = Throw (Error (str "Target Selection Failed: Empty selection response")))
    /\ (forall dealData mandate originalPrompt,
           nullish dealData = false ->
           fst (getMDFinalOpinion generateContent js_String dealData mandate originalPrompt sent)
           = Throw (Error (str "Opinion Generation Failed: No opinion generated")))
    /\ (forall files prompt,
           fst (analyzeDocument generateContent files prompt sent)
           = Throw (Error (str "Document Analysis Failed: Failed to extract company name from document"))).
Proof.
  intros generateContent js_String randomId sent Hempty.
  assert (Htext : forall req,
             exists response, generateContent req = Ok response
                              /\ (r_text response = None \/ r_text response = Some [])).
  { intros req. destruct (Hempty req) as (response & Hc & Hn).
    exists response. split; [ exact Hc | ].
    unfold noText in Hn. destruct (r_text response) as [[| c t] |]; auto; discriminate. }
  repeat split.
  - intros directive. destruct (Htext (scoutRequest directive)) as (response & Hc & [Ht | Ht]);
      unfold scoutPotentialTargets, try_catch, bind, ask, lift, ret;
      rewrite Hc, Ht; reflexivity.
  - intros files. destruct (Htext (ingestRequest files)) as (response & Hc & [Ht | Ht]);
      unfold ingestPortfolioDocuments, try_catch, bind, ask, lift, ret;
      rewrite Hc, Ht; reflexivity.
  - intros dealData type Hd.
    destruct (Htext (deliverableRequest js_String dealData type)) as (response & Hc & [Ht | Ht]);
      unfold generateDeliverableContent, try_catch, bind, ask, lift, ret, get;
      rewrite Hd, Hc, Ht; reflexivity.
  - intros companyName.
    destruct (Htext (deepDiveRequest companyName)) as (response & Hc & [Ht | Ht]);
      eexists; unfold performDeepDive, try_catch, bind, ask, lift, ret;
      rewrite Hc, Ht; reflexivity.
  - intros userPrompt mandate.
    destruct (Htext (strategyRequest userPrompt mandate)) as (response & Hc & [Ht | Ht]);
      unfold getMDStrategy, try_catch, bind, ask, lift, ret;
      rewrite Hc, Ht; reflexivity.
  - intros target targets mandate.
    destruct (Htext (selectRequest (target :: targets) mandate)) as (response & Hc & [Ht | Ht]);
      unfold selectBestTarget, try_catch, bind, ask, lift, ret;
      rewrite Hc, Ht; reflexivity.
  - intros dealData mandate originalPrompt Hd.
    destruct (Htext (opinionRequest js_String dealData mandate originalPrompt))
      as (response & Hc & [Ht | Ht]);
      unfold getMDFinalOpinion, try_catch, bind, ask, lift, ret, get;
      rewrite Hd, Hc, Ht; reflexivity.
  - intros files prompt.
    destruct (Htext (analyzeRequest files prompt)) as (response & Hc & [Ht | Ht]);
      unfold analyzeDocument, try_catch, bind, ask, lift, ret;
      rewrite Hc, Ht; reflexivity.
Qed.

Lemma agents_on_empty_answer_run :
  fst (scoutPotentialTargets
         (fun _ => Ok {| r_text := None; r_groundingChunks := None |})
         (str "B2B software") [])
  = Ok []
  /\ fst (analyzeDocument
            (fun _ => Ok {| r_text := None; r_groundingChunks := None |})
            [] (str "teaser") [])
     = Throw (Error (str "Document Analysis Failed: Failed to extract company name from document")).
Proof.
  pose proof (@agents_on_empty_answer
                (fun _ => Ok {| r_text := None; r_groundingChunks := None |})
                (fun _ => []) (fun _ => []) []
                (fun req => ex_intro _ {| r_text := None; r_groundingChunks := None |}
                                     (conj eq_refl eq_refl))) as H.
  split; [ apply H | apply H ].
Defined.

(** X3. The selection never asks the model about an empty candidate list:
    it rejects at once and sends nothing.  When it resolves, the candidate
    list was not empty, exactly one request was sent, and the name is the
    trimmed answer: not empty, and with no white space left at either end. *)
Theorem selection_resolves_with_trimmed_name :
  forall (generateContent : AgentRequest -> Result AgentResponse)
         (mandate : jsstring) (sent : list AgentRequest),
    selectBestTarget generateContent [] mandate sent
    = (Throw (Error (str "Target Selection Failed: No targets provided for selection")), sent)
    /\ forall targets name sent',
         selectBestTarget generateContent targets mandate sent = (Ok name, sent') ->
         targets <> []
         /\ sent' = sent ++ [selectRequest targets mandate]
         /\ name <> []
         /\ trim name = name
         /\ exists response text,
              generateContent (selectRequest targets mandate) = Ok response
              /\ r_text response = Some text /\ name = trim text.
Proof.
  intros generateContent mandate sent. split; [ reflexivity | ].
  intros targets name sent'.
  unfold selectBestTarget, try_catch, bind, ask, lift, ret, throw, rethrow.
  destruct targets as [| t ts]; [ discriminate | ].
  destruct (generateContent (selectRequest (t :: ts) mandate)) as [response | e] eqn:Hc;
    [ | discriminate ].
  destruct (r_text response) as [text |] eqn:Ht; simpl; [ | discriminate ].
  destruct (trim text) as [| c rest] eqn:Hn; [ discriminate | ].
  intros H. injection H as <- <-.
  repeat split; try discriminate.
  - rewrite <- Hn. apply trim_idempotent.
  - exists response, text. rewrite Hn. auto.
Qed.

(** X4. The deep dive and the location check resolve whenever the model
    call does, whatever the answer holds.  The text of a deep dive is never
    empty; the sources are the non-empty web uris of the grounding chunks,
    in their order, and none when the answer has no chunks; the location
    check does the same with the maps uris. *)
Theorem grounded_agents_keep_truthy_uris :
  forall (generateContent : AgentRequest -> Result AgentResponse)
         (name : jsstring) (sent : list AgentRequest) (response : AgentResponse),
    (generateContent (deepDiveRequest name) = Ok response ->
     exists dive,
       performDeepDive generateContent name sent = (Ok dive, sent ++ [deepDiveRequest name])
       /\ dd_text dive <> []
       /\ (forall t, r_text response = Some t -> t <> [] -> dd_text dive = t)
       /\ Forall (fun u => u <> []) (dd_sources dive)
       /\ match r_groundingChunks response with
          | None => dd_sources dive = []
          | Some chunks =>
              map Some (dd_sources dive)
              = filter (fun u => match u with Some (_ :: _) => true | _ => false end)
                       (map web_uri chunks)
          end)
    /\ (generateContent (locationRequest name) = Ok response ->
        exists uris,
          verifyLocation generateContent name sent = (Ok uris, sent ++ [locationRequest name])
          /\ Forall (fun u => u <> []) uris
          /\ match r_groundingChunks response with
             | None => uris = []
             | Some chunks =>
                 map Some uris
                 = filter (fun u => match u with Some (_ :: _) => true | _ => false end)
                          (map maps_uri chunks)
             end).
Proof.
  intros generateContent name sent response. split; intros Hc.
  - eexists. unfold performDeepDive, try_catch, bind, ask, ret. rewrite Hc.
    split; [ reflexivity | ]. cbn [dd_text dd_sources].
    repeat split.
    + destruct (r_text response) as [[| c t] |]; discriminate.
    + intros t Ht Hne. rewrite Ht. destruct t; [ contradiction | reflexivity ].
    + apply truthyUris_nonempty.
    + destruct (r_groundingChunks response) as [chunks |];
        [ apply truthyUris_filter | reflexivity ].
  - eexists. unfold verifyLocation, try_catch, bind, ask, ret. rewrite Hc.
    split; [ reflexivity | ].
    split; [ apply truthyUris_nonempty | ].
    destruct (r_groundingChunks response) as [chunks |];
      [ apply truthyUris_filter | reflexivity ].
Qed.

(** X5. The base64 text handed to the model is what stands between the
    first and the second comma of the file's data: for a data URI made of a
    header, a comma and a payload it is the payload; anything after a
    second comma is dropped; and when the data holds no comma at all the
    part is sent with undefined data. *)
Theorem base64Data_is_second_piece :
  forall (header payload more : jsstring),
    forallb (fun c => negb (c =? ",")%char) header = true ->
    forallb (fun c => negb (c =? ",")%char) payload = true ->
    base64Data (header ++ ","%char :: payload) = VStr payload
    /\ base64Data (header ++ ","%char :: payload ++ ","%char :: more) = VStr payload
    /\ base64Data header = VUndefined.
Proof.
  intros header payload more Hh Hp. unfold base64Data. repeat split.
  - rewrite (@split_at_first _ _ payload Hh), (@split_no_separator _ _ Hp). reflexivity.
  - rewrite (@split_at_first _ _ (payload ++ ","%char :: more) Hh),
      (@split_at_first _ _ more Hp).
    reflexivity.
  - rewrite (@split_no_separator _ _ Hh). reflexivity.
Qed.

Lemma base64Data_is_second_piece_run :
  base64Data (str "data:application/pdf;base64,JVBERi0x") = VStr (str "JVBERi0x")
  /\ base64Data (str "JVBERi0x") = VUndefined.
Proof.
  pose proof (@base64Data_is_second_piece (str "data:application/pdf;base64")
                (str "JVBERi0x") [] eq_refl eq_refl) as [H1 [_ _]].
  pose proof (@base64Data_is_second_piece (str "JVBERi0x") [] [] eq_refl eq_refl)
    as [_ [_ H3]].
  split; [ exact H1 | exact H3 ].
Defined.

(** X6. A document analysis that resolves hands back the parsed answer
    itself, and that answer has a truthy company name; one request was
    sent, with one inline part per attached file, in the files' order and
    with each file's MIME type. *)
Theorem analysis_resolves_with_a_named_company :
  forall (generateContent : AgentRequest -> Result AgentResponse)
         (files : list FileAttachment) (prompt : jsstring)
         (sent sent' : list AgentRequest) (result : value),
    analyzeDocument generateContent files prompt sent = (Ok result, sent') ->
    truthy (prop result (str "companyName")) = true
    /\ nullish result = false
    /\ (exists response,
           generateContent (analyzeRequest files prompt) = Ok response
           /\ cleanAndParseJSON (textOr (r_text response) (str "{}")) = Ok result)
    /\ sent' = sent ++ [analyzeRequest files prompt]
    /\ map part_mimeType (a_files (analyzeRequest files prompt)) = map file_type files.
Proof.
  intros generateContent files prompt sent sent' result.
  unfold analyzeDocument, try_catch, bind, ask, lift, ret, throw, rethrow.
  destruct (generateContent (analyzeRequest files prompt)) as [response | e] eqn:Hc;
    [ | discriminate ].
  destruct (cleanAndParseJSON (textOr (r_text response) (str "{}"))) as [parsed | e] eqn:Hp;
    [ | discriminate ].
  unfold get. destruct (nullish parsed) eqn:Hn; [ discriminate | ].
  destruct (truthy (prop parsed (str "companyName"))) eqn:Ht; [ | discriminate ].
  intros H. injection H as <- <-.
  repeat split; try assumption.
  - exists response. split; [ reflexivity | exact Hp ].
  - unfold analyzeRequest, fileParts. cbn [a_files]. rewrite map_map. reflexivity.
Qed.

Lemma analysis_resolves_with_a_named_company_run :
  truthy (prop (VObj [(str "companyName", VStr (str "Acme")); (str "ebitda", VInt 12)])
               (str "companyName")) = true.
Proof.
  apply (@analysis_resolves_with_a_named_company
           (fun _ => Ok {| r_text := Some (json "{'companyName':'Acme','ebitda':12}");
                           r_groundingChunks := None |})
           [] (str "teaser") []
           [analyzeRequest [] (str "teaser")]
           (VObj [(str "companyName", VStr (str "Acme")); (str "ebitda", VInt 12)])).
  vm_compute. reflexivity.
Defined.

(** *** Identifiers of ingested companies *)

Section Ingestion.

Variable randomId : nat -> jsstring.

Lemma withIds_elements (companies : list value) :
  forall (i : nat) (out : list value),
    withIds randomId i companies = Ok out ->
    length out = length companies
    /\ forall n company,
         nth_error companies n = Some company ->
         nullish company = false
         /\ exists props,
              nth_error out n = Some (VObj props)
              /\ lookup (str "id") props
                 = Some (or_else (prop company (str "id")) (VStr (randomId (i + n))))
              /\ forall k, k <> str "id" ->
                           lookup k props = lookup k (spread [] company).
Proof.
  induction companies as [| c rest IH]; intros i out H.
  - injection H as <-. split; [ reflexivity | ].
    intros [| n] company Hn; discriminate.
  - simpl in H. unfold get in H.
    destruct (nullish c) eqn:Hc; [ discriminate | ].
    destruct (withIds randomId (S i) rest) as [rest' | e] eqn:Hr; [ | discriminate ].
    injection H as <-. destruct (IH (S i) rest' Hr) as [Hlen Hel].
    split; [ simpl; rewrite Hlen; reflexivity | ].
    intros [| n] company Hn; simpl in Hn.
    + injection Hn as <-. split; [ exact Hc | ].
      eexists. split; [ reflexivity | ].
      rewrite Nat.add_0_r. split; [ apply lookup_obj_set_same | ].
      intros k Hk. apply lookup_obj_set_other. exact Hk.
    + replace (i + S n) with (S i + n) by lia. exact (Hel n company Hn).
Qed.

(** One null or undefined element makes the whole mapping fail. *)
Lemma withIds_nullish (companies : list value) (i : nat) :
  existsb nullish companies = true ->
  withIds randomId i companies = Throw TypeError.
Proof.
  revert i. induction companies as [| c rest IH]; intros i H; [ discriminate | ].
  simpl in H. simpl. unfold get. destruct (nullish c); [ reflexivity | ].
  simpl in H. rewrite (IH (S i) H). reflexivity.
Qed.

End Ingestion.

(** X7. A portfolio ingestion that resolves returns one object per
    element of the parsed array, in the array's order.  Each object has the
    element's own properties, and its id is the element's id when that is
    truthy and a freshly drawn identifier otherwise; no element was null or
    undefined. *)
Theorem ingestion_keeps_or_assigns_ids :
  forall (generateContent : AgentRequest -> Result AgentResponse)
         (randomId : nat -> jsstring) (files : list FileAttachment)
         (sent sent' : list AgentRequest) (out : list value),
    ingestPortfolioDocuments generateContent randomId files sent = (Ok out, sent') ->
    exists response companies,
      generateContent (ingestRequest files) = Ok response
      /\ cleanAndParseJSON (textOr (r_text response) (str "[]")) = Ok (VArr companies)
      /\ length out = length companies
      /\ forall n company,
           nth_error companies n = Some company ->
           nullish company = false
           /\ exists props,
                nth_error out n = Some (VObj props)
                /\ lookup (str "id") props
                   = Some (or_else (prop company (str "id")) (VStr (randomId n)))
                /\ forall k, k <> str "id" ->
                             lookup k props = lookup k (spread [] company).
Proof.
  intros generateContent randomId files sent sent' out.
  unfold ingestPortfolioDocuments, try_catch, bind, ask, lift, ret, throw, rethrow.
  destruct (generateContent (ingestRequest files)) as [response | e] eqn:Hc;
    [ | discriminate ].
  destruct (cleanAndParseJSON (textOr (r_text response) (str "[]"))) as [parsed | e] eqn:Hp;
    [ | discriminate ].
  destruct parsed as [ | | b | m e | s | d | companies | props ]; try discriminate.
  destruct (withIds randomId 0 companies) as [out0 | e] eqn:Hw; [ | discriminate ].
  intros H. injection H as <- <-.
  exists response, companies. split; [ reflexivity | ]. split; [ exact Hp | ].
  exact (@withIds_elements randomId companies 0 out0 Hw).
Qed.

Lemma ingestion_keeps_or_assigns_ids_run :
  exists response companies,
    (fun _ : AgentRequest =>
       Ok {| r_text := Some (json "[{'name':'Acme','id':'a1'},{'name':'Globex'}]");
             r_groundingChunks := None |}) (ingestRequest []) = Ok response
    /\ cleanAndParseJSON (textOr (r_text response) (str "[]")) = Ok (VArr companies)
    /\ length [ VObj [(str "name", VStr (str "Acme")); (str "id", VStr (str "a1"))];
                VObj [(str "name", VStr (str "Globex")); (str "id", VStr (str "r1"))] ]
       = length companies
    /\ forall n company,
         nth_error companies n = Some company ->
         nullish company = false
         /\ exists props,
              nth_error
                [ VObj [(str "name", VStr (str "Acme")); (str "id", VStr (str "a1"))];
                  VObj [(str "name", VStr (str "Globex")); (str "id", VStr (str "r1"))] ] n
              = Some (VObj props)
              /\ lookup (str "id") props
                 = Some (or_else (prop company (str "id"))
                                 (VStr ((fun i => str "r" ++ decimal i) n)))
              /\ forall k, k <> str "id" ->
                           lookup k props = lookup k (spread [] company).
Proof.
  apply (@ingestion_keeps_or_assigns_ids
           (fun _ => Ok {| r_text := Some (json "[{'name':'Acme','id':'a1'},{'name':'Globex'}]");
                           r_groundingChunks := None |})
           (fun i => str "r" ++ decimal i) [] [] [ingestRequest []]).
  vm_compute. reflexivity.
Defined.

(** X8. Whatever the model call and the parsing do, a rejection of any of
    the nine text agents is an Error whose message begins with the agent's
    own prefix: no TypeError or SyntaxError of the body reaches the caller
    unwrapped.  Each of them sends at most one request. *)
Theorem agents_reject_with_their_prefix :
  forall (generateContent : AgentRequest -> Result AgentResponse)
         (js_String : value -> jsstring) (randomId : nat -> jsstring)
         (sent : list AgentRequest),
    (forall userPrompt mandate,
        let run := getMDStrategy generateContent userPrompt mandate sent in
        rejectsWith "MD Strategy Generation Failed: " (fst run)
        /\ atMostOneRequest sent (snd run))
    /\ (forall directive,
           let run := scoutPotentialTargets generateContent directive sent in
           rejectsWith "Scouting Failed: " (fst run) /\ atMostOneRequest sent (snd run))
    /\ (forall targets mandate,
           let run := selectBestTarget generateContent targets mandate sent in
           rejectsWith "Target Selection Failed: " (fst run)
           /\ atMostOneRequest sent (snd run))
    /\ (forall companyName,
           let run := performDeepDive generateContent companyName sent in
           rejectsWith "Deep Dive Failed: " (fst run) /\ atMostOneRequest sent (snd run))
    /\ (forall files prompt,
           let run := analyzeDocument generateContent files prompt sent in
           rejectsWith "Document Analysis Failed: " (fst run)
           /\ atMostOneRequest sent (snd run))
    /\ (forall files,
           let run := ingestPortfolioDocuments generateContent randomId files sent in
           rejectsWith "Portfolio Ingestion Failed: " (fst run)
           /\ atMostOneRequest sent (snd run))
    /\ (forall query,
           let run := verifyLocation generateContent query sent in
           rejectsWith "Location Verification Failed: " (fst run)
           /\ atMostOneRequest sent (snd run))
    /\ (forall dealData mandate originalPrompt,
           let run := getMDFinalOpinion generateContent js_String dealData mandate
                                        originalPrompt sent in
           rejectsWith "Opinion Generation Failed: " (fst run)
           /\ atMostOneRequest sent (snd run))
    /\ (forall dealData type,
           let run := generateDeliverableContent generateContent js_String dealData type
                                                 sent in
           rejectsWith "Deliverable Content Failed: " (fst run)
           /\ atMostOneRequest sent (snd run)).
Proof.
  intros generateContent js_String randomId sent.
  repeat split; try apply rethrow_rejectsWith.
  all: unfold atMostOneRequest, getMDStrategy, scoutPotentialTargets, selectBestTarget,
         performDeepDive, analyzeDocument, ingestPortfolioDocuments, verifyLocation,
         getMDFinalOpinion, generateDeliverableContent,
         try_catch, bind, ask, lift, ret, rethrow, throw, get.
  all: cbv beta zeta.
  all: repeat match goal with
              | |- context [match ?x with _ => _ end] =>
                  lazymatch x with
                  | context [match _ with _ => _ end] => fail
                  | _ => destruct x; cbv beta iota zeta
                  end
              end.
  all: simpl; eauto.
Qed.

(** *** Spreading an object over the defaults it was built from *)

Section SpreadFacts.

Lemma obj_set_skip (p r : list (jsstring * value)) (k : jsstring) (v : value) :
  ~ In k (keysOf p) -> obj_set (p ++ r) k v = p ++ obj_set r k v.
Proof.
  induction p as [| [k' v'] p IH]; simpl; intros H; [ reflexivity | ].
  rewrite jsstring_eqb_neq by (intros ->; apply H; left; reflexivity).
  rewrite IH by (intros Hin; apply H; right; exact Hin). reflexivity.
Qed.

Lemma obj_set_new (p : list (jsstring * value)) (k : jsstring) (v : value) :
  ~ In k (keysOf p) -> obj_set p k v = p ++ [(k, v)].
Proof.
  intros H. rewrite <- (app_nil_r p) at 1. rewrite (@obj_set_skip p [] k v H). reflexivity.
Qed.

Lemma keysOf_obj_set (p : list (jsstring * value)) (k : jsstring) (v : value) :
  keysOf (obj_set p k v) = keysOf p
  \/ (~ In k (keysOf p) /\ keysOf (obj_set p k v) = keysOf p ++ [k]).
Proof.
  induction p as [| [k' v'] p IH]; simpl.
  - right. split; [ tauto | reflexivity ].
  - destruct (jsstring_eqb k k') eqn:E; simpl; [ left; reflexivity | ].
    destruct IH as [IH | [Hn IH]]; [ left; rewrite IH; reflexivity | ].
    right. split; [ | rewrite IH; reflexivity ].
    intros [Hk | Hk]; [ | exact (Hn Hk) ].
    subst k'. rewrite jsstring_eqb_refl in E. discriminate.
Qed.

(** After a spread the keys of the base come first, in their order, and
    no key occurs twice. *)
Lemma keysOf_fold (kvs base : list (jsstring * value)) :
  NoDup (keysOf base) ->
  exists ext,
    keysOf (fold_left (fun acc kv => obj_set acc (fst kv) (snd kv)) kvs base)
    = keysOf base ++ ext
    /\ NoDup (keysOf base ++ ext).
Proof.
  revert base. induction kvs as [| [k v] kvs IH] using rev_ind; intros base Hnd.
  - exists []. rewrite app_nil_r. split; [ reflexivity | exact Hnd ].
  - rewrite fold_left_app. cbn [fold_left fst snd].
    destruct (IH base Hnd) as (ext & Hk & Hn).
    destruct (keysOf_obj_set
                (fold_left (fun acc kv => obj_set acc (fst kv) (snd kv)) kvs base) k v)
      as [E | [Hnew E]]; rewrite E, Hk.
    + exists ext. split; [ reflexivity | exact Hn ].
    + exists (ext ++ [k]). rewrite app_assoc. split; [ reflexivity | ].
      rewrite Hk in Hnew.
      apply NoDup_rev in Hn. rewrite <- (rev_involutive ((keysOf base ++ ext) ++ [k])).
      apply NoDup_rev. rewrite rev_app_distr. simpl. constructor; [ | exact Hn ].
      rewrite <- in_rev. exact Hnew.
Qed.

Lemma NoDup_keys_app (p1 : list (jsstring * value)) (k : jsstring) (v : value)
      (p2 : list (jsstring * value)) :
  NoDup (keysOf (p1 ++ (k, v) :: p2)) -> ~ In k (keysOf p1).
Proof.
  unfold keysOf. rewrite map_app. simpl. intros H Hin.
  apply NoDup_remove_2 in H. apply H. apply in_or_app. left. exact Hin.
Qed.

(** Writing the properties of an object over a base that has its first
    keys gives the object back. *)
Lemma fold_set_overwrites (p2 : list (jsstring * value)) :
  forall p1 b2,
    keysOf b2 = keysOf p2 ->
    NoDup (keysOf (p1 ++ p2)) ->
    fold_left (fun acc kv => obj_set acc (fst kv) (snd kv)) p2 (p1 ++ b2) = p1 ++ p2.
Proof.
  induction p2 as [| [k v] p2 IH]; intros p1 b2 Hk Hnd.
  - destruct b2; [ reflexivity | discriminate ].
  - destruct b2 as [| [k' v0] b2]; [ discriminate | ].
    simpl in Hk. injection Hk as -> Hk.
    cbn [fold_left fst snd].
    rewrite (@obj_set_skip p1 ((k, v0) :: b2) k v (@NoDup_keys_app p1 k v p2 Hnd)).
    simpl. rewrite jsstring_eqb_refl.
    change (p1 ++ (k, v) :: b2) with (p1 ++ [(k, v)] ++ b2).
    rewrite app_assoc, (IH (p1 ++ [(k, v)]) b2 Hk).
    + rewrite <- app_assoc. reflexivity.
    + rewrite <- app_assoc. exact Hnd.
Qed.

Lemma fold_set_appends (q : list (jsstring * value)) :
  forall p,
    NoDup (keysOf (p ++ q)) ->
    fold_left (fun acc kv => obj_set acc (fst kv) (snd kv)) q p = p ++ q.
Proof.
  induction q as [| [k v] q IH]; intros p Hnd.
  - rewrite app_nil_r. reflexivity.
  - cbn [fold_left fst snd].
    rewrite (@obj_set_new p k v (@NoDup_keys_app p k v q Hnd)).
    rewrite IH; rewrite <- app_assoc; [ reflexivity | exact Hnd ].
Qed.

Lemma spread_absorbs (base : list (jsstring * value)) (x : value) :
  NoDup (keysOf base) ->
  spread base (VObj (spread base x)) = spread base x.
Proof.
  intros Hnd. unfold spread at 1. cbn [own_enumerable].
  destruct (@keysOf_fold (own_enumerable x) base Hnd) as (ext & Hk & Hn).
  fold (spread base x) in Hk.
  set (m := spread base x) in *.
  assert (Hsplit : m = firstn (length base) m ++ skipn (length base) m)
    by (symmetry; apply firstn_skipn).
  assert (Hfirst : keysOf (firstn (length base) m) = keysOf base).
  { unfold keysOf. rewrite <- firstn_map. fold (keysOf m). rewrite Hk.
    replace (length base) with (length (keysOf base) + 0)
      by (unfold keysOf; rewrite length_map; lia).
    rewrite firstn_app_2. simpl. rewrite app_nil_r. reflexivity. }
  assert (Hm : NoDup (keysOf m)) by (rewrite Hk; exact Hn).
  assert (Hover : fold_left (fun acc kv => obj_set acc (fst kv) (snd kv))
                             (firstn (length base) m) base
                   = firstn (length base) m).
  { apply (@fold_set_overwrites (firstn (length base) m) [] base).
    - symmetry. exact Hfirst.
    - simpl. rewrite Hsplit in Hm. unfold keysOf in *. rewrite map_app in Hm.
      apply NoDup_app_remove_r in Hm. exact Hm. }
  rewrite Hsplit at 1. rewrite fold_left_app, Hover.
  rewrite fold_set_appends; [ symmetry; exact Hsplit | ].
  rewrite <- Hsplit. exact Hm.
Qed.

Lemma or_else_absorbs (v dflt : value) : or_else (or_else v dflt) dflt = or_else v dflt.
Proof.
  unfold or_else. destruct (truthy v) eqn:E; [ rewrite E; reflexivity | ].
  destruct (truthy dflt); reflexivity.
Qed.

Lemma or_else_truthy (v a b : value) :
  truthy v = true -> or_else (or_else v a) b = v.
Proof. unfold or_else. intros H. rewrite H, H. reflexivity. Qed.

Lemma defaultMemo_keys : NoDup (keysOf defaultMemo).
Proof.
  unfold defaultMemo, keysOf. simpl.
  repeat (constructor; [ simpl; intros H;
                         repeat (destruct H as [H | H]; [ discriminate | ]);
                         contradiction | ]).
  constructor.
Qed.

(** The company name of a normalized record. *)
Lemma companyName_truthy (v : value) (companyName : jsstring) :
  truthy (or_else (or_else v (VStr companyName)) (VStr (str "Target Company"))) = true.
Proof.
  unfold or_else. destruct (truthy v) eqn:E; [ rewrite E; exact E | ].
  destruct companyName as [| c n]; reflexivity.
Qed.

End SpreadFacts.

(** X9. Normalization is idempotent: a record that sanitizeDealData
    returned goes through it again unchanged, with whatever fallback name
    the second call is given. *)
Theorem sanitizeDealData_idempotent :
  forall (data : value) (companyName companyName' : jsstring) (d : value),
    sanitizeDealData data companyName = Ok d ->
    sanitizeDealData d companyName' = Ok d.
Proof.
  intros data companyName companyName' d.
  unfold sanitizeDealData at 1. destruct (nullish data); [ discriminate | ].
  intros H. injection H as <-.
  unfold sanitizeDealData. cbn [nullish].
  apply f_equal. apply f_equal.
  repeat match goal with
         | |- (_, _) :: _ = (_, _) :: _ =>
             apply (f_equal2 cons); [ apply (f_equal2 pair); [ reflexivity | ] | ]
         end;
    try reflexivity;
    try (match goal with
         | |- or_else ?a ?dflt = ?rhs => change a with rhs; apply or_else_absorbs
         end).
  - match goal with
    | |- or_else (or_else ?a _) _ = ?rhs => change a with rhs
    end.
    apply or_else_truthy.
    exact (companyName_truthy (prop data (str "companyName")) companyName).
  - apply f_equal.
    match goal with
    | |- spread _ (or_else ?a _) = spread _ ?x =>
        change a with (VObj (spread defaultMemo x))
    end.
    change (or_else (VObj (spread defaultMemo
                             (or_else (prop data (str "memo")) (VObj [])))) (VObj []))
      with (VObj (spread defaultMemo (or_else (prop data (str "memo")) (VObj [])))).
    apply spread_absorbs. exact defaultMemo_keys.
Qed.

Lemma sanitizeDealData_idempotent_run :
  exists d,
    sanitizeDealData (VObj [(str "ebitda", VInt 12);
                            (str "memo", VObj [(str "keyRisks", VArr [VStr (str "churn")]);
                                               (str "note", VStr (str "draft"))])])
                     (str "Acme") = Ok d
    /\ sanitizeDealData d [] = Ok d.
Proof.
  eexists. split; [ reflexivity | ].
  apply (@sanitizeDealData_idempotent
           (VObj [(str "ebitda", VInt 12);
                  (str "memo", VObj [(str "keyRisks", VArr [VStr (str "churn")]);
                                     (str "note", VStr (str "draft"))])])
           (str "Acme") []).
  reflexivity.
Defined.

(** X10. sanitizeDealData raises exactly on null and undefined.  On any
    other value that is not an object (a number, a string, a boolean, an
    array) it returns what it returns on the empty object; and the company
    name of its result is always truthy: the input's name when that is
    truthy, else the fallback name when it is not empty, else
    Target Company. *)
Theorem sanitizeDealData_company_name :
  forall (data : value) (companyName : jsstring),
    (sanitizeDealData data companyName = Throw TypeError <-> nullish data = true)
    /\ (nullish data = false -> isObject data = false ->
        sanitizeDealData data companyName = sanitizeDealData (VObj []) companyName)
    /\ (forall d,
           sanitizeDealData data companyName = Ok d ->
           truthy (prop d (str "companyName")) = true
           /\ prop d (str "companyName")
              = if truthy (prop data (str "companyName"))
                then prop data (str "companyName")
                else match companyName with
                     | [] => VStr (str "Target Company")
                     | _ => VStr companyName
                     end).
Proof.
  intros data companyName. repeat split.
  - unfold sanitizeDealData. destruct (nullish data); [ reflexivity | discriminate ].
  - intros H. unfold sanitizeDealData. rewrite H. reflexivity.
  - intros Hn Ho. destruct data; try discriminate; reflexivity.
  - unfold sanitizeDealData in H. destruct (nullish data); [ discriminate | ].
    injection H as <-.
    exact (companyName_truthy (prop data (str "companyName")) companyName).
  - unfold sanitizeDealData in H. destruct (nullish data); [ discriminate | ].
    injection H as <-.
    change (or_else (or_else (prop data (str "companyName")) (VStr companyName))
                    (VStr (str "Target Company"))
            = if truthy (prop data (str "companyName"))
              then prop data (str "companyName")
              else match companyName with
                   | [] => VStr (str "Target Company")
                   | _ => VStr companyName
                   end).
    unfold or_else. destruct (truthy (prop data (str "companyName"))) eqn:E;
      [ rewrite E; reflexivity | ].
    destruct companyName; reflexivity.
Qed.

(** *** What repairJSON appends, and what its scanner sees afterwards *)

Section RepairBalance.

Import RepairSpec Repaired.

Lemma repairJSON_stages (text : jsstring) :
  repairJSON text = quoteClosed text ++ rev (snd (scan (quoteClosed text))).
Proof.
  unfold repairJSON, quoteClosed, commaDropped. cbv zeta.
  apply appendMissingClosers_rev.
Qed.

Lemma lastChar_cons (c : ascii) (s : jsstring) :
  lastChar (c :: s) = match lastChar s with Some x => Some x | None => Some c end.
Proof.
  unfold lastChar. simpl. destruct (rev s); reflexivity.
Qed.

Lemma notAfterBackslash_length (s : jsstring) :
  forall p, length (notAfterBackslash p s) = length s.
Proof.
  induction s as [| c s IH]; intros p; simpl; [ reflexivity | ].
  rewrite IH. reflexivity.
Qed.

Lemma notAfterBackslash_app (a b : jsstring) :
  forall p,
    notAfterBackslash p (a ++ b)
    = notAfterBackslash p a
      ++ notAfterBackslash (match lastChar a with Some c => Some c | None => p end) b.
Proof.
  induction a as [| c a IH]; intros p; [ reflexivity | ].
  cbn [app notAfterBackslash]. rewrite IH, lastChar_cons.
  destruct (lastChar a); reflexivity.
Qed.

Lemma combine_app_same (a b : jsstring) (ma mb : list bool) :
  length a = length ma ->
  combine (a ++ b) (ma ++ mb) = combine a ma ++ combine b mb.
Proof.
  revert ma. induction a as [| c a IH]; intros [| m ma] H; try discriminate.
  - reflexivity.
  - simpl. rewrite IH by (simpl in H; lia). reflexivity.
Qed.

Lemma map_snd_combine (a : jsstring) (ma : list bool) :
  length a = length ma -> map snd (combine a ma) = ma.
Proof.
  revert ma. induction a as [| c a IH]; intros [| m ma] H; try discriminate.
  - reflexivity.
  - simpl. rewrite IH by (simpl in H; lia). reflexivity.
Qed.

Lemma map_fst_combine (a : jsstring) (ma : list bool) :
  length a = length ma -> map fst (combine a ma) = a.
Proof.
  revert ma. induction a as [| c a IH]; intros [| m ma] H; try discriminate.
  - reflexivity.
  - simpl. rewrite IH by (simpl in H; lia). reflexivity.
Qed.

Lemma insideAfter_app (m1 m2 : list bool) :
  forall i, insideAfter i (m1 ++ m2) = insideAfter (insideAfter i m1) m2.
Proof.
  induction m1 as [| q m1 IH]; intros i; [ reflexivity | ]. simpl. apply IH.
Qed.

Lemma countMarks_app (m1 m2 : list bool) :
  countMarks (m1 ++ m2) = countMarks m1 + countMarks m2.
Proof. unfold countMarks. rewrite filter_app, length_app. reflexivity. Qed.

Lemma insideAfter_parity (marks : list bool) :
  forall i, insideAfter i marks = xorb i (Nat.odd (countMarks marks)).
Proof.
  induction marks as [| q marks IH]; intros i.
  - simpl. destruct i; reflexivity.
  - cbn [insideAfter]. rewrite IH. unfold countMarks. cbn [filter].
    destruct q; [ | reflexivity ].
    cbn [length]. rewrite Nat.odd_succ, <- Nat.negb_odd.
    destruct i, (Nat.odd (length (filter (fun b => b) marks))); reflexivity.
Qed.

Lemma expectedClosers_app (cs1 cs2 : list (ascii * bool)) :
  forall i st,
    expectedClosers i st (cs1 ++ cs2)
    = expectedClosers (insideAfter i (map snd cs1)) (expectedClosers i st cs1) cs2.
Proof.
  induction cs1 as [| [c q] cs1 IH]; intros i st; [ reflexivity | ].
  cbn [app expectedClosers map snd insideAfter].
  destruct q; [ apply IH | ].
  destruct i; [ apply IH | ].
  destruct (c =? "{")%char; [ apply IH | ].
  destruct (c =? "[")%char; [ apply IH | ].
  destruct st as [| top below]; [ apply IH | ].
  destruct (((c =? "}")%char || (c =? "]")%char) && (top =? c)%char); apply IH.
Qed.

Lemma isCloser_not_quote (c : ascii) :
  isCloser c = true ->
  (c =? DQUOTE)%char = false /\ (c =? "{")%char = false /\ (c =? "[")%char = false.
Proof.
  unfold isCloser. intros H. apply orb_true_iff in H as [H | H];
    apply Ascii.eqb_eq in H; subst c; repeat split; reflexivity.
Qed.

Lemma closers_marks (cl : jsstring) :
  forallb isCloser cl = true ->
  forall p, notAfterBackslash p cl = map (fun _ => false) cl.
Proof.
  induction cl as [| c cl IH]; intros H p; [ reflexivity | ].
  simpl in H. apply andb_true_iff in H as [Hc Hcl].
  cbn [notAfterBackslash map]. rewrite (IH Hcl).
  destruct (isCloser_not_quote c Hc) as [-> _]. reflexivity.
Qed.

Lemma closers_pop (cl : jsstring) :
  forallb isCloser cl = true ->
  expectedClosers false cl (combine cl (map (fun _ => false) cl)) = [].
Proof.
  induction cl as [| c cl IH]; intros H; [ reflexivity | ].
  simpl in H. apply andb_true_iff in H as [Hc Hcl].
  cbn [map combine expectedClosers].
  destruct (isCloser_not_quote c Hc) as (_ & -> & ->).
  unfold isCloser in Hc. rewrite Hc, Ascii.eqb_refl. cbn [andb].
  exact (IH Hcl).
Qed.

Lemma expectedClosers_closers (cs : list (ascii * bool)) :
  forall i st,
    forallb isCloser st = true ->
    forallb isCloser (expectedClosers i st cs) = true.
Proof.
  induction cs as [| [c q] cs IH]; intros i st H; [ exact H | ].
  cbn [expectedClosers].
  destruct q; [ apply IH; exact H | ].
  destruct i; [ apply IH; exact H | ].
  destruct (c =? "{")%char; [ apply IH; simpl; exact H | ].
  destruct (c =? "[")%char; [ apply IH; simpl; exact H | ].
  destruct st as [| top below]; [ apply IH; exact H | ].
  destruct (((c =? "}")%char || (c =? "]")%char) && (top =? c)%char);
    apply IH; [ | exact H ].
  simpl in H. apply andb_true_iff in H as [_ H]. exact H.
Qed.

Lemma expectedClosers_bound (cs : list (ascii * bool)) :
  forall i st,
    length (expectedClosers i st cs)
    <= length st + length (filter isBracket (map fst cs)).
Proof.
  induction cs as [| [c q] cs IH]; intros i st; [ simpl; lia | ].
  cbn [expectedClosers map fst filter]. unfold isBracket at 1.
  destruct q; [ specialize (IH (negb i) st);
                destruct ((c =? "{")%char || (c =? "[")%char); simpl; lia | ].
  destruct i; [ specialize (IH true st);
                destruct ((c =? "{")%char || (c =? "[")%char); simpl; lia | ].
  destruct (c =? "{")%char; [ specialize (IH false ("}"%char :: st)); simpl in *; lia | ].
  destruct (c =? "[")%char; [ specialize (IH false ("]"%char :: st)); simpl in *; lia | ].
  cbn [orb].
  destruct st as [| top below]; [ exact (IH false []) | ].
  destruct (((c =? "}")%char || (c =? "]")%char) && (top =? c)%char).
  - specialize (IH false below). simpl. lia.
  - exact (IH false (top :: below)).
Qed.

Lemma scanStep_inside (pre suf : jsstring) (c : ascii) (inside : bool)
      (stack : list ascii) :
  fst (scanStep (pre ++ c :: suf) (inside, stack) (length pre))
  = if ((c =? DQUOTE)%char &&
        match lastChar pre with
        | Some p => negb (p =? BACKSLASH)%char
        | None => true
        end)
    then negb inside else inside.
Proof.
  unfold scanStep. rewrite nth_error_middle, quoteAt_middle.
  destruct ((c =? DQUOTE)%char && _); [ reflexivity | ].
  destruct inside; [ reflexivity | ]. cbn [negb].
  destruct (c =? "{")%char; [ reflexivity | ].
  destruct (c =? "[")%char; [ reflexivity | ].
  destruct ((c =? "}")%char || (c =? "]")%char); [ | reflexivity ].
  destruct (stack_top stack) as [top |]; [ | reflexivity ].
  destruct (top =? c)%char; reflexivity.
Qed.

Lemma scan_inside_stream (suf pre : jsstring) (inside : bool) (stack : list ascii) :
  fst (fold_left (scanStep (pre ++ suf)) (seq (length pre) (length suf))
                 (inside, stack))
  = insideAfter inside (notAfterBackslash (lastChar pre) suf).
Proof.
  revert pre inside stack. induction suf as [| c suf IH]; intros pre inside stack.
  - reflexivity.
  - cbn [length seq fold_left notAfterBackslash insideAfter].
    rewrite <- (scanStep_inside pre suf c inside stack).
    destruct (scanStep (pre ++ c :: suf) (inside, stack) (length pre))
      as [inside' stack'] eqn:Hstep.
    cbn [fst]. rewrite snoc_app.
    replace (S (length pre)) with (length (pre ++ [c]))
      by (rewrite length_app; simpl; lia).
    rewrite IH, lastChar_snoc. reflexivity.
Qed.

Lemma scan_inside (s : jsstring) :
  fst (scan s) = insideAfter false (notAfterBackslash None s).
Proof. unfold scan. apply (scan_inside_stream s [] false []). Qed.

(** After step 2 the number of counted quotes is even, unless the text
    ended with a backslash. *)
Lemma quoteClosed_even (text : jsstring) :
  endsWith (commaDropped text) BACKSLASH = false ->
  Nat.odd (countMarks (notAfterBackslash None (quoteClosed text))) = false.
Proof.
  intros Hend. unfold quoteClosed. cbv zeta.
  set (a := commaDropped text) in *.
  pose proof (odd_mod2 (quoteCount a)) as Hodd.
  destruct (quoteCount a mod 2 =? 0) eqn:E.
  - rewrite <- quoteCount_marks. exact Hodd.
  - rewrite notAfterBackslash_app, countMarks_app, <- quoteCount_marks.
    assert (Hlast : countMarks
                      (notAfterBackslash
                         (match lastChar a with Some c => Some c | None => None end)
                         [DQUOTE]) = 1).
    { unfold endsWith in Hend. unfold lastChar.
      destruct (rev a) as [| x xs]; [ reflexivity | ].
      cbn [notAfterBackslash]. rewrite Hend. reflexivity. }
    rewrite Hlast, Nat.add_1_r, Nat.odd_succ, <- Nat.negb_odd, Hodd. reflexivity.
Qed.

End RepairBalance.

(** X11. repairJSON only appends: its result is the trimmed text without
    its trailing comma, followed by at most one double quote, followed by
    closing braces and brackets only, and by no more of them than the text
    holds opening ones. *)
Theorem repairJSON_only_appends :
  forall text : jsstring,
  exists quote closers,
    repairJSON text = Repaired.commaDropped text ++ quote ++ closers
    /\ (quote = [] \/ quote = [DQUOTE])
    /\ forallb isCloser closers = true
    /\ length closers <= length (filter isBracket (Repaired.commaDropped text)).
Proof.
  intros text.
  exists (if Nat.eqb (quoteCount (Repaired.commaDropped text) mod 2) 0
          then [] else [DQUOTE]),
         (rev (snd (scan (Repaired.quoteClosed text)))).
  split; [ | split; [ | split ] ].
  - rewrite repairJSON_stages. unfold Repaired.quoteClosed at 1. cbv zeta.
    destruct (quoteCount (Repaired.commaDropped text) mod 2 =? 0).
    + reflexivity.
    + rewrite <- app_assoc. reflexivity.
  - destruct (quoteCount (Repaired.commaDropped text) mod 2 =? 0); auto.
  - rewrite scan_closers. apply expectedClosers_closers. reflexivity.
  - rewrite scan_closers.
    etransitivity; [ apply expectedClosers_bound | ].
    rewrite map_fst_combine by (symmetry; apply notAfterBackslash_length).
    unfold Repaired.quoteClosed. cbv zeta.
    destruct (quoteCount (Repaired.commaDropped text) mod 2 =? 0); [ simpl; lia | ].
    rewrite filter_app, length_app. simpl. lia.
Qed.

(** X12. Unless the text ends with a backslash once trimmed and freed of
    its trailing comma, what repairJSON returns is balanced for its own
    scanner: scanned again it ends outside any string with an empty stack
    of expected closers, and the number of counted quotes is even. *)
Theorem repairJSON_result_is_balanced :
  forall text : jsstring,
    endsWith (Repaired.commaDropped text) BACKSLASH = false ->
    scan (repairJSON text) = (false, [])
    /\ quoteCount (repairJSON text) mod 2 = 0.
Proof.
  intros text Hend.
  pose proof (quoteClosed_even text Hend) as Heven.
  rewrite repairJSON_stages.
  set (b := Repaired.quoteClosed text) in *.
  set (cl := rev (snd (scan b))).
  assert (Hcl : forallb isCloser cl = true).
  { unfold cl. rewrite scan_closers. apply expectedClosers_closers. reflexivity. }
  assert (Hmarks : RepairSpec.notAfterBackslash None (b ++ cl)
                   = RepairSpec.notAfterBackslash None b ++ map (fun _ => false) cl).
  { rewrite notAfterBackslash_app, (closers_marks cl Hcl). reflexivity. }
  assert (Hins : Repaired.insideAfter false (RepairSpec.notAfterBackslash None b) = false).
  { rewrite insideAfter_parity, Heven. reflexivity. }
  assert (Hnone : forall (l : jsstring) i,
             Repaired.insideAfter i (map (fun _ => false) l) = i).
  { induction l as [| x l IH]; intros i; [ reflexivity | exact (IH i) ]. }
  assert (Hzero : forall l : jsstring,
             RepairSpec.countMarks (map (fun _ => false) l) = 0).
  { induction l as [| x l IH]; [ reflexivity | exact IH ]. }
  split.
  - assert (Hstack : rev (snd (scan (b ++ cl))) = []).
    { rewrite scan_closers, Hmarks.
      rewrite combine_app_same by (symmetry; apply notAfterBackslash_length).
      rewrite expectedClosers_app.
      rewrite map_snd_combine by (symmetry; apply notAfterBackslash_length).
      rewrite Hins. rewrite <- scan_closers. fold cl.
      apply closers_pop. exact Hcl. }
    assert (Hfst : fst (scan (b ++ cl)) = false).
    { rewrite scan_inside, Hmarks, insideAfter_app, Hins. apply Hnone. }
    destruct (scan (b ++ cl)) as [inside stack]. simpl in Hstack, Hfst.
    rewrite Hfst. f_equal.
    rewrite <- (rev_involutive stack), Hstack. reflexivity.
  - rewrite quoteCount_marks, Hmarks, countMarks_app, Hzero, Nat.add_0_r.
    pose proof (odd_mod2 (RepairSpec.countMarks (RepairSpec.notAfterBackslash None b)))
      as Hodd.
    rewrite Heven in Hodd.
    destruct (RepairSpec.countMarks (RepairSpec.notAfterBackslash None b) mod 2 =? 0)
      eqn:E; [ apply Nat.eqb_eq; exact E | discriminate ].
Qed.

Lemma repairJSON_result_is_balanced_run :
  scan (repairJSON (json "{'deals':[{'name':'Acme, Inc.','tags':['b2b',")) = (false, [])
  /\ quoteCount (repairJSON (json "{'deals':[{'name':'Acme, Inc.','tags':['b2b',")) mod 2 = 0.
Proof.
  apply (@repairJSON_result_is_balanced (json "{'deals':[{'name':'Acme, Inc.','tags':['b2b',")).
  vm_compute. reflexivity.
Defined.

(** X13. A deal structuring builds its client inside the try block.
    When the client cannot be built it sends nothing and rejects with the
    structuring prefix before the constructor's message; with a client it
    sends exactly one request.  Every rejection is an Error whose message
    begins with the structuring prefix.  A structuring that resolves had a
    client, has sent one request, and returns a complete record: every
    top-level field of a deal and every field of the memo is present, and
    the company name is truthy.  When the model answers with no text, the
    text being absent or empty, the call still resolves: with the record
    of defaults, named after the company asked for (Target Company when
    that name is empty), and the candidates. *)
Theorem structuring_resolves_with_complete_record :
  forall (generateContent : Request -> Result Response) (getClient : Result unit)
         (companyName rawData : jsstring) (candidates : list jsstring)
         (portfolioContext : list PortfolioCompany) (sent : list Request),
    let run := generateDealStructure generateContent getClient companyName rawData
                                     candidates portfolioContext sent in
    Agents.rejectsWith "Structure Generation Failed: " (fst run)
    /\ (forall e,
           getClient = Throw e ->
           run = (Throw (Error (str "Structure Generation Failed: " ++ message e)), sent))
    /\ (getClient = Ok tt -> exists req, snd run = sent ++ [req])
    /\ (forall d,
           fst run = Ok d ->
           getClient = Ok tt
           /\ (exists req, snd run = sent ++ [req])
           /\ forallb (has d) TOP_LEVEL_FIELDS = true
           /\ forallb (has (prop d (str "memo"))) MEMO_FIELDS = true
           /\ truthy (prop d (str "companyName")) = true)
    /\ (forall response,
           getClient = Ok tt ->
           (forall req, generateContent req = Ok response) ->
           text response = None \/ text response = Some [] ->
           fst run
           = Ok (set_prop (DEFAULT_RECORD (recordName (VObj []) companyName))
                          (str "candidatesAnalyzed") (VArr (map VStr candidates)))).
Proof.
  intros generateContent getClient companyName rawData candidates portfolioContext
         sent run.
  subst run.
  unfold generateDealStructure, try_catch, bind, call, lift, ret, throw.
  match goal with
  | |- context [generateContent ?r] => set (req := r)
  end.
  split; [ | split; [ | split; [ | split ] ] ].
  - destruct getClient as [[] | e0]; [ | simpl; eauto ].
    destruct (generateContent req) as [response | e]; [ | simpl; eauto ].
    destruct (cleanAndParseJSON _) as [rawJSON | e]; [ | simpl; eauto ].
    destruct (sanitizeDealData rawJSON companyName) as [data | e]; simpl; eauto.
  - intros e ->. reflexivity.
  - intros ->. exists req.
    destruct (generateContent req) as [response | e]; [ | reflexivity ].
    destruct (cleanAndParseJSON _) as [rawJSON | e]; [ | reflexivity ].
    destruct (sanitizeDealData rawJSON companyName) as [data | e]; reflexivity.
  - intros d.
    destruct getClient as [[] | e0]; [ | discriminate ].
    destruct (generateContent req) as [response | e]; [ | discriminate ].
    destruct (cleanAndParseJSON _) as [rawJSON | e]; [ | discriminate ].
    unfold sanitizeDealData.
    destruct (nullish rawJSON); [ discriminate | ].
    cbn [fst snd]. intros H. injection H as <-.
    split; [ reflexivity | ].
    split; [ exists req; reflexivity | ].
    split; [ reflexivity | ].
    split; [ apply memo_complete | ].
    exact (companyName_truthy (prop rawJSON (str "companyName")) companyName).
  - intros response -> Hcall Htext.
    rewrite (Hcall req).
    assert (Hempty : cleanAndParseJSON match text response with
                                       | Some (c :: t) => c :: t
                                       | _ => str "{}"
                                       end = Ok (VObj [])).
    { destruct Htext as [-> | ->]; reflexivity. }
    cbv beta iota. rewrite Hempty. cbv beta iota.
    destruct companyName; reflexivity.
Qed.

(** ** Runs of the handlers of App.tsx *)

Import Runs.

(** *** Relations that every step keeps *)

Section Keeps.

Variable R : AppState -> AppState -> Prop.
Hypothesis R_refl : forall s, R s s.
Hypothesis R_trans : forall s1 s2 s3, R s1 s2 -> R s2 s3 -> R s1 s3.

Lemma keeps_ret (A : Type) (a : A) : keeps R (ret a).
Proof. intros s. apply R_refl. Qed.

Lemma keeps_throw (A : Type) (e : exn) : keeps R (@throw AppState A e).
Proof. intros s. apply R_refl. Qed.

Lemma keeps_lift (A : Type) (r : Result A) : keeps R (lift r).
Proof. intros s. apply R_refl. Qed.

Lemma keeps_modify (f : AppState -> AppState) :
  (forall s, R s (f s)) -> keeps R (modify f).
Proof. intros H s. apply H. Qed.

Lemma keeps_invoke (A : Type) (svc : Service) (outcome : Result A) :
  (forall s, R s (noteStarted svc s)) -> keeps R (invoke svc outcome).
Proof. intros H s. apply H. Qed.

Lemma keeps_bind (A B : Type) (m : M AppState A) (k : A -> M AppState B) :
  keeps R m -> (forall a, keeps R (k a)) -> keeps R (bind m k).
Proof.
  intros Hm Hk s. unfold bind. specialize (Hm s).
  destruct (m s) as [[a | e] s1]; simpl in *; [ | exact Hm ].
  exact (R_trans Hm (Hk a s1)).
Qed.

Lemma keeps_bind_ret (A B : Type) (a : A) (k : A -> M AppState B) :
  keeps R (k a) -> keeps R (bind (ret a) k).
Proof. intros H s. exact (H s). Qed.

Lemma keeps_bind_assoc (A B C : Type) (m : M AppState A) (f : A -> M AppState B)
      (k : B -> M AppState C) :
  keeps R (bind m (fun a => bind (f a) k)) -> keeps R (bind (bind m f) k).
Proof.
  intros H s. specialize (H s). unfold bind in *.
  destruct (m s) as [[a | e] s1]; exact H.
Qed.

Lemma keeps_try_catch (A : Type) (body : M AppState A) (handler : exn -> M AppState A) :
  keeps R body -> (forall e, keeps R (handler e)) -> keeps R (try_catch body handler).
Proof.
  intros Hb Hh s. unfold try_catch. specialize (Hb s).
  destruct (body s) as [[a | e] s1]; simpl in *; [ exact Hb | ].
  exact (R_trans Hb (Hh e s1)).
Qed.

Lemma keeps_try_finally (A : Type) (body : M AppState A) (fin : AppState -> AppState) :
  keeps R body -> (forall s, R s (fin s)) -> keeps R (try_finally body fin).
Proof.
  intros Hb Hf s. unfold try_finally. specialize (Hb s).
  destruct (body s) as [r s1]; simpl in *.
  exact (R_trans Hb (Hf s1)).
Qed.

(** What the relation has to allow: the state changes the flows make. *)
Variable env : Environment.
Variable rendered : Render.

Hypothesis R_updateAgent : forall r u, keeps R (updateAgent r u).
Hypothesis R_updateAllAgents : forall u, keeps R (updateAllAgents u).
Hypothesis R_log :
  forall e s, log_traceId e = env_traceId env ->
              R s (setLogs (fun prev => prev ++ [e]) s).
Hypothesis R_message :
  forall r content sender attachments inputAttachments suggestedActions,
    keeps R (addMessage rendered r content sender attachments inputAttachments
                        suggestedActions).
Hypothesis R_updateActiveDeal :
  forall updates titleOverride, keeps R (updateActiveDeal rendered updates titleOverride).
Hypothesis R_newRoom :
  is_set (r_activeDealId rendered) = false ->
  forall title s,
    R s (setDeals (fun prev => prev ++ [newDealRoom (env_Date_now env) title]) s).
Hypothesis R_stage :
  forall ctx s,
    (if is_set (r_activeDealId rendered)
     then ctx = r_activeDealId rendered
     else ctx = Some (env_Date_now env)) ->
    R s (setDeals (map (fun d =>
           if match ctx with
              | Some id => jsstring_eqb (deal_id d) id
              | None => false
              end
           then {| deal_id := deal_id d; deal_title := deal_title d;
                   deal_stage := Diligence; deal_tags := deal_tags d;
                   deal_priority := deal_priority d; deal_data := deal_data d |}
           else d)) s).
Hypothesis R_activeDealId : forall v s, R s (setActiveDealId v s).
Hypothesis R_isProcessing : forall v s, R s (setIsProcessing v s).
Hypothesis R_activeEdge : forall v s, R s (setActiveEdge v s).
Hypothesis R_started : forall svc s, R s (noteStarted svc s).

Ltac keeps_step :=
  lazymatch goal with
  | |- keeps _ (bind (bind _ _) _) => apply keeps_bind_assoc
  | |- keeps _ (bind (ret _) _) => apply keeps_bind_ret
  | |- keeps _ (bind (if ?b then _ else _) _) => destruct b eqn:?
  | |- keeps _ (bind (match ?x with _ => _ end) _) => destruct x
  | |- keeps _ (bind _ _) => apply keeps_bind; [ | intros ]
  | |- keeps _ (if ?b then _ else _) => destruct b eqn:?
  | |- keeps _ (updateAgent _ _) => apply R_updateAgent
  | |- keeps _ (updateAllAgents _) => apply R_updateAllAgents
  | |- keeps _ (addMessage _ _ _ _ _ _ _) => apply R_message
  | |- keeps _ (updateActiveDeal _ _ _) => apply R_updateActiveDeal
  | |- keeps _ (invoke _ _) => apply keeps_invoke; apply R_started
  | |- keeps _ (ret _) => apply keeps_ret
  | |- keeps _ (throw _) => apply keeps_throw
  | |- keeps _ (lift _) => apply keeps_lift
  | |- keeps _ (try_catch _ _) => apply keeps_try_catch; [ | intros ]
  | |- keeps _ (try_finally _ _) => apply keeps_try_finally; [ | intros ]
  | |- keeps _ (modify _) =>
      apply keeps_modify; intros;
      first [ apply R_activeEdge | apply R_isProcessing | apply R_activeDealId
            | apply R_log; reflexivity
            | apply R_newRoom; first [ assumption | reflexivity ]
            | apply (R_stage (r_activeDealId rendered)); reflexivity
            | apply (R_stage (Some (env_Date_now env))); reflexivity ]
  | |- keeps _ (match ?x with _ => _ end) => destruct x
  end.

Lemma sourcing_keeps (text : jsstring) : keeps R (sourcing env rendered text).
Proof.
  unfold sourcing, sourcingFlow, runStep, runStep_begin, runStep_await,
    createNewDealRoom.
  cbv zeta. repeat keeps_step.
Qed.

Lemma documents_keeps (text : jsstring) (attachments : list FileAttachment) :
  keeps R (documents env rendered text attachments).
Proof.
  unfold documents, documentAnalysisFlow, runStep, runStep_begin, runStep_await,
    createNewDealRoom.
  cbv zeta. repeat keeps_step.
Qed.

(** The state after the user's message and the state at the end. *)
Lemma handle_keeps_after_user_message (text : jsstring)
      (attachments : list FileAttachment) (s : AppState) :
  R (snd (addMessage rendered RoleUser text None [] attachments [] s))
    (snd (handle env rendered text attachments s)).
Proof.
  unfold handle, handleUserMessage.
  match goal with
  | |- R ?s0 (snd (bind ?m ?k s)) => change (R s0 (snd (k tt s0)))
  end.
  cbv beta.
  match goal with
  | |- R ?s0 (snd (?rest ?s0)) => assert (Hrest : keeps R rest)
  end.
  { apply keeps_bind; [ apply keeps_modify; intros; apply R_isProcessing | intros _ ].
    apply keeps_try_finally;
      [ | intros s1; exact (R_trans (R_isProcessing false s1)
                                    (R_activeEdge None (setIsProcessing false s1))) ].
    apply keeps_try_catch.
    - destruct attachments as [| file files].
      + exact (sourcing_keeps text).
      + exact (documents_keeps text (file :: files)).
    - intros e. repeat keeps_step. }
  apply Hrest.
Qed.

Lemma handle_keeps (text : jsstring) (attachments : list FileAttachment) :
  keeps R (handle env rendered text attachments).
Proof.
  intros s.
  exact (R_trans (R_message RoleUser text None [] attachments [] s)
                 (handle_keeps_after_user_message text attachments s)).
Qed.

End Keeps.

(** *** Instances: the conversation, the cast and the deal rooms *)

Section KeptRelations.

Lemma appended_refl (B : Type) (proj : AppState -> list B) (P : B -> Prop)
      (s : AppState) :
  appended proj P s s.
Proof. exists []. rewrite app_nil_r. split; [ reflexivity | constructor ]. Qed.

Lemma appended_trans (B : Type) (proj : AppState -> list B) (P : B -> Prop)
      (s1 s2 s3 : AppState) :
  appended proj P s1 s2 -> appended proj P s2 s3 -> appended proj P s1 s3.
Proof.
  intros (n1 & E1 & F1) (n2 & E2 & F2). exists (n1 ++ n2).
  rewrite E2, E1, <- app_assoc. split; [ reflexivity | ].
  apply Forall_app. split; assumption.
Qed.

Lemma appended_same (B : Type) (proj : AppState -> list B) (P : B -> Prop)
      (s s' : AppState) :
  proj s' = proj s -> appended proj P s s'.
Proof.
  intros E. exists []. rewrite app_nil_r. split; [ exact E | constructor ].
Qed.

Lemma identity_applyUpdate (a : Agent) (u : AgentUpdate) :
  identity (applyUpdate a u) = identity a.
Proof. reflexivity. Qed.

Lemma sameCast_updateAgent (r : AgentRole) (u : AgentUpdate) :
  keeps sameCast (updateAgent r u).
Proof.
  intros s. unfold sameCast. cbn [updateAgent modify snd setAgents agents].
  rewrite map_map. apply map_ext. intros a.
  destruct (role_eqb (role a) r); reflexivity.
Qed.

Lemma sameCast_updateAllAgents (u : AgentUpdate) : keeps sameCast (updateAllAgents u).
Proof.
  intros s. unfold sameCast. cbn [updateAllAgents modify snd setAgents agents].
  rewrite map_map. apply map_ext. intros a. reflexivity.
Qed.

Lemma sameCast_trans (s1 s2 s3 : AppState) :
  sameCast s1 s2 -> sameCast s2 s3 -> sameCast s1 s3.
Proof. unfold sameCast. intros H1 H2. rewrite H2. exact H1. Qed.

Lemma roomsKept_refl (Date_now : jsstring) (s : AppState) : roomsKept Date_now s s.
Proof.
  exists []. simpl. rewrite app_nil_r. split; [ reflexivity | constructor ].
Qed.

Lemma roomsKept_trans (Date_now : jsstring) (s1 s2 s3 : AppState) :
  roomsKept Date_now s1 s2 -> roomsKept Date_now s2 s3 -> roomsKept Date_now s1 s3.
Proof.
  intros (n1 & E1 & F1) (n2 & E2 & F2). exists (n1 ++ n2).
  rewrite E2, E1, map_app, <- app_assoc. split; [ reflexivity | ].
  apply Forall_app. split; assumption.
Qed.

Lemma roomsKept_same (Date_now : jsstring) (s s' : AppState) :
  map unstaged (deals s') = map unstaged (deals s) -> roomsKept Date_now s s'.
Proof.
  intros E. exists []. simpl. rewrite app_nil_r. split; [ exact E | constructor ].
Qed.

Lemma othersUntouched_refl (active : jsstring) (s : AppState) :
  othersUntouched active s s.
Proof.
  unfold othersUntouched. induction (deals s) as [| d l IH]; constructor; auto.
Qed.

Lemma othersUntouched_same (active : jsstring) (s s' : AppState) :
  deals s' = deals s -> othersUntouched active s s'.
Proof.
  unfold othersUntouched. intros ->.
  induction (deals s) as [| d l IH]; constructor; auto.
Qed.

Lemma othersUntouched_trans (active : jsstring) (s1 s2 s3 : AppState) :
  othersUntouched active s1 s2 -> othersUntouched active s2 s3 ->
  othersUntouched active s1 s3.
Proof.
  unfold othersUntouched. generalize (deals s1) (deals s2) (deals s3).
  intros l1 l2 l3 H12. revert l3.
  induction H12 as [| d d' l1 l2 [Hid Hd] H12 IH]; intros l3 H23.
  - inversion H23. constructor.
  - inversion H23 as [| d2 d'' l2' l3' [Hid' Hd'] H23' ]; subst.
    constructor; [ | apply IH; assumption ].
    split; [ rewrite Hid'; exact Hid | ].
    intros Hne. rewrite <- (Hd Hne). apply Hd'. rewrite (Hd Hne). exact Hne.
Qed.

(** Rewriting the rooms with a function that keeps the ids and changes only
    the room with the given id. *)
Lemma othersUntouched_map (active : jsstring) (f : DealRoom -> DealRoom)
      (s : AppState) :
  (forall d, deal_id (f d) = deal_id d) ->
  (forall d, jsstring_eqb (deal_id d) active = false -> f d = d) ->
  othersUntouched active s (setDeals (map f) s).
Proof.
  intros Hid Hf. unfold othersUntouched. cbn [setDeals deals].
  induction (deals s) as [| d l IH]; simpl; constructor; auto.
Qed.

Lemma activeMessages_global (context : option jsstring) (l : list Message) :
  Forall (fun m => msg_dealId m = None) l -> activeMessages context l = l.
Proof.
  unfold activeMessages. induction 1 as [| m l Hm Hl IH]; [ reflexivity | ].
  cbn [filter]. rewrite Hm, IH. destruct context as [[| c id] |]; reflexivity.
Qed.

Lemma activeMessages_tagged (c : ascii) (id : jsstring) (context : option jsstring)
      (l : list Message) :
  Forall (fun m => msg_dealId m = Some (c :: id)) l ->
  activeMessages context l
  = if match context with
       | Some shown => jsstring_eqb (c :: id) shown
       | None => false
       end
    then l else [].
Proof.
  unfold activeMessages. induction 1 as [| m l Hm Hl IH].
  - destruct (match context with Some shown => _ | None => false end); reflexivity.
  - cbn [filter]. rewrite Hm, IH.
    destruct context as [[| c' id'] |]; try reflexivity.
    destruct (jsstring_eqb (c :: id) (c' :: id')); reflexivity.
Qed.

End KeptRelations.

(** X14. Every message a run adds to the conversation is tagged with the
    deal id of the render that started the run, and the first of them is
    the user's message with its attachments.  So when the run starts with
    no deal open, all its messages are global, shown in every context,
    also when the run creates a deal room of its own; and when it starts
    inside a room, they are shown in that room only. *)
Theorem run_messages_carry_the_render_tag :
  forall (env : Environment) (rendered : Render) (text : jsstring)
         (attachments : list FileAttachment) (s : AppState),
  exists more,
    let new :=
      {| msg_dealId := r_activeDealId rendered; msg_role := RoleUser;
         msg_content := text; msg_sender := None; msg_attachments := [];
         msg_inputAttachments := attachments; msg_suggestedActions := [] |} :: more in
    messages (snd (handle env rendered text attachments s)) = messages s ++ new
    /\ Forall (fun m => msg_dealId m = r_activeDealId rendered) new
    /\ (r_activeDealId rendered = None ->
        forall context, activeMessages context new = new)
    /\ (forall c id context,
           r_activeDealId rendered = Some (c :: id) ->
           activeMessages context new = if match context with
                                           | Some shown => jsstring_eqb (c :: id) shown
                                           | None => false
                                           end
                                        then new else []).
Proof.
  intros env rendered text attachments s.
  pose (tagged := fun m : Message => msg_dealId m = r_activeDealId rendered).
  assert (Hkeep : appended messages tagged
                    (snd (addMessage rendered RoleUser text None [] attachments [] s))
                    (snd (handle env rendered text attachments s))).
  { apply (@handle_keeps_after_user_message (appended messages tagged)
             (appended_refl messages tagged) (@appended_trans _ messages tagged)
             env rendered);
      unfold keeps; intros;
      first [ apply appended_same; reflexivity
            | eexists; split; [ reflexivity | ];
              constructor; [ reflexivity | constructor ]
            | unfold updateActiveDeal;
              destruct (r_activeDealId rendered) as [[| ? ?] |];
              apply appended_same; reflexivity ]. }
  destruct Hkeep as (more & Hmessages & Hmore).
  exists more. cbv zeta.
  assert (Hnew : Forall tagged
                   ({| msg_dealId := r_activeDealId rendered; msg_role := RoleUser;
                       msg_content := text; msg_sender := None; msg_attachments := [];
                       msg_inputAttachments := attachments;
                       msg_suggestedActions := [] |} :: more)).
  { constructor; [ reflexivity | exact Hmore ]. }
  split; [ | split; [ exact Hnew | split ] ].
  - rewrite Hmessages. cbn [addMessage modify snd setMessages messages].
    rewrite <- app_assoc. reflexivity.
  - intros Hnone context. apply activeMessages_global.
    eapply Forall_impl; [ | exact Hnew ].
    intros m Hm. unfold tagged in Hm. rewrite Hm. exact Hnone.
  - intros c id context Hsome. apply activeMessages_tagged.
    eapply Forall_impl; [ | exact Hnew ].
    intros m Hm. unfold tagged in Hm. rewrite Hm. exact Hsome.
Qed.

(** X15. A run that starts with no deal open never writes the outcome of
    its work into a deal room.  The rooms after the run are the rooms
    before it, each with its id, title, tags, priority and data as they
    were, followed by the rooms the run created, which still hold the
    placeholder title and data: the structuring result is not merged,
    because the helper that would merge it tests the deal id of the
    render that started the run. *)
Theorem run_without_open_deal_merges_nothing :
  forall (env : Environment) (rendered : Render) (text : jsstring)
         (attachments : list FileAttachment) (s : AppState),
    is_set (r_activeDealId rendered) = false ->
    roomsKept (env_Date_now env) s (snd (handle env rendered text attachments s)).
Proof.
  intros env rendered text attachments s Hunset.
  apply (@handle_keeps (roomsKept (env_Date_now env))
           (roomsKept_refl (env_Date_now env)) (@roomsKept_trans (env_Date_now env))
           env rendered);
    unfold keeps; intros;
    first [ apply roomsKept_same; reflexivity
          | unfold updateActiveDeal; unfold is_set in Hunset;
            destruct (r_activeDealId rendered) as [[| ? ?] |];
            [ apply roomsKept_refl | discriminate | apply roomsKept_refl ]
          | apply roomsKept_same; cbn [setDeals deals]; rewrite map_map;
            apply map_ext; intros d;
            match goal with
            | |- context [if ?b then _ else _] => destruct b
            end; reflexivity
          | idtac ].
  exists [newDealRoom (env_Date_now env) title]. cbn [setDeals deals].
  rewrite map_app. split; [ reflexivity | ].
  constructor; [ exists title; reflexivity | constructor ].
Qed.

(** A run from the start state in which every service answers: the room the
    run created still holds the placeholder. *)
Example run_without_open_deal_example :
  let run := handle FullRun.answering startRender (str "Find a software target") []
                    startState in
  fst run = Ok tt
  /\ started (snd run) = SOURCING_CHAIN
  /\ deals (snd run)
     = [newDealRoom (str "1700000000000") (str "Sourcing Scan")]
  /\ activeDealId (snd run) = Some (str "1700000000000").
Proof. vm_compute. repeat split; reflexivity. Qed.

Lemma run_without_open_deal_merges_nothing_run :
  roomsKept (str "1700000000000") startState
    (snd (handle FullRun.answering startRender (str "Find a software target") []
                 startState)).
Proof.
  apply (@run_without_open_deal_merges_nothing FullRun.answering startRender
           (str "Find a software target") [] startState).
  reflexivity.
Defined.

(** X16. A run that starts inside a deal room leaves every other room as
    it was: no room is added, removed or reordered, no id changes, and
    only the room whose id is the open one can differ afterwards. *)
Theorem run_touches_only_the_open_room :
  forall (env : Environment) (rendered : Render) (text : jsstring)
         (attachments : list FileAttachment) (s : AppState) (c : ascii) (id : jsstring),
    r_activeDealId rendered = Some (c :: id) ->
    othersUntouched (c :: id) s (snd (handle env rendered text attachments s)).
Proof.
  intros env rendered text attachments s c id Hopen.
  assert (Hset : is_set (r_activeDealId rendered) = true) by (rewrite Hopen; reflexivity).
  apply (@handle_keeps (othersUntouched (c :: id))
           (othersUntouched_refl (c :: id)) (@othersUntouched_trans (c :: id))
           env rendered);
    unfold keeps; intros;
    first [ apply othersUntouched_same; reflexivity
          | congruence
          | idtac ].
  - unfold updateActiveDeal. rewrite Hopen. cbn [modify snd].
    apply othersUntouched_map; intros d.
    + destruct (jsstring_eqb (deal_id d) (c :: id)); reflexivity.
    + intros ->. reflexivity.
  - match goal with
    | H : (if is_set _ then _ else _) |- _ => rewrite Hset in H; rewrite H
    end.
    rewrite Hopen.
    apply othersUntouched_map; intros d.
    + destruct (jsstring_eqb (deal_id d) (c :: id)); reflexivity.
    + intros ->. reflexivity.
Qed.

Lemma run_touches_only_the_open_room_run :
  othersUntouched (str "42") FullRun.twoRooms
    (snd (handle FullRun.answering FullRun.inRoom42 (str "Find a software target") []
                 FullRun.twoRooms)).
Proof.
  apply (@run_touches_only_the_open_room FullRun.answering FullRun.inRoom42
           (str "Find a software target") [] FullRun.twoRooms "4"%char (str "2")).
  reflexivity.
Defined.


(** *** How a run ends *)

Section Endings.

Variable env : Environment.
Variable rendered : Render.

Lemma resolves_bind (A B : Type) (Q : AppState -> Prop) (m : M AppState A)
      (k : A -> M AppState B) :
  (forall a, resolvesInto Q (k a)) -> resolvesInto Q (bind m k).
Proof.
  intros H s b s' E. unfold bind in E.
  destruct (m s) as [[a | e] s1]; [ exact (H a s1 b s' E) | discriminate ].
Qed.

(** The closing step of both flows: the opinion is awaited, then posted. *)
Lemma opinion_step_posted (description prompt : jsstring) (dealData : value)
      (attachments : list jsstring) (suggestedActions : list jsstring) :
  resolvesInto (endsWithOpinionOn env rendered prompt)
    (bind (runStep (env_stack_of env) MD description
             (invoke SvcOpinion
                (env_getMDFinalOpinion env dealData (r_mandate rendered) prompt))
             (env_traceId env))
          (fun finalOpinion =>
             addMessage rendered RoleModel finalOpinion ATHENA attachments []
                        suggestedActions)).
Proof.
  intros s a s' E.
  unfold runStep, runStep_begin, runStep_await, try_catch, invoke, addMessage,
    updateAgent, bind, modify, ret, throw in E.
  destruct (env_getMDFinalOpinion env dealData (r_mandate rendered) prompt)
    as [opinion | error] eqn:Hopinion; [ | discriminate E ].
  injection E as _ <-.
  eexists. exists dealData. unfold lastMessage. cbn [setMessages messages].
  rewrite rev_app_distr. cbn [rev app msg_content].
  split; [ reflexivity | ]. split; [ reflexivity | exact Hopinion ].
Qed.

Lemma sourcing_ends_with_opinion (text : jsstring) :
  resolvesInto (endsWithOpinionOn env rendered text) (sourcing env rendered text).
Proof.
  unfold sourcing, sourcingFlow. cbv zeta.
  repeat lazymatch goal with
         | |- resolvesInto _ (bind (runStep _ MD _ (invoke SvcOpinion _) _) _) =>
             apply opinion_step_posted
         | |- resolvesInto _ (bind _ _) => apply resolves_bind; intros
         end.
Qed.

Lemma documents_end_with_opinion (text : jsstring) (attachments : list FileAttachment) :
  resolvesInto
    (endsWithOpinionOn env rendered
       (match text with [] => str "Analyze this deal" | _ :: _ => text end))
    (documents env rendered text attachments).
Proof.
  unfold documents, documentAnalysisFlow. cbv zeta.
  repeat lazymatch goal with
         | |- resolvesInto _ (bind (runStep _ MD _ (invoke SvcOpinion _) _) _) =>
             apply opinion_step_posted
         | |- resolvesInto _ (bind _ _) => apply resolves_bind; intros
         end.
Qed.

(** The two ways out of the handler. *)
Lemma handle_cases (text : jsstring) (attachments : list FileAttachment) (s : AppState) :
  let s0 :=
    setIsProcessing true
      (snd (addMessage rendered RoleUser text None [] attachments [] s)) in
  let flow :=
    match attachments with
    | [] => sourcing env rendered text
    | _ :: _ => documents env rendered text attachments
    end in
  handle env rendered text attachments s
  = match flow s0 with
    | (Ok _, s1) => (Ok tt, setActiveEdge None (setIsProcessing false s1))
    | (Throw error, s1) =>
        (Ok tt,
         setActiveEdge None
           (setIsProcessing false
              (snd (updateAllAgents (statusOnly ERROR)
                      (snd (addMessage rendered RoleSystem (pipelineFailed error)
                                       SYSTEM [] [] [] s1))))))
    end.
Proof.
  cbv zeta.
  destruct attachments as [| file files];
    match goal with
    | |- _ = match ?flow ?s0 with _ => _ end =>
        destruct (flow s0) as [[[] | error] s1] eqn:E
    end;
    unfold sourcing, documents, addMessage, modify in E; cbn [snd] in E;
    unfold handle, handleUserMessage, try_finally, try_catch;
    unfold bind at 1 2; unfold addMessage at 1; unfold modify at 1 2;
    rewrite E; reflexivity.
Qed.

End Endings.

(** X17. handleUserMessage always resolves, whatever the services do.
    When it ends the processing flag is false and no edge is active; the
    agents are the same agents (ids, roles, names and descriptions in the
    same order), only statuses and tasks can differ; and the conversation
    ends in one of two ways.  Either its last message is the closing
    opinion: posted by the managing director, its content the very text
    that getMDFinalOpinion returned for a deal record, the mandate of the
    render and the prompt of the run (the text of the user; for a run
    over documents with no text, the stock prompt).  Or it is the failure
    notice of the pipeline, carrying the message of the error that ended
    the flow, and then every agent is in error. *)
Theorem handler_always_resolves :
  forall (env : Environment) (rendered : Render) (text : jsstring)
         (attachments : list FileAttachment) (s : AppState),
  exists s',
    handle env rendered text attachments s = (Ok tt, s')
    /\ isProcessing s' = false
    /\ activeEdge s' = None
    /\ sameCast s s'
    /\ exists m,
         lastMessage s' = Some m
         /\ ((isOpinion m = true
              /\ exists dealData,
                   env_getMDFinalOpinion env dealData (r_mandate rendered)
                                         (opinionPrompt text attachments)
                   = Ok (msg_content m))
             \/ (isFailureNotice m = true
                 /\ (exists error, msg_content m = pipelineFailed error)
                 /\ Forall (fun a => status a = ERROR) (agents s'))).
Proof.
  intros env rendered text attachments s.
  assert (Hcast : sameCast s (snd (handle env rendered text attachments s))).
  { apply (@handle_keeps sameCast (fun s0 => eq_refl) sameCast_trans env rendered);
      unfold keeps; intros;
      first [ apply sameCast_updateAgent | apply sameCast_updateAllAgents
            | reflexivity
            | unfold updateActiveDeal;
              destruct (r_activeDealId rendered) as [[| ? ?] |]; reflexivity ]. }
  pose proof (handle_cases env rendered text attachments s) as Hcases.
  cbv zeta in Hcases.
  set (s0 := setIsProcessing true
               (snd (addMessage rendered RoleUser text None [] attachments [] s))) in *.
  set (flow := match attachments with
               | [] => sourcing env rendered text
               | _ :: _ => documents env rendered text attachments
               end) in *.
  assert (Hflow : resolvesInto
                    (endsWithOpinionOn env rendered (opinionPrompt text attachments))
                    flow).
  { subst flow. destruct attachments.
    - apply sourcing_ends_with_opinion.
    - apply documents_end_with_opinion. }
  destruct (flow s0) as [[a | error] s1] eqn:Hrun;
    rewrite Hcases in Hcast; rewrite Hcases; eexists;
    (split; [ reflexivity | ]); (split; [ reflexivity | ]);
    (split; [ reflexivity | ]); (split; [ exact Hcast | ]).
  - destruct (Hflow s0 a s1 Hrun) as (m & dealData & Hlast & Hm & Hopinion).
    exists m. split; [ exact Hlast | left ].
    split; [ exact Hm | exists dealData; exact Hopinion ].
  - eexists. split.
    + unfold lastMessage. cbn [addMessage updateAllAgents modify snd setMessages
                                setAgents setIsProcessing setActiveEdge messages].
      rewrite rev_app_distr. reflexivity.
    + right. split; [ | split ].
      * unfold isFailureNotice, pipelineFailed. cbn [msg_role msg_sender msg_content SYSTEM].
        rewrite startsWith_app; reflexivity.
      * exists error. reflexivity.
      * apply updateAllAgents_sets_status.
Qed.

(** *** The services a run starts, and their order *)

Section Chains.

Lemma service_eqb_eq (a b : Service) : service_eqb a b = true -> a = b.
Proof. destruct a, b; simpl; intros H; try discriminate; reflexivity. Qed.

Lemma stripPrefix_sound (done : list Service) :
  forall chain rest, stripPrefix done chain = Some rest -> chain = done ++ rest.
Proof.
  induction done as [| d done IH]; intros chain rest H.
  - injection H as <-. reflexivity.
  - destruct chain as [| c chain]; [ discriminate | ]. simpl in H.
    destruct (service_eqb d c) eqn:E; [ | discriminate ].
    apply service_eqb_eq in E. subst c.
    simpl. rewrite (IH chain rest H). reflexivity.
Qed.

Lemma after_sound (done : list Service) (chains : list (list Service))
      (rest : list Service) :
  In rest (after done chains) -> In (done ++ rest) chains.
Proof.
  unfold after. intros H. apply in_flat_map in H as (chain & Hin & Hrest).
  destruct (stripPrefix done chain) as [r |] eqn:E; [ | contradiction ].
  destruct Hrest as [<- | []].
  rewrite <- (stripPrefix_sound done chain E). exact Hin.
Qed.

Lemma firstn_app_short (k : nat) (a b : list Service) :
  firstn k a = firstn (Nat.min k (length a)) (a ++ b).
Proof.
  rewrite firstn_app.
  replace (Nat.min k (length a) - length a) with 0 by lia.
  simpl. rewrite app_nil_r.
  destruct (Nat.le_ge_cases k (length a)) as [H | H].
  - rewrite Nat.min_l by exact H. reflexivity.
  - rewrite Nat.min_r by exact H. rewrite !firstn_all2 by lia. reflexivity.
Qed.

(** A step that starts the services of [done], then the rest. *)
Lemma starts_bind (A B : Type) (done : list Service) (chains : list (list Service))
      (m : M AppState A) (k : A -> M AppState B) :
  startsOneOf [done] m ->
  after done chains <> [] ->
  (forall a, startsOneOf (after done chains) (k a)) ->
  startsOneOf chains (bind m k).
Proof.
  intros Hm Hne Hk s. unfold bind.
  destruct (Hm s) as (c1 & k1 & [<- | []] & Hrun).
  destruct (m s) as [[a | e] s1].
  - destruct (Hk a s1) as (rest & k2 & Hin & Hrest).
    exists (done ++ rest), (length done + k2).
    split; [ apply after_sound; exact Hin | ].
    destruct (k a s1) as [[b | e] s2]; rewrite Hrest, Hrun, <- app_assoc.
    + reflexivity.
    + rewrite firstn_app_2. reflexivity.
  - destruct (after done chains) as [| rest others] eqn:E; [ contradiction | ].
    exists (done ++ rest), (Nat.min k1 (length done)).
    split; [ apply after_sound; rewrite E; left; reflexivity | ].
    rewrite Hrun, <- firstn_app_short. reflexivity.
Qed.

(** A step that starts nothing, then the rest. *)
Lemma starts_bind_quiet (A B : Type) (chains : list (list Service))
      (m : M AppState A) (k : A -> M AppState B) :
  quiet m ->
  chains <> [] ->
  (forall a, startsOneOf chains (k a)) ->
  startsOneOf chains (bind m k).
Proof.
  intros Hm Hne Hk s. unfold bind. specialize (Hm s).
  destruct (m s) as [[a | e] s1]; simpl in Hm.
  - destruct (Hk a s1) as (chain & k2 & Hin & Hrest).
    exists chain, k2. split; [ exact Hin | ]. rewrite <- Hm. exact Hrest.
  - destruct chains as [| chain others]; [ contradiction | ].
    exists chain, 0. split; [ left; reflexivity | ].
    simpl. rewrite app_nil_r. exact Hm.
Qed.

Lemma starts_quiet (A : Type) (chains : list (list Service)) (m : M AppState A) :
  quiet m -> In [] chains -> startsOneOf chains m.
Proof.
  intros Hm Hin s. exists [], 0. split; [ exact Hin | ]. specialize (Hm s).
  destruct (m s) as [[a | e] s1]; simpl in *; rewrite app_nil_r; exact Hm.
Qed.

Lemma starts_invoke (A : Type) (svc : Service) (outcome : Result A) :
  startsOneOf [[svc]] (invoke svc outcome).
Proof.
  intros s. exists [svc], 1. split; [ left; reflexivity | ].
  unfold invoke. destruct outcome; reflexivity.
Qed.

Lemma starts_lift_invoke (A B : Type) (r : Result A) (svc : Service)
      (outcome : A -> Result B) :
  startsOneOf [[svc]] (bind (lift r) (fun a => invoke svc (outcome a))).
Proof.
  intros s. unfold bind, lift, invoke. destruct r as [a | e].
  - exists [svc], 1. split; [ left; reflexivity | ]. destruct (outcome a); reflexivity.
  - exists [svc], 0. split; [ left; reflexivity | ]. simpl. rewrite app_nil_r. reflexivity.
Qed.

Variable stack_of : exn -> option jsstring.

Lemma starts_runStep_await (T : Type) (chains : list (list Service)) (r : AgentRole)
      (description : jsstring) (fn : M AppState T) (traceId : jsstring) :
  startsOneOf chains fn ->
  startsOneOf chains (runStep_await stack_of r description fn traceId).
Proof.
  intros H s. destruct (H s) as (chain & k & Hin & Hrun).
  exists chain, k. split; [ exact Hin | ].
  unfold runStep_await, try_catch, bind, modify, updateAgent, ret, throw.
  destruct (fn s) as [[a | e] s1]; exact Hrun.
Qed.

Lemma starts_runStep (T : Type) (chains : list (list Service)) (r : AgentRole)
      (description : jsstring) (fn : M AppState T) (traceId : jsstring) :
  startsOneOf chains fn ->
  startsOneOf chains (runStep stack_of r description fn traceId).
Proof.
  intros H s. unfold runStep, runStep_begin, bind at 1, updateAgent at 1, modify at 1.
  destruct (@starts_runStep_await T chains r description fn traceId H
              (setAgents (map (fun a => if role_eqb (role a) r
                                        then applyUpdate a
                                               {| upd_status := Some WORKING;
                                                  upd_currentTask := Some description |}
                                        else a)) s))
    as (chain & k & Hin & Hrun).
  exists chain, k. split; [ exact Hin | exact Hrun ].
Qed.

(** Writing a property other than the company name does not change the
    company name. *)
Lemma companyName_after_set_prop (o : value) (k : string) (v : value) :
  str k <> str "companyName" ->
  prop (set_prop o (str k) v) (str "companyName") = prop o (str "companyName").
Proof.
  intros Hk. destruct o; try reflexivity. simpl.
  rewrite lookup_obj_set_other by (intros E; apply Hk; symmetry; exact E).
  reflexivity.
Qed.

Lemma companyName_kept (A : Type) (l : list A) (sd urls urls' verified : value) :
  prop match l with
       | [] => set_prop sd (str "groundingUrls") urls
       | _ :: _ => set_prop (set_prop sd (str "groundingUrls") urls')
                            (str "location") verified
       end (str "companyName")
  = prop sd (str "companyName").
Proof.
  destruct l; rewrite !companyName_after_set_prop by discriminate; reflexivity.
Qed.

End Chains.

Ltac quiet_step :=
  intros ?s;
  unfold updateActiveDeal, createNewDealRoom, addMessage, updateAgent,
    updateAllAgents, runStep_begin;
  repeat match goal with
         | |- context [if ?b then _ else _] => destruct b
         | |- context [match ?x with _ => _ end] => destruct x
         end;
  reflexivity.

Ltac starts_step :=
  lazymatch goal with
  | |- startsOneOf _ (bind (runStep _ _ _ (invoke _ _) _) _) =>
      eapply starts_bind;
      [ apply starts_runStep; apply starts_invoke
      | vm_compute; discriminate
      | intros; cbn [after flat_map stripPrefix service_eqb app] ]
  | |- startsOneOf _ (bind (runStep_await _ _ _ (invoke _ _) _) _) =>
      eapply starts_bind;
      [ apply starts_runStep_await; apply starts_invoke
      | vm_compute; discriminate
      | intros; cbn [after flat_map stripPrefix service_eqb app] ]
  | |- startsOneOf _ (bind (runStep _ _ _ (bind (lift _) _) _) _) =>
      eapply starts_bind;
      [ apply starts_runStep; apply starts_lift_invoke
      | vm_compute; discriminate
      | intros; cbn [after flat_map stripPrefix service_eqb app] ]
  | |- startsOneOf _ (bind _ _) =>
      apply starts_bind_quiet; [ quiet_step | discriminate | intros ]
  | |- startsOneOf _ _ =>
      apply starts_quiet; [ quiet_step | simpl; tauto ]
  end.

Section FlowChains.

Variable env : Environment.
Variable rendered : Render.

Lemma sourcing_chain (text : jsstring) :
  startsOneOf [SOURCING_CHAIN; UNNAMED_CHAIN] (sourcing env rendered text).
Proof.
  unfold sourcing, sourcingFlow, SOURCING_CHAIN, UNNAMED_CHAIN. cbv zeta.
  repeat starts_step.
  (* the structured record: is it named? *)
  match goal with
  | |- context [if truthy ?name then runStep _ _ _ (invoke SvcLocation _) _ else _] =>
      destruct (truthy name) eqn:Hnamed
  end.
  - repeat starts_step.
    rewrite companyName_kept, Hnamed. repeat starts_step.
  - repeat starts_step.
    rewrite companyName_kept, Hnamed. repeat starts_step.
Qed.

Lemma documents_chain (text : jsstring) (attachments : list FileAttachment) :
  startsOneOf [DOCUMENT_CHAIN] (documents env rendered text attachments).
Proof.
  unfold documents, documentAnalysisFlow, DOCUMENT_CHAIN. cbv zeta.
  repeat starts_step.
Qed.

End FlowChains.

(** X18. The services of a run start in a fixed order, each at most once.
    A sourcing run starts a prefix of: strategy, scout, selection, deep
    dive, structuring, location, image, opinion (without location and
    image when the structured record has no company name); a document run
    a prefix of: analysis, structuring, opinion.  When the conversation
    ends with the opinion, the whole chain has run. *)
Theorem run_starts_services_in_order :
  forall (env : Environment) (rendered : Render) (text : jsstring)
         (attachments : list FileAttachment) (s : AppState),
  exists chain k,
    In chain match attachments with
             | [] => [SOURCING_CHAIN; UNNAMED_CHAIN]
             | _ :: _ => [DOCUMENT_CHAIN]
             end
    /\ started (snd (handle env rendered text attachments s))
       = started s ++ firstn k chain
    /\ (forall m,
           lastMessage (snd (handle env rendered text attachments s)) = Some m ->
           isOpinion m = true ->
           started (snd (handle env rendered text attachments s)) = started s ++ chain).
Proof.
  intros env rendered text attachments s.
  pose proof (handle_cases env rendered text attachments s) as Hcases.
  cbv zeta in Hcases.
  set (s0 := setIsProcessing true
               (snd (addMessage rendered RoleUser text None [] attachments [] s))) in *.
  assert (Hchain : exists chain k,
             In chain match attachments with
                      | [] => [SOURCING_CHAIN; UNNAMED_CHAIN]
                      | _ :: _ => [DOCUMENT_CHAIN]
                      end
             /\ match match attachments with
                      | [] => sourcing env rendered text
                      | _ :: _ => documents env rendered text attachments
                      end s0 with
                | (Ok _, s1) => started s1 = started s0 ++ chain
                | (Throw _, s1) => started s1 = started s0 ++ firstn k chain
                end).
  { destruct attachments as [| file files].
    - exact (sourcing_chain env rendered text s0).
    - exact (documents_chain env rendered text (file :: files) s0). }
  destruct Hchain as (chain & k & Hin & Hrun).
  destruct (match attachments with
            | [] => sourcing env rendered text
            | _ :: _ => documents env rendered text attachments
            end s0) as [[a | error] s1]; rewrite Hcases; cbn [snd].
  - exists chain, (length chain). split; [ exact Hin | ].
    rewrite firstn_all. split; [ exact Hrun | intros; exact Hrun ].
  - exists chain, k. split; [ exact Hin | ]. split; [ exact Hrun | ].
    intros m Hlast Hopinion. exfalso.
    unfold lastMessage in Hlast.
    cbn [addMessage updateAllAgents modify snd setMessages setAgents setIsProcessing
         setActiveEdge messages] in Hlast.
    rewrite rev_app_distr in Hlast. injection Hlast as <-. discriminate.
Qed.

(** *** The log of a run *)

Ltac silent_step :=
  intros ?s;
  unfold updateActiveDeal, createNewDealRoom, addMessage, updateAgent,
    updateAllAgents, runStep_begin, invoke, lift, bind, modify, ret, throw;
  repeat match goal with
         | |- context [if ?b then _ else _] => destruct b
         | |- context [match ?x with _ => _ end] => destruct x
         end;
  reflexivity.

Section Logs.

Variable traceId : jsstring.
Variable stack_of : exn -> option jsstring.

Lemma logs_silent (A : Type) (m : M AppState A) : silent m -> logsSteps traceId m.
Proof.
  intros H s. specialize (H s). destruct (m s) as [[a | e] s1]; simpl in H.
  - exists []. rewrite app_nil_r. split; [ exact H | constructor ].
  - exists [], []. simpl. rewrite app_nil_r.
    split; [ exact H | split; [ constructor | left; reflexivity ] ].
Qed.

Lemma logs_append (e : LogEntry) :
  stepCompleted traceId e ->
  logsSteps traceId (modify (setLogs (fun prev => prev ++ [e]))).
Proof.
  intros He s. exists [e]. split; [ reflexivity | ]. constructor; [ exact He | constructor ].
Qed.

Lemma logs_bind (A B : Type) (m : M AppState A) (k : A -> M AppState B) :
  logsSteps traceId m -> (forall a, logsSteps traceId (k a)) ->
  logsSteps traceId (bind m k).
Proof.
  intros Hm Hk s. unfold bind. specialize (Hm s).
  destruct (m s) as [[a | e] s1]; [ | exact Hm ].
  destruct Hm as (n1 & E1 & F1). specialize (Hk a s1).
  destruct (k a s1) as [[b | e] s2].
  - destruct Hk as (n2 & E2 & F2). exists (n1 ++ n2).
    rewrite E2, E1, <- app_assoc. split; [ reflexivity | ].
    apply Forall_app. split; assumption.
  - destruct Hk as (n2 & last & E2 & F2 & Hlast). exists (n1 ++ n2), last.
    rewrite E2, E1, <- !app_assoc. split; [ reflexivity | ].
    split; [ apply Forall_app; split; assumption | exact Hlast ].
Qed.

(** A step logs one entry: completed when its work resolves, failed, with
    the message of the error, when it rejects. *)
Lemma logs_runStep_await (T : Type) (r : AgentRole) (description : jsstring)
      (fn : M AppState T) :
  silent fn -> logsSteps traceId (runStep_await stack_of r description fn traceId).
Proof.
  intros H s. specialize (H s).
  unfold runStep_await, try_catch, bind, modify, updateAgent, ret, throw.
  destruct (fn s) as [[a | e] s1]; simpl in H.
  - eexists. cbn [snd fst setLogs setAgents logs]. rewrite H.
    split; [ reflexivity | ].
    constructor; [ repeat split | constructor ].
  - exists [], [errorEntry stack_of r description traceId e].
    cbn [snd fst setLogs setAgents logs app]. rewrite H.
    split; [ reflexivity | ]. split; [ constructor | ].
    right. eexists. split; [ reflexivity | ].
    repeat split. eexists. split; reflexivity.
Qed.

Lemma logs_runStep (T : Type) (r : AgentRole) (description : jsstring)
      (fn : M AppState T) :
  silent fn -> logsSteps traceId (runStep stack_of r description fn traceId).
Proof.
  intros H. unfold runStep. apply logs_bind.
  - apply logs_silent. silent_step.
  - intros _. apply logs_runStep_await. exact H.
Qed.

End Logs.

Ltac logs_step :=
  lazymatch goal with
  | |- logsSteps _ (bind (runStep _ _ _ _ _) _) =>
      apply logs_bind; [ apply logs_runStep; silent_step | intros ]
  | |- logsSteps _ (bind (runStep_await _ _ _ _ _) _) =>
      apply logs_bind; [ apply logs_runStep_await; silent_step | intros ]
  | |- logsSteps _ (bind (modify (setLogs _)) _) =>
      apply logs_bind; [ apply logs_append; repeat split | intros ]
  | |- logsSteps _ (bind (if ?b then runStep _ _ _ _ _ else _) _) =>
      apply logs_bind;
      [ destruct b; [ apply logs_runStep; silent_step | apply logs_silent; silent_step ]
      | intros ]
  | |- logsSteps _ (bind _ _) =>
      apply logs_bind; [ apply logs_silent; silent_step | intros ]
  | |- logsSteps _ _ => apply logs_silent; silent_step
  end.

Section FlowLogs.

Variable env : Environment.
Variable rendered : Render.

Lemma sourcing_logs (text : jsstring) :
  logsSteps (env_traceId env) (sourcing env rendered text).
Proof.
  unfold sourcing, sourcingFlow. cbv zeta. repeat logs_step.
Qed.

Lemma documents_logs (text : jsstring) (attachments : list FileAttachment) :
  logsSteps (env_traceId env) (documents env rendered text attachments).
Proof.
  unfold documents, documentAnalysisFlow. cbv zeta. repeat logs_step.
Qed.

End FlowLogs.

(** X19. The log of a run: only entries with the trace id of the run are
    appended; they are completed steps, except that the last one can be
    the entry of a failed step.  A failed step ends the run: its entry
    carries the message of the error, and the conversation ends with the
    failure notice built from that same error. *)
Theorem run_log_ends_at_the_failed_step :
  forall (env : Environment) (rendered : Render) (text : jsstring)
         (attachments : list FileAttachment) (s : AppState),
  exists new last,
    logs (snd (handle env rendered text attachments s)) = logs s ++ new ++ last
    /\ Forall (stepCompleted (env_traceId env)) new
    /\ (last = []
        \/ exists entry error,
             last = [entry]
             /\ stepFailed (env_traceId env) error entry
             /\ option_map msg_content
                  (lastMessage (snd (handle env rendered text attachments s)))
                = Some (pipelineFailed error)).
Proof.
  intros env rendered text attachments s.
  pose proof (handle_cases env rendered text attachments s) as Hcases.
  cbv zeta in Hcases.
  set (s0 := setIsProcessing true
               (snd (addMessage rendered RoleUser text None [] attachments [] s))) in *.
  assert (Hlogs : logsSteps (env_traceId env)
                    match attachments with
                    | [] => sourcing env rendered text
                    | _ :: _ => documents env rendered text attachments
                    end).
  { destruct attachments; [ apply sourcing_logs | apply documents_logs ]. }
  specialize (Hlogs s0).
  destruct (match attachments with
            | [] => sourcing env rendered text
            | _ :: _ => documents env rendered text attachments
            end s0) as [[a | error] s1]; rewrite Hcases; cbn [snd].
  - destruct Hlogs as (new & E & F). exists new, [].
    rewrite app_nil_r. split; [ exact E | split; [ exact F | left; reflexivity ] ].
  - destruct Hlogs as (new & last & E & F & Hlast). exists new, last.
    split; [ exact E | split; [ exact F | ] ].
    destruct Hlast as [-> | (entry & -> & Hentry)]; [ left; reflexivity | right ].
    exists entry, error. split; [ reflexivity | split; [ exact Hentry | ] ].
    unfold lastMessage.
    cbn [addMessage updateAllAgents modify snd setMessages setAgents setIsProcessing
         setActiveEdge messages].
    rewrite rev_app_distr. reflexivity.
Qed.

(** *** updateActiveDeal *)

Section Merging.

Lemma lookup_fold_set (k : jsstring) (kvs : list (jsstring * value)) :
  forall base,
    lookup k (fold_left (fun acc kv => obj_set acc (fst kv) (snd kv)) kvs base)
    = match lookup k (rev kvs) with
      | Some v => Some v
      | None => lookup k base
      end.
Proof.
  induction kvs as [| [k' v'] kvs IH] using rev_ind; intros base; [ reflexivity | ].
  rewrite fold_left_app, rev_app_distr. cbn [fold_left fst snd rev app lookup].
  destruct (jsstring_eqb k k') eqn:E.
  - apply jsstring_eqb_eq in E. subst k'. apply lookup_obj_set_same.
  - rewrite lookup_obj_set_other; [ apply IH | ].
    intros ->. rewrite jsstring_eqb_refl in E. discriminate.
Qed.

End Merging.

(** X20. updateActiveDeal does nothing when the render has no deal open.
    Otherwise it rewrites the room with the open id only: the title
    becomes the override when that is truthy, and the data is a shallow
    merge, where a property the update holds takes the update's value
    (the last one written) and every other property keeps its value;
    stage, tags and priority stay. *)
Theorem updateActiveDeal_merges_shallowly :
  forall (rendered : Render) (updates titleOverride : value) (s : AppState),
    (is_set (r_activeDealId rendered) = false ->
     updateActiveDeal rendered updates titleOverride s = (Ok tt, s))
    /\ (forall c id,
           r_activeDealId rendered = Some (c :: id) ->
           exists s',
             updateActiveDeal rendered updates titleOverride s = (Ok tt, s')
             /\ Forall2
                  (fun d d' =>
                     if jsstring_eqb (deal_id d) (c :: id)
                     then deal_id d' = deal_id d
                          /\ deal_stage d' = deal_stage d
                          /\ deal_tags d' = deal_tags d
                          /\ deal_priority d' = deal_priority d
                          /\ deal_title d' = or_else titleOverride (deal_title d)
                          /\ exists props,
                               deal_data d' = VObj props
                               /\ forall k,
                                    lookup k props
                                    = match lookup k (rev (own_enumerable updates)) with
                                      | Some v => Some v
                                      | None => lookup k (own_enumerable (deal_data d))
                                      end
                     else d' = d)
                  (deals s) (deals s')
             /\ agents s' = agents s /\ messages s' = messages s
             /\ logs s' = logs s /\ activeDealId s' = activeDealId s).
Proof.
  intros rendered updates titleOverride s. split.
  - unfold is_set, updateActiveDeal.
    destruct (r_activeDealId rendered) as [[| c id] |]; intros H;
      [ reflexivity | discriminate | reflexivity ].
  - intros c id Hopen. unfold updateActiveDeal. rewrite Hopen.
    eexists. split; [ reflexivity | ].
    cbn [setDeals deals agents messages logs activeDealId].
    split; [ | repeat split ].
    induction (deals s) as [| d l IH]; simpl; constructor; [ | exact IH ].
    destruct (jsstring_eqb (deal_id d) (c :: id)); [ | reflexivity ].
    cbn [deal_id deal_stage deal_tags deal_priority deal_title deal_data].
    repeat split. eexists. split; [ reflexivity | ].
    intros k. apply lookup_fold_set.
Qed.

(** *** handlePortfolioIngest *)

Import PortfolioIngest.

(** X21. handlePortfolioIngest always resolves, with the processing flag
    false and no active edge.  The portfolio only grows: by the companies
    the ingestion returned, in their order, and by nothing when the
    ingestion failed.  It posts two system messages, the announcement and
    then either the count of the onboarded companies or the failure
    notice; it logs one step; and on failure only the diligence agent is
    set to error, the deals being untouched either way. *)
Theorem portfolio_ingest_only_grows_the_portfolio :
  forall (stack_of : exn -> option jsstring)
         (ingestPortfolioDocuments : list FileAttachment -> Result (list value))
         (traceId : jsstring) (rendered : Render) (files : list FileAttachment)
         (s : AppState) (portfolio : list value),
  exists s',
    handlePortfolioIngest stack_of ingestPortfolioDocuments traceId rendered files
                          (s, portfolio)
    = (Ok tt,
       (s', portfolio ++ match ingestPortfolioDocuments files with
                         | Ok newCompanies => newCompanies
                         | Throw _ => []
                         end))
    /\ isProcessing s' = false
    /\ activeEdge s' = None
    /\ deals s' = deals s
    /\ sameCast s s'
    /\ (exists first second,
           messages s' = messages s ++ [first; second]
           /\ msg_content first = ingesting files
           /\ msg_content second
              = match ingestPortfolioDocuments files with
                | Ok newCompanies => onboarded newCompanies
                | Throw _ => ingestionFailed
                end)
    /\ (exists entry,
           logs s' = logs s ++ [entry]
           /\ log_role entry = DILIGENCE
           /\ match ingestPortfolioDocuments files with
              | Ok _ => stepCompleted traceId entry
              | Throw error => stepFailed traceId error entry
              end)
    /\ Forall2 (fun a a' =>
                  status a'
                  = if role_eqb (role a) DILIGENCE
                    then match ingestPortfolioDocuments files with
                         | Ok _ => IDLE
                         | Throw _ => ERROR
                         end
                    else status a)
               (agents s) (agents s').
Proof.
  intros stack_of ingestPortfolioDocuments traceId rendered files s portfolio.
  unfold handlePortfolioIngest, try_finally, try_catch, onApp, runStep, runStep_begin,
    runStep_await, try_catch, addMessage, updateAgent, bind, modify, lift, ret, throw,
    setPortfolio.
  cbn [fst snd].
  destruct (ingestPortfolioDocuments files) as [newCompanies | error];
    cbn [fst snd]; eexists; (split; [ try rewrite app_nil_r; reflexivity | ]);
    cbn [setAgents setLogs setMessages setIsProcessing setActiveEdge agents logs
         messages deals isProcessing activeEdge];
    (split; [ reflexivity | ]); (split; [ reflexivity | ]);
    (split; [ reflexivity | ]).
  - split.
    { unfold sameCast. state_simpl. rewrite !map_map. apply map_ext. intros a.
      destruct (role_eqb (role a) DILIGENCE) eqn:E; cbn [role applyUpdate];
        rewrite ?E; reflexivity. }
    split.
    { eexists. eexists. rewrite <- app_assoc. split; [ reflexivity | ].
      split; reflexivity. }
    split.
    { eexists. split; [ reflexivity | ]. split; [ reflexivity | repeat split ]. }
    rewrite map_map.
    induction (agents s) as [| a l IH]; simpl; constructor; [ | exact IH ].
    destruct (role_eqb (role a) DILIGENCE) eqn:E; cbn [role applyUpdate];
      rewrite ?E; reflexivity.
  - split.
    { unfold sameCast. state_simpl. rewrite !map_map. apply map_ext. intros a.
      destruct (role_eqb (role a) DILIGENCE) eqn:E; cbn [role applyUpdate];
        rewrite ?E; reflexivity. }
    split.
    { eexists. eexists. rewrite <- app_assoc. split; [ reflexivity | ].
      split; reflexivity. }
    split.
    { eexists. split; [ reflexivity | ]. split; [ reflexivity | ].
      repeat split. eexists. split; reflexivity. }
    rewrite map_map.
    induction (agents s) as [| a l IH]; simpl; constructor; [ | exact IH ].
    destruct (role_eqb (role a) DILIGENCE) eqn:E; cbn [role applyUpdate];
      rewrite ?E; reflexivity.
Qed.

(** ** The image agents *)

(** X22. generateSlideDesign, given a slide object, rejects in one case
    only: when the client cannot be constructed, which happens before the
    try block; it then sends nothing.  With a client it never raises: it
    sends the primary request in 16:9 with the 1K image size; when that
    fails with a message holding 403, PERMISSION_DENIED or Quota it sends
    exactly one more request, to the fallback model and without image
    size, and answers with the image of that response, or null when it
    has none or the fallback fails too; on any other failure it answers
    null with no second request. *)
Theorem slide_design_falls_back_once :
  forall (generateContent : Request -> Result Response) (getClient : Result unit)
         (slideTitle visualDirective companyName : jsstring) (sent : list Request),
    let prompt := slidePrompt companyName slideTitle visualDirective in
    let primary := imageRequest prompt (str "16:9") PRIMARY_IMAGE_MODEL true in
    let fallback := imageRequest prompt (str "16:9") FALLBACK_IMAGE_MODEL false in
    let run := generateSlideDesign generateContent getClient slideTitle visualDirective
                                   companyName sent in
    (forall e, getClient = Throw e -> run = (Throw e, sent))
    /\ ((exists e, fst run = Throw e) <-> (exists e, getClient = Throw e))
    /\ option_map imageSize (imageConfig primary) = Some (Some (str "1K"))
    /\ option_map imageSize (imageConfig fallback) = Some None
    /\ (getClient = Ok tt ->
        (forall e,
            generateContent primary = Throw e -> quotaClass (message e) = true ->
            snd run = sent ++ [primary; fallback]
            /\ fst run = match generateContent fallback with
                         | Ok fallbackResponse =>
                             Ok (firstInlineImage (parts fallbackResponse))
                         | Throw _ => Ok None
                         end)
        /\ (forall e,
               generateContent primary = Throw e -> quotaClass (message e) = false ->
               run = (Ok None, sent ++ [primary]))
        /\ (forall response,
               generateContent primary = Ok response ->
               run = (Ok (firstInlineImage (parts response)), sent ++ [primary]))).
Proof.
  intros generateContent getClient slideTitle visualDirective companyName sent prompt
         primary fallback run.
  subst run. unfold generateSlideDesign, try_catch, bind, lift, call, ret.
  fold prompt. fold primary. fold fallback.
  split; [ intros e ->; reflexivity | ].
  split.
  { destruct getClient as [[] | e0]; cbn [fst].
    - split; [ | intros [e He]; discriminate He ].
      destruct (generateContent primary) as [response | e]; cbn [fst].
      + intros [e He]; discriminate He.
      + destruct (quotaClass (message e)); cbn [fst];
          [ destruct (generateContent fallback) | ];
          intros [e1 He]; discriminate He.
    - split; intros _; exists e0; reflexivity. }
  split; [ reflexivity | ]. split; [ reflexivity | ].
  intros ->. split.
  { intros e He Hq. rewrite He, Hq. rewrite <- app_assoc. cbn [app].
    destruct (generateContent fallback); split; reflexivity. }
  split.
  { intros e He Hq. rewrite He, Hq. reflexivity. }
  intros response Hr. rewrite Hr. reflexivity.
Qed.

(** X23. The image read from a response is the data of the first part
    that holds inline data, as a PNG data URL; the parts before it hold
    none, the parts after it are not looked at; and the answer is null
    exactly when no part holds inline data. *)
Theorem firstInlineImage_is_the_first :
  forall ps : list Part,
    match firstInlineImage ps with
    | Some url =>
        exists before data rest,
          ps = before ++ {| inlineData := Some data |} :: rest
          /\ Forall (fun p => inlineData p = None) before
          /\ url = str "data:image/png;base64," ++ data
    | None => Forall (fun p => inlineData p = None) ps
    end.
Proof.
  induction ps as [| [[data |]] ps IH]; cbn [firstInlineImage inlineData].
  - constructor.
  - exists [], data, ps. repeat split. constructor.
  - destruct (firstInlineImage ps) as [url |].
    + destruct IH as (before & data & rest & -> & Hbefore & ->).
      exists ({| inlineData := None |} :: before), data, rest.
      repeat split. constructor; [ reflexivity | exact Hbefore ].
    + constructor; [ reflexivity | exact IH ].
Qed.

(** ** Hydration: what the date reviver changes *)

Import Revived.

(** X24. Reading a stored collection with the date reviver turns every
    string that begins like an ISO date and time into a Date, at any depth,
    and changes nothing else: the result holds no such string, it has the
    skeleton of the parsed value (same kinds, keys, lengths, numbers and
    texts), a value without such strings comes back as it was parsed, and
    reviving twice is reviving once. *)
Theorem revive_only_turns_date_texts_into_dates :
  forall v : value,
    noDateText (revive dateReviver v) = true
    /\ sameSkeleton v (revive dateReviver v) = true
    /\ (noDateText v = true -> revive dateReviver v = v)
    /\ revive dateReviver (revive dateReviver v) = revive dateReviver v.
Proof.
  assert (Hfixed : forall v, noDateText v = true -> revive dateReviver v = v).
  { induction v as [ | | b | m e | s | s | items IH | props IH ]
      using value_nested_ind; intros H; try reflexivity.
    - cbn [noDateText] in H. apply negb_true_iff in H.
      cbn [revive dateReviver]. rewrite H. reflexivity.
    - cbn [revive dateReviver]. f_equal. cbn [noDateText] in H.
      induction IH as [| x l Hx Hl IHl]; [ reflexivity | ].
      cbn [forallb] in H. apply andb_true_iff in H as [H1 H2].
      cbn [map]. rewrite (Hx H1), (IHl H2). reflexivity.
    - cbn [revive dateReviver]. f_equal. cbn [noDateText] in H.
      induction IH as [| [k x] l Hx Hl IHl]; [ reflexivity | ].
      cbn [forallb snd] in H. apply andb_true_iff in H as [H1 H2].
      cbn [map fst snd] in *. rewrite (Hx H1), (IHl H2). reflexivity. }
  assert (Hnone : forall v, noDateText (revive dateReviver v) = true).
  { induction v as [ | | b | m e | s | s | items IH | props IH ]
      using value_nested_ind; try reflexivity.
    - cbn [revive dateReviver].
      destruct (matchesPrefix DATE_PATTERN s) eqn:E; cbn [noDateText];
        [ reflexivity | rewrite E; reflexivity ].
    - cbn [revive dateReviver noDateText].
      induction IH as [| x l Hx Hl IHl]; [ reflexivity | ].
      cbn [map forallb]. rewrite Hx. exact IHl.
    - cbn [revive dateReviver noDateText].
      induction IH as [| [k x] l Hx Hl IHl]; [ reflexivity | ].
      cbn [map forallb fst snd] in *. rewrite Hx. exact IHl. }
  assert (Hskeleton : forall v, sameSkeleton v (revive dateReviver v) = true).
  { induction v as [ | | b | m e | s | s | items IH | props IH ]
      using value_nested_ind; try reflexivity.
    - cbn [revive dateReviver sameSkeleton]. destruct b; reflexivity.
    - cbn [revive dateReviver sameSkeleton]. rewrite !Z.eqb_refl. reflexivity.
    - cbn [revive dateReviver].
      destruct (matchesPrefix DATE_PATTERN s); cbn [sameSkeleton];
        apply jsstring_eqb_refl.
    - cbn [revive dateReviver sameSkeleton]. apply jsstring_eqb_refl.
    - cbn [revive dateReviver sameSkeleton].
      induction IH as [| x l Hx Hl IHl]; [ reflexivity | ].
      cbn [map]. rewrite Hx. exact IHl.
    - cbn [revive dateReviver sameSkeleton].
      induction IH as [| [k x] l Hx Hl IHl]; [ reflexivity | ].
      cbn [map fst snd] in *. rewrite jsstring_eqb_refl, Hx. exact IHl. }
  intros v. split; [ apply Hnone | ]. split; [ apply Hskeleton | ].
  split; [ apply Hfixed | ]. apply Hfixed. apply Hnone.
Qed.
